(** * data_process.py: corpus clean-up passes, embedded and verified

    Source: [egs2/genshin/tts1/local/data_process.py].

    Python [str] values are lists of Unicode code points; a path is the list
    of its components; the directory tree is an association list from paths
    to entries whose order is the listing order [os.scandir] reports.  The
    one comparison of the source that is on the strings of two paths takes
    the spelling from a parameter, [kept_by_pathlib].

    The program runs in a monad over the disk and what was printed, with
    Python's exceptions as a result of its own.  The file system is one
    device without symbolic links or permissions; the codecs decode a file
    from its content alone; the thread pool of the audio pass takes the
    files one after the other; standard output encodes every message.
    What the audio libraries compute from the samples is left to
    parameters: the frames [audioop.ratecv] makes of a clip ([ratecv])
    and the milliseconds pydub counts for a number of frames
    ([len_ms]). *)

From Stdlib Require Import String Ascii.
From Stdlib Require Import List NArith ZArith Bool Lia Arith.
Import ListNotations.
Local Open Scope string_scope.
Local Open Scope N_scope.
Local Open Scope list_scope.

(* ================================================================= *)
(** ** Text *)

Module Text.

(** A Python [str]: a sequence of code points. *)
Definition ustring := list N.

(** Decoder for the UTF-8 bytes of a literal, so that names can be written
    the way the source writes them. *)
Fixpoint str (s : string) : ustring :=
  match s with
  | EmptyString => []
  | String a r =>
    let b := N_of_ascii a in
    let cont x := N_of_ascii x - 128 in
    if b <? 128 then b :: str r
    else if b <? 224 then
      match r with
      | String a1 r1 => ((b - 192) * 64 + cont a1) :: str r1
      | _ => []
      end
    else if b <? 240 then
      match r with
      | String a1 (String a2 r2) =>
        ((b - 224) * 4096 + cont a1 * 64 + cont a2) :: str r2
      | _ => []
      end
    else
      match r with
      | String a1 (String a2 (String a3 r3)) =>
        ((b - 240) * 262144 + cont a1 * 4096 + cont a2 * 64 + cont a3) :: str r3
      | _ => []
      end
  end.

Fixpoint ueqb (s t : ustring) : bool :=
  match s, t with
  | [], [] => true
  | c :: s', d :: t' => (c =? d) && ueqb s' t'
  | _, _ => false
  end.

Definition in_range (lo hi c : N) : bool := (lo <=? c) && (c <=? hi).

(** [a-zA-Z0-9] of an [re] character class (no IGNORECASE: ASCII only). *)
Definition is_ascii_alnum (c : N) : bool :=
  in_range 97 122 c || in_range 65 90 c || in_range 48 57 c.

(** [str.isspace] and [\s] of a [str] pattern: CPython's
    [_PyUnicode_IsWhitespace]. *)
Definition is_space (c : N) : bool :=
  in_range 9 13 c || in_range 28 32 c || (c =? 133) || (c =? 160)
  || (c =? 5760) || in_range 8192 8202 c || (c =? 8232) || (c =? 8233)
  || (c =? 8239) || (c =? 8287) || (c =? 12288).

(** [\d] of a [str] pattern: the decimal digits (category Nd) of the
    Unicode database CPython 3.11 ships (version 14.0), as ranges. *)
Definition unicode_Nd : list (N * N) :=
  [ (48, 57); (1632, 1641); (1776, 1785); (1984, 1993); (2406, 2415);
    (2534, 2543); (2662, 2671); (2790, 2799); (2918, 2927); (3046, 3055);
    (3174, 3183); (3302, 3311); (3430, 3439); (3558, 3567); (3664, 3673);
    (3792, 3801); (3872, 3881); (4160, 4169); (4240, 4249); (6112, 6121);
    (6160, 6169); (6470, 6479); (6608, 6617); (6784, 6793); (6800, 6809);
    (6992, 7001); (7088, 7097); (7232, 7241); (7248, 7257); (42528, 42537);
    (43216, 43225); (43264, 43273); (43472, 43481); (43504, 43513);
    (43600, 43609); (44016, 44025); (65296, 65305); (66720, 66729);
    (68912, 68921); (69734, 69743); (69872, 69881); (69942, 69951);
    (70096, 70105); (70384, 70393); (70736, 70745); (70864, 70873);
    (71248, 71257); (71360, 71369); (71472, 71481); (71904, 71913);
    (72016, 72025); (72784, 72793); (73040, 73049); (73120, 73129);
    (92768, 92777); (92864, 92873); (93008, 93017); (120782, 120831);
    (123200, 123209); (123632, 123641); (125264, 125273); (130032, 130041) ].

Definition is_digit (c : N) : bool :=
  existsb (fun r => in_range (fst r) (snd r) c) unicode_Nd.

(** [s.startswith(p)] *)
Fixpoint startswith (p s : ustring) : bool :=
  match p, s with
  | [], _ => true
  | c :: p', d :: s' => (c =? d) && startswith p' s'
  | _ :: _, [] => false
  end.

(** [s.endswith(p)] *)
Definition endswith (p s : ustring) : bool :=
  (length p <=? length s)%nat && ueqb (skipn (length s - length p) s) p.

(** [s.lower()], on the ASCII letters.  No character outside ASCII
    lower-cases to a letter of the extensions compared below. *)
Definition lower (s : ustring) : ustring :=
  map (fun c => if in_range 65 90 c then c + 32 else c) s.

(** [s.replace(old, new)]: non-overlapping occurrences, left to right.
    [skip] counts the characters of an occurrence still to be dropped. *)
Fixpoint replace_from (old new : ustring) (skip : nat) (s : ustring) : ustring :=
  match s with
  | [] => []
  | c :: r =>
    match skip with
    | S k => replace_from old new k r
    | O =>
      if startswith old s
      then new ++ replace_from old new (length old - 1) r
      else c :: replace_from old new O r
    end
  end.

Definition replace (old new s : ustring) : ustring :=
  match old with
  | [] => s
  | _ => replace_from old new O s
  end.

(** ['_' in s] *)
Definition contains (c : N) (s : ustring) : bool := existsb (N.eqb c) s.

(** [sep.join(parts)] *)
Fixpoint join (sep : ustring) (parts : list ustring) : ustring :=
  match parts with
  | [] => []
  | [t] => t
  | t :: rest => t ++ sep ++ join sep rest
  end.

(** [s.split()]: maximal runs of non-whitespace; [cur] is the run being
    read. *)
Fixpoint split_ws (cur s : ustring) : list ustring :=
  match s with
  | [] => match cur with [] => [] | _ => [cur] end
  | c :: r =>
    if is_space c
    then match cur with
         | [] => split_ws [] r
         | _ => cur :: split_ws [] r
         end
    else split_ws (cur ++ [c]) r
  end.

Definition split (s : ustring) : list ustring := split_ws [] s.

(** [str(n)] for a non-negative counter. *)
Fixpoint decimal_fuel (fuel : nat) (n : N) (acc : ustring) : ustring :=
  match fuel with
  | O => acc
  | S f =>
    let acc' := (48 + n mod 10) :: acc in
    if n <? 10 then acc' else decimal_fuel f (n / 10) acc'
  end.

Definition decimal (n : N) : ustring := decimal_fuel (S (N.to_nat n)) n [].

End Text.
Import Text.

(* ================================================================= *)
(** ** Names *)

(** has_chinese *)
Definition has_chinese (text : ustring) : bool :=
  existsb (in_range 19968 40959) text.

(** clean_name *)
Definition clean_name (text : ustring) : ustring :=
  let cleaned := filter (fun c => is_ascii_alnum c || is_space c) text in
  let cleaned := join (str " ") (split cleaned) in
  cleaned.

(** What section 4.1 of the specification calls an already-clean name:
    only ASCII letters and digits, tokens separated by single spaces, no
    blank at either end.  [clean_after] reads what follows an
    alphanumeric. *)
Fixpoint clean_after (s : ustring) : bool :=
  match s with
  | [] => true
  | c :: r =>
    if is_ascii_alnum c then clean_after r
    else if c =? 32 then
      match r with
      | d :: _ => is_ascii_alnum d && clean_after r
      | [] => false
      end
    else false
  end.

Definition already_clean (s : ustring) : bool :=
  match s with
  | [] => true
  | c :: r => is_ascii_alnum c && clean_after s
  end.

(** *** The pattern [[_-]?(\d+)$] of rename_speaker_folders *)

Definition is_sep (c : N) : bool := (c =? 95) || (c =? 45).

(** [$] without MULTILINE: the end of the text, or just before a newline
    that ends it. *)
Definition at_end (s : ustring) : bool :=
  match s with
  | [] => true
  | [c] => c =? 10
  | _ => false
  end.

(** [\d+$] anchored at the head of [s]. *)
Fixpoint digits_to_end (s : ustring) : bool :=
  match s with
  | [] => false
  | c :: r => is_digit c && (digits_to_end r || at_end r)
  end.

(** The whole pattern anchored at the head of [s]. *)
Definition match_here (s : ustring) : bool :=
  match s with
  | [] => false
  | c :: r => (is_sep c && digits_to_end r) || digits_to_end s
  end.

(** [pattern.search]: [match.start()] of the leftmost match. *)
Fixpoint search_from (i : nat) (s : ustring) : option nat :=
  if match_here s then Some i
  else match s with
       | [] => None
       | _ :: r => search_from (S i) r
       end.

Definition pattern_search (dir_name : ustring) : option nat :=
  search_from O dir_name.

(** [dir_name[:match.start()]], when the pattern matches. *)
Definition stripped_name (dir_name : ustring) : option ustring :=
  match pattern_search dir_name with
  | Some start => Some (firstn start dir_name)
  | None => None
  end.

(** The pattern as section 4.3 words it: an optional [_] or [-], then one
    or more digits, and nothing after them. *)
Definition numeric_suffix (x : ustring) : bool :=
  match x with
  | [] => false
  | c :: r =>
    if is_sep c
    then negb (ueqb r []) && forallb is_digit r
    else forallb is_digit x
  end.


(* ================================================================= *)
(** ** Paths *)

Definition name := ustring.

(** A path, as the list of its components from the root of the file
    system ([[]] is [/]); the source's strings are these joined by [/]. *)
Definition path := list name.

Fixpoint peqb (p q : path) : bool :=
  match p, q with
  | [], [] => true
  | a :: p', b :: q' => ueqb a b && peqb p' q'
  | _, _ => false
  end.

(** [Some r] when [q = p ++ r]. *)
Fixpoint strip_prefix (p q : path) : option path :=
  match p, q with
  | [], _ => Some q
  | a :: p', b :: q' => if ueqb a b then strip_prefix p' q' else None
  | _ :: _, [] => None
  end.

Definition is_under (p q : path) : bool :=
  match strip_prefix p q with Some _ => true | None => false end.

(** os.path.basename *)
Definition basename (p : path) : name := last p [].

(** os.path.join(root, n) for a single component [n]: an empty [n] or
    [.] denotes [root] itself, [..] its parent. *)
Definition os_path_join (root : path) (n : name) : path :=
  if ueqb n [] || ueqb n (str ".") then root
  else if ueqb n (str "..") then removelast root
  else root ++ [n].

Definition on_basename (f : name -> name) (p : path) : path :=
  removelast p ++ [f (basename p)].

(** [s.rfind('.')] *)
Fixpoint rfind_dot_from (i : nat) (s : ustring) (found : option nat) : option nat :=
  match s with
  | [] => found
  | c :: r => rfind_dot_from (S i) r (if c =? 46 then Some i else found)
  end.

Definition rfind_dot (s : ustring) : option nat := rfind_dot_from O s None.

(** os.path.splitext, on the last component: the extension starts at the
    last dot, unless only dots come before it. *)
Definition splitext (n : name) : name * name :=
  match rfind_dot n with
  | Some i =>
    if existsb (fun c => negb (c =? 46)) (firstn i n)
    then (firstn i n, skipn i n)
    else (n, [])
  | None => (n, [])
  end.

(** pathlib's [PurePath.suffix] *)
Definition suffix (n : name) : name :=
  match rfind_dot n with
  | Some i => if (0 <? i)%nat && (i <? length n - 1)%nat then skipn i n else []
  | None => []
  end.

(** pathlib's [PurePath.with_suffix] *)
Definition with_suffix (p : path) (new_suffix : name) : path :=
  on_basename (fun n =>
    match suffix n with
    | [] => n ++ new_suffix
    | old_suffix => firstn (length n - length old_suffix) n ++ new_suffix
    end) p.

(** [file_path.replace(old, new)]: neither text holds a [/], so the
    occurrences lie inside components. *)
Definition path_replace (old new : ustring) (p : path) : path :=
  map (replace old new) p.

(** [file_path.lower().endswith(ext)] for an [ext] without [/]. *)
Definition path_lower_endswith (ext : ustring) (p : path) : bool :=
  match p with
  | [] => false
  | _ => endswith ext (lower (basename p))
  end.

(* ================================================================= *)
(** ** The directory tree *)

Inductive container := WAV | MP3 | OGG | M4A | FLAC.

(** What the codecs report of a decodable file: channel count, sample
    rate in Hz, number of frames ([len(data)] of soundfile,
    [frame_count()] of pydub). *)
Record audio := mkAudio { channels : Z; frame_rate : Z; frames : Z }.

(** The bytes of a file, as far as the program can tell them apart. *)
Inductive content :=
| Sound (k : container) (a : audio)
| Blob (b : list N).

Inductive entry :=
| File (c : content)
| Dir.

Definition fs := list (path * entry).

Definition lookup (d : fs) (p : path) : option entry :=
  match find (fun e => peqb (fst e) p) d with
  | Some e => Some (snd e)
  | None => None
  end.

Definition exists_ (d : fs) (p : path) : bool :=
  match lookup d p with Some _ => true | None => false end.

Definition isdir (d : fs) (p : path) : bool :=
  match lookup d p with Some Dir => true | _ => false end.

(** The entries directly inside [p], in listing order. *)
Definition children (d : fs) (p : path) : list (name * entry) :=
  flat_map (fun e =>
    match strip_prefix p (fst e) with
    | Some [n] => [(n, snd e)]
    | _ => []
    end) d.

Definition listdir (d : fs) (p : path) : list name := map fst (children d p).

Definition is_dir_entry (e : name * entry) : bool :=
  match snd e with Dir => true | File _ => false end.

Definition remove_path (d : fs) (p : path) : fs :=
  filter (fun e => negb (peqb (fst e) p)) d.

Definition remove_tree (d : fs) (p : path) : fs :=
  filter (fun e => negb (is_under p (fst e))) d.

Definition move_tree (d : fs) (old new : path) : fs :=
  map (fun e =>
    match strip_prefix old (fst e) with
    | Some r => (new ++ r, snd e)
    | None => e
    end) d.

Definition put_file (d : fs) (p : path) (c : content) : fs :=
  if exists_ d p
  then map (fun e => if peqb (fst e) p then (p, File c) else e) d
  else d ++ [(p, File c)].

(** Longest path on the disk: a bound on how deep a walk descends. *)
Definition depth_bound (d : fs) : nat :=
  fold_right (fun e m => Nat.max (length (fst e)) m) O d.

(** The paths on the disk, in order. *)
Definition keys (d : fs) : list path := map fst d.

(* ================================================================= *)
(** ** Effects: the disk, standard output, exceptions *)

Inductive exn :=
| FileNotFoundError
| IsADirectoryError
| NotADirectoryError
| FileExistsError
| OSError_EINVAL
| OSError_ENOTEMPTY
| ShutilError            (* shutil.Error: destination path already exists *)
| CouldntDecodeError     (* pydub / ffmpeg *)
| LibsndfileError        (* soundfile, also when the module is missing *)
| ZeroDivisionError.

(** One constructor per [print] of the source. *)
Inductive msg :=
| Banner (text : string)
| ErrorConvertingPinyin (text : ustring)
| PreviewRemoveFolder (p : path)
| RemovedFolder (p : path)
| ErrorRemovingFolder (p : path) (e : exn)
| Renamed (old new : name)
| FailedRename (p : path) (e : exn)
| ErrorDuration (p : path) (e : exn)
| FileNotFound (p : path)
| NeedsMono (n : name)
| NeedsResampling (n : name) (rate : Z)
| AlreadyCorrect (n : name)
| PreviewConvertWav (p : path) (chans rate : Z)
| ConvertedWav (n : name)
| ErrorSoundfile (e : exn)
| ConvertingMono (n : name)
| Resampling (n : name)
| PreviewConvert (p new : path) (mono : bool) (rate : Z)
| Converted (old new : name)
| ErrorConverting (p : path) (e : exn)
| PreviewRemoveShort (p : path) (ms : Z)
| RemovedShort (p : path) (ms : Z)
| ErrorRemoving (p : path) (e : exn)
| NoAudioFiles
| Processing (n : nat)
| Processed (n removed : nat)
| ErrorFolderRemoval (e : exn)
| PreviewRename (old new : name)
| PreviewRenameFile (old new : name)
| PreviewRenameDir (old new : name)
| Merged (old new : path)
| ErrorSpeakerFolders (e : exn)
| TargetMissing (p : path)
| Skipping (n : name)
| ErrorProcessingFolder (e : exn)
| ErrorUnderscore (e : exn)
| Start (p : path)
| Mode (dry_run : bool).

Record world := mkWorld { disk : fs; out : list msg }.

Inductive outcome (A : Type) :=
| Done (a : A)
| Raised (e : exn)
| OutOfFuel.
Arguments Done {A} a.
Arguments Raised {A} e.
Arguments OutOfFuel {A}.

Definition M (A : Type) := world -> outcome A * world.

Definition ret {A} (a : A) : M A := fun w => (Done a, w).

Definition bind {A B} (m : M A) (k : A -> M B) : M B :=
  fun w =>
    match m w with
    | (Done a, w') => k a w'
    | (Raised e, w') => (Raised e, w')
    | (OutOfFuel, w') => (OutOfFuel, w')
    end.

Definition raise {A} (e : exn) : M A := fun w => (Raised e, w).

Definition out_of_fuel {A} : M A := fun w => (OutOfFuel, w).

(** [try: m except Exception as e: h e] *)
Definition try_except {A} (m : M A) (h : exn -> M A) : M A :=
  fun w =>
    match m w with
    | (Raised e, w') => h e w'
    | r => r
    end.

Definition get_disk : M fs := fun w => (Done (disk w), w).

Definition set_disk (d : fs) : M unit :=
  fun w => (Done tt, mkWorld d (out w)).

(** [print(...)].  Standard output is taken to encode every message, as
    a UTF-8 terminal does.  On one that cannot encode a name, Python's
    [print] raises UnicodeEncodeError; the model leaves that out, and
    what follows is about runs on a standard output that encodes what
    is printed. *)
Definition print (m : msg) : M unit :=
  fun w => (Done tt, mkWorld (disk w) (out w ++ [m])).

Declare Scope py_scope.
Delimit Scope py_scope with py.
Notation "x <- m ;; k" := (bind m (fun x => k))
  (at level 61, m at next level, right associativity) : py_scope.
Notation "m ;; k" := (bind m (fun _ => k))
  (at level 61, right associativity) : py_scope.
Local Open Scope py_scope.

(** [for x in xs: s = f x s] *)
Fixpoint for_each {A St} (xs : list A) (f : A -> St -> M St) (s : St) : M St :=
  match xs with
  | [] => ret s
  | x :: rest => s' <- f x s ;; for_each rest f s'
  end.

(** [for x in xs: f x] *)
Definition for_ {A} (xs : list A) (f : A -> M unit) : M unit :=
  for_each xs (fun x _ => f x) tt.

(* ================================================================= *)
(** ** The operating system and the libraries the source calls *)

(** os.path.exists *)
Definition os_path_exists (p : path) : M bool :=
  d <- get_disk ;; ret (exists_ d p).

(** os.listdir *)
Definition os_listdir (p : path) : M (list name) :=
  d <- get_disk ;;
  match lookup d p with
  | Some Dir => ret (listdir d p)
  | Some (File _) => raise NotADirectoryError
  | None => raise FileNotFoundError
  end.

(** os.remove *)
Definition os_remove (p : path) : M unit :=
  d <- get_disk ;;
  match lookup d p with
  | Some (File _) => set_disk (remove_path d p)
  | Some Dir => raise IsADirectoryError
  | None => raise FileNotFoundError
  end.

(** shutil.rmtree *)
Definition shutil_rmtree (p : path) : M unit :=
  d <- get_disk ;;
  match lookup d p with
  | Some Dir => set_disk (remove_tree d p)
  | Some (File _) => raise NotADirectoryError
  | None => raise FileNotFoundError
  end.

(** os.rename, as rename(2) on one device: an existing file is replaced
    by a file, an empty directory by a directory. *)
Definition os_rename (old new : path) : M unit :=
  d <- get_disk ;;
  match lookup d old with
  | None => raise FileNotFoundError
  | Some o =>
    if peqb old new then ret tt
    else if negb (isdir d (removelast new)) then raise FileNotFoundError
    else if is_under old new then raise OSError_EINVAL
    else
      match lookup d new, o with
      | None, _ => set_disk (move_tree d old new)
      | Some (File _), File _ => set_disk (move_tree (remove_path d new) old new)
      | Some (File _), Dir => raise NotADirectoryError
      | Some Dir, File _ => raise IsADirectoryError
      | Some Dir, Dir =>
        match listdir d new with
        | [] => set_disk (move_tree (remove_path d new) old new)
        | _ => raise OSError_ENOTEMPTY
        end
      end
  end.

(** shutil.move.  Its copy-and-delete fallback after a failed [os.rename]
    only succeeds across devices; on one device it fails as the rename
    did. *)
Definition shutil_move (src dst : path) : M unit :=
  d <- get_disk ;;
  if isdir d dst then
    if peqb src dst then os_rename src dst
    else
      let real_dst := os_path_join dst (basename src) in
      if exists_ d real_dst then raise ShutilError
      else os_rename src real_dst
  else os_rename src dst.

(** One [os.scandir] of [os.walk]: sub-directories and other entries. *)
Definition scandir (d : fs) (top : path) : option (list name * list name) :=
  match lookup d top with
  | Some Dir =>
    let es := children d top in
    Some (map fst (filter is_dir_entry es),
          map fst (filter (fun e => negb (is_dir_entry e)) es))
  | _ => None
  end.

(** os.walk, consumed by a [for] loop whose body is [body] and whose
    local variables are [s].  The generator scans a directory when it
    reaches it, so the body's changes are seen by later scans; a failed
    scan is skipped ([onerror=None]). *)
Fixpoint os_walk {St} (fuel : nat) (topdown : bool) (top : path)
    (body : path -> list name -> list name -> St -> M St) (s : St) : M St :=
  d <- get_disk ;;
  match scandir d top with
  | None => ret s
  | Some (dirs, nondirs) =>
    match fuel with
    | O => out_of_fuel
    | S f =>
      let descend s :=
        for_each dirs
          (fun dirname s => os_walk f topdown (os_path_join top dirname) body s) s in
      if topdown
      then s <- body top dirs nondirs s ;; descend s
      else s <- descend s ;; body top dirs nondirs s
    end
  end.

(** A walk never descends below the longest path on the disk. *)
Definition walk {St} (topdown : bool) (top : path)
    (body : path -> list name -> list name -> St -> M St) (s : St) : M St :=
  d <- get_disk ;; os_walk (S (depth_bound d)) topdown top body s.

Definition open_rb (p : path) : M content :=
  d <- get_disk ;;
  match lookup d p with
  | Some (File c) => ret c
  | Some Dir => raise IsADirectoryError
  | None => raise FileNotFoundError
  end.

Definition write_file (p : path) (c : content) : M unit :=
  d <- get_disk ;;
  if isdir d p then raise IsADirectoryError
  else if isdir d (removelast p) then set_disk (put_file d p c)
  else raise FileNotFoundError.

(** pydub: AudioSegment.from_file *)
Definition AudioSegment_from_file (p : path) : M audio :=
  c <- open_rb p ;;
  match c with
  | Sound _ a => ret a
  | Blob _ => raise CouldntDecodeError
  end.

(** pydub: [audio.set_channels(1)], and numpy's [data.mean(axis=1)]:
    the frames are kept, one channel is left. *)
Definition set_channels (a : audio) (n : Z) : audio :=
  mkAudio n (frame_rate a) (frames a).

(** scipy: [signal.resample(data, num)]: [num] frames. *)
Definition signal_resample (data : audio) (num : Z) : audio :=
  mkAudio (channels data) (frame_rate data) num.

(** pydub: [audio.export(p, format='wav')] *)
Definition export_wav (a : audio) (p : path) : M unit :=
  write_file p (Sound WAV a).

(* ================================================================= *)
(** ** The program *)

Definition FOLDERS_TO_REMOVE : list name :=
  [ str "其它语音 - Others";
    str "带变量语音 - Placeholder";
    str "战斗语音 - Battle";
    str "#Unknown" ].

Definition AUDIO_EXTENSIONS : list name :=
  [ str ".mp3"; str ".wav"; str ".ogg"; str ".m4a"; str ".flac" ].

(** [x in xs] *)
Definition mem (x : ustring) (xs : list ustring) : bool := existsb (ueqb x) xs.

Section Program.

(** The containers the installed soundfile decodes (none when the module
    cannot be imported).  scipy, which the same branch imports to
    resample, is taken to be installed with it. *)
Variable soundfile : container -> bool.

(** [str(Path(file_path)) == file_path]: whether the string the program
    holds for the path is the one pathlib writes for it.  It is for the
    paths found under a target typed [data] or [/corpus/data]; it is not
    under a target typed [./data] or [data//], where os.walk hands out
    [./data/a.wav] and pathlib writes [data/a.wav].  The two strings name
    the same file, so every other step sees the components only. *)
Variable kept_by_pathlib : path -> bool.

(** pydub: [len(audio)], the length in milliseconds that pydub computes
    from the number of frames and the sample rate, rounded. *)
Variable len_ms : Z -> Z -> Z.

(** audioop.ratecv, through which pydub resamples: the number of frames
    of the clip at the new rate. *)
Variable ratecv : audio -> Z -> Z.

(** [len(audio)] *)
Definition millis (a : audio) : Z := len_ms (frames a) (frame_rate a).

(** pydub: [audio.set_frame_rate(r)] *)
Definition set_frame_rate (a : audio) (r : Z) : audio :=
  if (frame_rate a =? r)%Z then a else mkAudio (channels a) r (ratecv a r).

(** pypinyin.lazy_pinyin(text, strict=False); [None] when it raises. *)
Variable lazy_pinyin : ustring -> option (list ustring).

(** str.capitalize *)
Variable capitalize : ustring -> ustring.

(** soundfile: [sf.read]; the data and its sample rate. *)
Definition sf_read (p : path) : M (audio * Z) :=
  d <- get_disk ;;
  match lookup d p with
  | Some (File (Sound k a)) =>
    if soundfile k then ret (a, frame_rate a) else raise LibsndfileError
  | _ => raise LibsndfileError
  end.

(** soundfile: [sf.write(p, data, rate)]: the frames of [data] at the
    rate given, the format taken from the extension, which is [.wav]
    wherever the source calls it. *)
Definition sf_write (p : path) (data : audio) (rate : Z) : M unit :=
  write_file p (Sound WAV (mkAudio (channels data) rate (frames data))).

Definition convert_to_pinyin (text : ustring) : M ustring :=
  match lazy_pinyin text with
  | Some pinyin_list =>
    let pinyin := concat (map capitalize pinyin_list) in
    ret (clean_name pinyin)
  | None =>
    print (ErrorConvertingPinyin text) ;;
    ret (clean_name text)
  end.

Definition safe_remove_folder (folder_path : path) (dry_run : bool) : M bool :=
  try_except
    (if dry_run then
       print (PreviewRemoveFolder folder_path) ;;
       ret true
     else
       shutil_rmtree folder_path ;;
       print (RemovedFolder folder_path) ;;
       ret true)
    (fun e =>
       print (ErrorRemovingFolder folder_path e) ;;
       ret false).

(** The [while os.path.exists(new_path)] loop of safe_rename. *)
Fixpoint free_path (fuel : nat) (base_path new_path : path) (counter : N) : M path :=
  taken <- os_path_exists new_path ;;
  if taken then
    match fuel with
    | O => out_of_fuel
    | S f =>
      let (name, ext) := splitext (basename base_path) in
      let new_path :=
        removelast base_path ++ [name ++ str "_" ++ decimal counter ++ ext] in
      free_path f base_path new_path (counter + 1)
    end
  else ret new_path.

Definition safe_rename (old_path new_path : path) : M bool :=
  try_except
    (if peqb old_path new_path then ret true
     else
       d <- get_disk ;;
       new_path <- free_path (S (length d)) new_path new_path 1 ;;
       os_rename old_path new_path ;;
       print (Renamed (basename old_path) (basename new_path)) ;;
       ret true)
    (fun e =>
       print (FailedRename old_path e) ;;
       ret false).

(** get_audio_duration, in milliseconds: the source returns
    [len(audio) / 1000.0], and [0.0] when decoding fails. *)
Definition get_audio_duration (file_path : path) : M Z :=
  try_except
    (audio <- AudioSegment_from_file file_path ;;
     ret (millis audio))
    (fun e =>
       print (ErrorDuration file_path e) ;;
       ret 0%Z).

(** The [.wav] branch of convert_audio_format, inside its own [try]. *)
Definition convert_wav_with_soundfile (file_path : path) (dry_run : bool)
  : M (path * bool) :=
  r <- sf_read file_path ;;
  let (data, sample_rate) := r in
  needs_conversion <-
    (if (1 <? channels data)%Z
     then print (NeedsMono (basename file_path)) ;; ret true
     else ret false) ;;
  needs_conversion <-
    (if negb (sample_rate =? 44100)%Z
     then print (NeedsResampling (basename file_path) sample_rate) ;; ret true
     else ret needs_conversion) ;;
  if negb needs_conversion then
    print (AlreadyCorrect (basename file_path)) ;;
    ret (file_path, false)
  else if dry_run then
    print (PreviewConvertWav file_path
             (if (1 <? channels data)%Z then channels data else 1%Z) sample_rate) ;;
    ret (file_path, true)
  else
    let data := if (1 <? channels data)%Z then set_channels data 1 else data in
    data <-
      (if negb (sample_rate =? 44100)%Z
       then
         (* new_length = int(len(data) * 44100 / sample_rate) *)
         if (sample_rate =? 0)%Z then raise ZeroDivisionError
         else
           let new_length := Z.quot (frames data * 44100) sample_rate in
           ret (signal_resample data new_length)
       else ret data) ;;
    sf_write file_path data 44100 ;;
    print (ConvertedWav (basename file_path)) ;;
    ret (file_path, true).

(** The rest of convert_audio_format: decode with pydub, export as WAV. *)
Definition convert_with_pydub (file_path : path) (dry_run : bool)
  : M (path * bool) :=
  audio <- AudioSegment_from_file file_path ;;
  audio <-
    (if (1 <? channels audio)%Z
     then print (ConvertingMono (basename file_path)) ;;
          ret (set_channels audio 1)
     else ret audio) ;;
  audio <-
    (if negb (frame_rate audio =? 44100)%Z
     then print (Resampling (basename file_path)) ;;
          ret (set_frame_rate audio 44100)
     else ret audio) ;;
  (* new_path = str(Path(file_path).with_suffix('.wav')) *)
  let new_path := with_suffix file_path (str ".wav") in
  (* file_path == new_path: the same components, written the same way *)
  let same_string := kept_by_pathlib file_path && peqb file_path new_path in
  if same_string
     && (channels audio =? 1)%Z && (frame_rate audio =? 44100)%Z
  then ret (file_path, false)
  else if dry_run then
    print (PreviewConvert file_path new_path
             (channels audio =? 1)%Z (frame_rate audio)) ;;
    ret (new_path, true)
  else
    export_wav audio new_path ;;
    (if negb same_string then os_remove file_path else ret tt) ;;
    print (Converted (basename file_path) (basename new_path)) ;;
    ret (new_path, true).

Definition convert_audio_format (file_path : path) (dry_run : bool)
  : M (path * bool) :=
  try_except
    (present <- os_path_exists file_path ;;
     if negb present then
       print (FileNotFound file_path) ;;
       ret (file_path, false)
     else
       returned <-
         (if path_lower_endswith (str ".wav") file_path then
            try_except
              (r <- convert_wav_with_soundfile file_path dry_run ;; ret (Some r))
              (fun e => print (ErrorSoundfile e) ;; ret None)
          else ret None) ;;
       match returned with
       | Some r => ret r
       | None => convert_with_pydub file_path dry_run
       end)
    (fun e =>
       print (ErrorConverting file_path e) ;;
       ret (file_path, false)).

(** The threshold [duration < 1.0] seconds is [1000] milliseconds. *)
Definition process_audio_file (args : path * bool) : M (path * bool) :=
  let (file_path, dry_run) := args in
  r <- convert_audio_format file_path dry_run ;;
  let file_path := fst r in
  duration <- get_audio_duration file_path ;;
  if (duration <? 1000)%Z then
    (if dry_run then
       print (PreviewRemoveShort file_path duration)
     else
       try_except
         (os_remove file_path ;;
          os_remove (path_replace (str ".wav") (str ".lab") file_path) ;;
          print (RemovedShort file_path duration))
         (fun e => print (ErrorRemoving file_path e))) ;;
    ret (file_path, true)
  else ret (file_path, false).

(** remove_short_audio_files.  [executor.map] hands the files to a pool
    of threads; they are taken here one after the other, in the order
    submitted. *)
Definition remove_short_audio_files (target_folder : path) (dry_run : bool)
  : M unit :=
  print (Banner "=== Removing audio files shorter than 1 second ===") ;;
  audio_files <-
    walk true target_folder
      (fun root _ files audio_files =>
         for_each files
           (fun file audio_files =>
              if mem (lower (suffix file)) AUDIO_EXTENSIONS
              then ret (audio_files ++ [(os_path_join root file, dry_run)])
              else ret audio_files)
           audio_files)
      [] ;;
  match audio_files with
  | [] => print NoAudioFiles
  | _ =>
    print (Processing (length audio_files)) ;;
    results <-
      for_each audio_files
        (fun args results => r <- process_audio_file args ;; ret (results ++ [r]))
        [] ;;
    let removed_count := length (filter snd results) in
    print (Processed (length audio_files) removed_count)
  end.

Definition remove_specific_folders (target_folder : path) (dry_run : bool)
  : M unit :=
  try_except
    (walk false target_folder
       (fun root dirs _ _ =>
          for_ dirs
            (fun dir_name =>
               if mem dir_name FOLDERS_TO_REMOVE then
                 let folder_path := os_path_join root dir_name in
                 safe_remove_folder folder_path dry_run ;; ret tt
               else ret tt))
       tt)
    (fun e => print (ErrorFolderRemoval e)).

(** The "Merge contents" branch of rename_speaker_folders. *)
Definition merge_contents (old_path new_path : path) : M unit :=
  items <- os_listdir old_path ;;
  for_ items
    (fun item => shutil_move (os_path_join old_path item) new_path) ;;
  shutil_rmtree old_path ;;
  print (Merged old_path new_path).

(** The body of the loop of rename_speaker_folders, for one [dir_name]
    of one [root]. *)
Definition strip_folder_suffix (root : path) (dir_name : name) (dry_run : bool)
  : M unit :=
  match pattern_search dir_name with
  | Some start =>
    let old_path := os_path_join root dir_name in
    let new_name := firstn start dir_name in
    let new_path := os_path_join root new_name in
    if dry_run then
      print (PreviewRename dir_name new_name)
    else
      taken <- os_path_exists new_path ;;
      if taken then merge_contents old_path new_path
      else safe_rename old_path new_path ;; ret tt
  | None => ret tt
  end.

Definition rename_speaker_folders (target_folder : path) (dry_run : bool)
  : M unit :=
  print (Banner "=== Removing trailing '{num}', '-{num}', or '_{num}' from speaker folders ===") ;;
  try_except
    (walk false target_folder
       (fun root dirs _ _ =>
          for_ dirs (fun dir_name => strip_folder_suffix root dir_name dry_run))
       tt)
    (fun e => print (ErrorSpeakerFolders e)).

Definition rename_folders_to_pinyin (target_folder : path) (dry_run : bool)
  : M unit :=
  try_except
    (present <- os_path_exists target_folder ;;
     if negb present then
       print (TargetMissing target_folder)
     else
       print (Banner "=== Removing specified folders ===") ;;
       remove_specific_folders target_folder dry_run ;;
       print (Banner "=== Converting folder names to Pinyin ===") ;;
       walk false target_folder
         (fun root dirs _ _ =>
            for_ dirs
              (fun dir_name =>
                 if has_chinese dir_name then
                   let old_path := os_path_join root dir_name in
                   new_name <- convert_to_pinyin dir_name ;;
                   match new_name with
                   | [] => print (Skipping dir_name)
                   | _ =>
                     let new_path := os_path_join root new_name in
                     if dry_run then
                       print (PreviewRename dir_name new_name)
                     else
                       safe_rename old_path new_path ;; ret tt
                   end
                 else ret tt))
         tt ;;
       remove_short_audio_files target_folder dry_run)
    (fun e => print (ErrorProcessingFolder e)).

Definition rename_files_underscore_to_dash (target_folder : path)
    (dry_run : bool) : M unit :=
  print (Banner "=== Converting underscores to dashes in names ===") ;;
  try_except
    (walk false target_folder
       (fun root dirs files _ =>
          for_ files
            (fun file_name =>
               if contains 95 file_name then
                 let old_path := os_path_join root file_name in
                 let new_name := replace (str "_") (str "-") file_name in
                 let new_path := os_path_join root new_name in
                 if dry_run then
                   print (PreviewRenameFile file_name new_name)
                 else
                   safe_rename old_path new_path ;; ret tt
               else ret tt) ;;
          for_ dirs
            (fun dir_name =>
               if contains 95 dir_name then
                 let old_path := os_path_join root dir_name in
                 let new_name := replace (str "_") (str "-") dir_name in
                 let new_path := os_path_join root new_name in
                 if dry_run then
                   print (PreviewRenameDir dir_name new_name)
                 else
                   safe_rename old_path new_path ;; ret tt
               else ret tt))
       tt)
    (fun e => print (ErrorUnderscore e)).

(** main, after the command line is parsed. *)
Definition main (target_folder : path) (dry_run : bool) : M unit :=
  print (Start target_folder) ;;
  print (Mode dry_run) ;;
  rename_folders_to_pinyin target_folder dry_run ;;
  rename_speaker_folders target_folder dry_run ;;
  rename_files_underscore_to_dash target_folder dry_run ;;
  print (Banner "Processing completed").

(** The passes of the program, to be run in any order. *)
Inductive pass :=
| RemoveSpecificFolders
| RenameFoldersToPinyin
| RemoveShortAudioFiles
| RenameSpeakerFolders
| RenameFilesUnderscoreToDash.

Definition run_pass (target_folder : path) (dry_run : bool) (p : pass) : M unit :=
  match p with
  | RemoveSpecificFolders => remove_specific_folders target_folder dry_run
  | RenameFoldersToPinyin => rename_folders_to_pinyin target_folder dry_run
  | RemoveShortAudioFiles => remove_short_audio_files target_folder dry_run
  | RenameSpeakerFolders => rename_speaker_folders target_folder dry_run
  | RenameFilesUnderscoreToDash => rename_files_underscore_to_dash target_folder dry_run
  end.

Definition run_passes (target_folder : path) (dry_run : bool) (ps : list pass)
  : M unit :=
  for_ ps (run_pass target_folder dry_run).

End Program.

(** *** Instances of the libraries, for running the program *)

(** A soundfile build that decodes every container. *)
Definition soundfile_all : container -> bool := fun _ => true.

(** A soundfile that cannot be imported. *)
Definition soundfile_missing : container -> bool := fun _ => false.

(** Paths under a target typed the way pathlib writes it, such as
    [data]. *)
Definition spelled_plainly : path -> bool := fun _ => true.

(** Paths under a target typed [./data]. *)
Definition spelled_with_dot : path -> bool := fun _ => false.

(** A [len(audio)] that rounds to the nearest millisecond. *)
Definition len_ms_nearest (n rate : Z) : Z := ((2000 * n + rate) / (2 * rate))%Z.

(** A resampler that drops the fraction of a frame. *)
Definition ratecv_floor (a : audio) (rate : Z) : Z :=
  (frames a * rate / frame_rate a)%Z.

(** A pypinyin that raises on every text. *)
Definition pinyin_raises : ustring -> option (list ustring) := fun _ => None.

(** str.capitalize on ASCII text. *)
Definition capitalize_ascii (s : ustring) : ustring :=
  match s with
  | [] => []
  | c :: r => (if in_range 97 122 c then c - 32 else c) :: lower r
  end.

(** Run [m] on disk [d] with nothing printed yet. *)
Definition run {A} (m : M A) (d : fs) : outcome A * world := m (mkWorld d []).

Definition disk_after {A} (m : M A) (d : fs) : fs := disk (snd (run m d)).

(** A path written with its components. *)
Definition P (components : list string) : path := map str components.


(* ================================================================= *)
(** ** Vocabulary of the statements *)

(** *** Clean names *)

Definition alnum_run (t : ustring) : Prop :=
  Forall (fun c => is_ascii_alnum c = true) t.

Definition token (t : ustring) : Prop := t <> [] /\ alnum_run t.

(** *** Computations that leave the disk alone *)

(** [m] leaves the disk as it found it, however it ends. *)
Definition preserves_disk {A} (m : M A) : Prop :=
  forall w, disk (snd (m w)) = disk w.

(** Whenever [m] returns a value, the value satisfies [Q]. *)
Definition returns {A} (m : M A) (Q : A -> Prop) : Prop :=
  forall w a w', m w = (Done a, w') -> Q a.

(** Every file the audio pass collects in preview mode carries the
    preview flag. *)
Definition flagged (dry_run : bool) (audio_files : list (path * bool)) : Prop :=
  Forall (fun args => snd args = dry_run) audio_files.

(** *** Well-formed disks and the merge *)

Definition proper_name (n : name) : bool :=
  negb (ueqb n [] || ueqb n (str ".") || ueqb n (str "..")).

Fixpoint distinct_keys (d : fs) : bool :=
  match d with
  | [] => true
  | (k, _) :: rest => negb (existsb (peqb k) (keys rest)) && distinct_keys rest
  end.

(** A disk as a file system presents it: no path twice, no component
    empty, [.] or [..], and every entry inside a directory that is
    listed. *)
Definition well_formed (d : fs) : bool :=
  distinct_keys d
  && forallb (fun k =>
       forallb proper_name k
       && match k with
          | [] => true
          | _ => isdir d (removelast k)
          end) (keys d).

(** The disk after every entry of [old] moved under the same name into
    [new] and [old] was removed. *)
Definition merged (d : fs) (old new : path) : fs :=
  remove_tree
    (fold_left (fun d n => move_tree d (old ++ [n]) (new ++ [n])) (listdir d old) d)
    old.

(** Nothing lies at or under [new/n]. *)
Definition free_in_target (d : fs) (new : path) (n : name) : Prop :=
  forall r, lookup d (new ++ n :: r) = None.

Definition after_moves (d : fs) (old new : path) (done : list name) : fs :=
  fold_left (fun d n => move_tree d (old ++ [n]) (new ++ [n])) done d.

Definition expected (d : fs) (old new : path) (done : list name) (q : path)
  : option entry :=
  if existsb (fun n => is_under (old ++ [n]) q) done then None
  else match strip_prefix new q with
       | Some (n :: r) =>
         if mem n done then lookup d (old ++ n :: r) else lookup d q
       | _ => lookup d q
       end.

(** No entry of [old_path] has a name that [new_path] already holds. *)
Definition no_common_name (d : fs) (old_path new_path : path) : Prop :=
  forall n, In n (listdir d old_path) -> ~ In n (listdir d new_path).

(** *** Settled trees *)

(** The name convert_to_pinyin answers. *)
Definition pinyin_name (lazy_pinyin : ustring -> option (list ustring))
    (capitalize : ustring -> ustring) (text : ustring) : ustring :=
  match lazy_pinyin text with
  | Some pinyin_list => clean_name (concat (map capitalize pinyin_list))
  | None => clean_name text
  end.

(** A directory name no pass acts on: not one of FOLDERS_TO_REMOVE, no
    CJK character unless the pinyin pass skips the name, no numeric
    suffix, no underscore. *)
Definition settled_dir (lazy_pinyin : ustring -> option (list ustring))
    (capitalize : ustring -> ustring) (n : name) : bool :=
  negb (mem n FOLDERS_TO_REMOVE)
  && (negb (has_chinese n) || ueqb (pinyin_name lazy_pinyin capitalize n) [])
  && match pattern_search n with None => true | Some _ => false end
  && negb (contains 95 n).

(** A clip format normalization returns without writing: a name in
    [.wav], whatever the case, that soundfile reads, or a name in [.wav]
    written as pathlib writes it. *)
Definition passed_over (soundfile : container -> bool)
    (kept_by_pathlib : path -> bool) (p : path) (k : container) : bool :=
  (path_lower_endswith (str ".wav") p && soundfile k)
  || (ueqb (suffix (basename p)) (str ".wav") && kept_by_pathlib p).

(** A file no pass acts on: no underscore in its name and, if it has an
    audio extension, a single-channel 44100 Hz clip of one second or
    more that format normalization passes over. *)
Definition settled_file (soundfile : container -> bool)
    (kept_by_pathlib : path -> bool) (len_ms : Z -> Z -> Z)
    (p : path) (c : content) : bool :=
  negb (contains 95 (basename p))
  && if mem (lower (suffix (basename p))) AUDIO_EXTENSIONS
     then match c with
          | Sound k a =>
            (channels a =? 1)%Z && (frame_rate a =? 44100)%Z
            && (1000 <=? millis len_ms a)%Z
            && passed_over soundfile kept_by_pathlib p k
          | Blob _ => false
          end
     else true.

(** Every entry below [target] is settled. *)
Definition settled (soundfile : container -> bool)
    (kept_by_pathlib : path -> bool) (len_ms : Z -> Z -> Z)
    (lazy_pinyin : ustring -> option (list ustring))
    (capitalize : ustring -> ustring) (target : path) (d : fs) : bool :=
  forallb (fun e =>
    match strip_prefix target (fst e) with
    | Some (_ :: _) =>
      match snd e with
      | Dir => settled_dir lazy_pinyin capitalize (basename (fst e))
      | File c => settled_file soundfile kept_by_pathlib len_ms (fst e) c
      end
    | _ => true
    end) d.

(** *** What the deny-list pass leaves *)

(** A component of the path is one of FOLDERS_TO_REMOVE. *)
Definition denied (q : path) : bool :=
  existsb (fun n => mem n FOLDERS_TO_REMOVE) q.

(** The entry is, or lies in, a folder of FOLDERS_TO_REMOVE below
    [target]: of the components below [target] all name folders, but
    the last one of a file. *)
Definition to_remove (target : path) (e : path * entry) : bool :=
  match strip_prefix target (fst e) with
  | Some r => denied (match snd e with Dir => r | File _ => removelast r end)
  | None => false
  end.

(** The disk without the folders of FOLDERS_TO_REMOVE below [target]. *)
Definition without_denied (target : path) (d : fs) : fs :=
  filter (fun e => negb (to_remove target e)) d.

(** On disk [d], [m] returns normally and leaves the disk [d']. *)
Definition takes {A} (d : fs) (m : M A) (d' : fs) : Prop :=
  forall o, exists a o', m (mkWorld d o) = (Done a, mkWorld d' o').

(** On disk [d], [m] returns normally, leaves the disk as it is, and
    its value satisfies [Q]. *)
Definition quiet {A} (d : fs) (m : M A) (Q : A -> Prop) : Prop :=
  forall o, exists a o', m (mkWorld d o) = (Done a, mkWorld d o') /\ Q a.

(** The files the audio pass collects from a settled tree: each is a
    single-channel 44100 Hz clip of one second or more that format
    normalization passes over, to be processed in execute mode. *)
Definition sound_clip (soundfile : container -> bool)
    (kept_by_pathlib : path -> bool) (len_ms : Z -> Z -> Z)
    (d : fs) (args : path * bool) : Prop :=
  snd args = false
  /\ exists k a,
       lookup d (fst args) = Some (File (Sound k a))
       /\ channels a = 1%Z /\ frame_rate a = 44100%Z
       /\ (1000 <= millis len_ms a)%Z
       /\ passed_over soundfile kept_by_pathlib (fst args) k = true.

(** *** Relations the passes keep between the disk before and after *)

(** However [m] ends, the disk it leaves is related by [R] to the disk
    it found. *)
Definition keeps {A} (R : fs -> fs -> Prop) (m : M A) : Prop :=
  forall w, R (disk w) (disk (snd (m w))).

(** The same paths are directories. *)
Definition same_dirs (d d' : fs) : Prop :=
  forall q, isdir d' q = isdir d q.

(** Nothing changed outside the paths in [S]. *)
Definition same_outside (S : path -> Prop) (d d' : fs) : Prop :=
  forall q, ~ S q -> lookup d' q = lookup d q.

(** [m] never ends in an exception. *)
Definition no_raise {A} (m : M A) : Prop :=
  forall w e, fst (m w) <> Raised e.

(** On disk [d], [m] comes to an end, by returning or by raising, and
    leaves the disk as it is. *)
Definition runs_on {A} (d : fs) (m : M A) : Prop :=
  forall o, exists r o', m (mkWorld d o) = (r, mkWorld d o') /\ r <> OutOfFuel.

(** *** The names safe_rename tries *)

(** The value of a decimal numeral read from its last digit. *)
Fixpoint digits_value (reversed : ustring) : N :=
  match reversed with
  | [] => 0
  | c :: r => (c - 48) + 10 * digits_value r
  end.

(** [f"{name}_{counter}{ext}"] for the [name] and [ext] of [base_path]. *)
Definition candidate (base_path : path) (counter : N) : path :=
  let (name, ext) := splitext (basename base_path) in
  removelast base_path ++ [name ++ str "_" ++ decimal counter ++ ext].

(** The paths the work on [file_path] may write or remove: the file, its
    [.wav] sibling, and the [.lab] paths computed from the two. *)
Definition own_paths (file_path : path) (q : path) : Prop :=
  q = file_path
  \/ q = with_suffix file_path (str ".wav")
  \/ q = path_replace (str ".wav") (str ".lab") file_path
  \/ q = path_replace (str ".wav") (str ".lab")
           (with_suffix file_path (str ".wav")).

(** *** Texts inside texts, and pruned disks *)

(** [old in s] *)
Fixpoint has_substring (old s : ustring) : bool :=
  startswith old s
  || match s with
     | [] => false
     | _ :: r => has_substring old r
     end.

(** Every path of [d'] is as in [d], or is gone and has a component of
    FOLDERS_TO_REMOVE. *)
Definition pruned (d d' : fs) : Prop :=
  forall q, lookup d' q = lookup d q
            \/ (lookup d' q = None /\ denied q = true).

(** *** Small trees *)

Module Scenario.

Definition target : path := P ["data"].

(** A one-second-or-longer and a half-second single-channel clip. *)
Definition long_clip : audio := mkAudio 1 44100 88200.
Definition short_clip : audio := mkAudio 1 44100 22050.

Definition mp3_tree : fs :=
  [ ([], Dir); (target, Dir);
    (P ["data"; "a.mp3"], File (Sound MP3 long_clip)) ].

Definition upper_case_tree : fs :=
  [ ([], Dir); (target, Dir);
    (P ["data"; "clip.WAV"], File (Sound WAV short_clip));
    (P ["data"; "clip.lab"], File (Blob [104; 105])) ].

Definition dotted_folder_tree : fs :=
  [ ([], Dir); (target, Dir); (P ["data"; "take.wav"], Dir);
    (P ["data"; "take.wav"; "clip.wav"], File (Sound WAV short_clip));
    (P ["data"; "take.wav"; "clip.lab"], File (Blob [104; 105])) ].

Definition file_in_the_way : fs :=
  [ ([], Dir); (target, Dir);
    (P ["data"; "A"], File (Blob [1]));
    (P ["data"; "A_1"], Dir);
    (P ["data"; "A_1"; "x"], File (Blob [2])) ].

Definition same_name_both_sides : fs :=
  [ ([], Dir); (target, Dir);
    (P ["data"; "A"], Dir);
    (P ["data"; "A"; "x"], File (Blob [1]));
    (P ["data"; "A_1"], Dir);
    (P ["data"; "A_1"; "x"], File (Blob [2])) ].

Definition digits_with_clash : fs :=
  [ ([], Dir); (target, Dir);
    (P ["data"; "x"], File (Blob [1]));
    (P ["data"; "123"], Dir);
    (P ["data"; "123"; "x"], File (Blob [2])) ].

Definition two_folders : fs :=
  [ ([], Dir); (target, Dir);
    (P ["data"; "A"], Dir);
    (P ["data"; "A"; "x"], File (Blob [1]));
    (P ["data"; "A_1"], Dir);
    (P ["data"; "A_1"; "y"], File (Blob [2])) ].

Definition digits_folder : fs :=
  [ ([], Dir); (target, Dir);
    (P ["data"; "x"], File (Blob [1]));
    (P ["data"; "123"], Dir);
    (P ["data"; "123"; "y"], File (Blob [2])) ].

Definition two_suffixes : fs :=
  [ ([], Dir); (target, Dir); (P ["data"; "A_1_2"], Dir) ].

(** A corpus with a folder to remove, which holds a clip no pass would
    leave alone, and a speaker folder that every pass leaves alone: its
    name has no ASCII letter or digit, so the pinyin pass skips it. *)
Definition corpus : fs :=
  [ ([], Dir); (target, Dir);
    (P ["data"; "战斗语音 - Battle"], Dir);
    (P ["data"; "战斗语音 - Battle"; "hit_1.mp3"], File (Sound MP3 short_clip));
    (P ["data"; "派蒙"], Dir);
    (P ["data"; "派蒙"; "hello.wav"], File (Sound WAV long_clip));
    (P ["data"; "派蒙"; "hello.lab"], File (Blob [104; 105])) ].

Definition pipeline : M unit :=
  main soundfile_all spelled_plainly len_ms_nearest ratecv_floor pinyin_raises
      capitalize_ascii target false.

End Scenario.

(* ================================================================= *)
(** ** Properties of the text functions *)

Lemma ueqb_eq (s t : ustring) : ueqb s t = true <-> s = t.
Proof.
  revert t; induction s as [|c s IH]; intros [|d t]; simpl; split;
    try congruence; try reflexivity.
  - intros H. apply andb_true_iff in H as [Hc Hs].
    apply N.eqb_eq in Hc. apply IH in Hs. congruence.
  - intros H. injection H as -> ->.
    apply andb_true_iff. split; [apply N.eqb_refl | now apply IH].
Qed.

Lemma ueqb_refl (s : ustring) : ueqb s s = true.
Proof. now apply ueqb_eq. Qed.

Lemma ueqb_neq (s t : ustring) : ueqb s t = false <-> s <> t.
Proof.
  split.
  - intros H E. apply ueqb_eq in E. congruence.
  - intros H. destruct (ueqb s t) eqn:E; [|reflexivity].
    apply ueqb_eq in E. contradiction.
Qed.

(** Turn boolean comparisons on code points into arithmetic. *)
Ltac code_points :=
  unfold is_ascii_alnum, is_space, is_sep, in_range in *;
  repeat match goal with
  | H : _ && _ = true |- _ => apply andb_true_iff in H; destruct H
  | H : _ || _ = true |- _ => apply orb_true_iff in H; destruct H
  | H : _ && _ = false |- _ => apply andb_false_iff in H; destruct H
  | H : _ || _ = false |- _ => apply orb_false_iff in H; destruct H
  | H : (_ <=? _) = true |- _ => apply N.leb_le in H
  | H : (_ <=? _) = false |- _ => apply N.leb_gt in H
  | H : (_ =? _) = true |- _ => apply N.eqb_eq in H
  | H : (_ =? _) = false |- _ => apply N.eqb_neq in H
  end.

Lemma alnum_not_space (c : N) : is_ascii_alnum c = true -> is_space c = false.
Proof.
  intros H. destruct (is_space c) eqn:E; [|reflexivity].
  code_points; lia.
Qed.

Lemma blank_is_space : is_space 32 = true.
Proof. reflexivity. Qed.

Lemma blank_not_alnum : is_ascii_alnum 32 = false.
Proof. reflexivity. Qed.

Lemma split_ws_nonempty (s cur : ustring) : cur <> [] -> split_ws cur s <> [].
Proof.
  revert cur; induction s as [|c r IH]; intros cur Hc; simpl.
  - destruct cur; congruence.
  - destruct (is_space c).
    + destruct cur; congruence.
    + apply IH. destruct cur; discriminate.
Qed.

(** Every run that [split] returns is a non-empty run of kept characters
    that are not blank, hence alphanumeric. *)
Lemma split_ws_tokens (s cur : ustring) :
  Forall (fun c => is_ascii_alnum c || is_space c = true) s ->
  alnum_run cur ->
  Forall token (split_ws cur s).
Proof.
  revert cur; induction s as [|c r IH]; intros cur Hs Hc; simpl.
  - destruct cur as [|x cur']; constructor; [|constructor].
    split; [discriminate | exact Hc].
  - inversion Hs as [|? ? Hk Hr]; subst.
    destruct (is_space c) eqn:Esp.
    + destruct cur as [|x cur'].
      * apply IH; [exact Hr | constructor].
      * constructor.
        -- split; [discriminate | exact Hc].
        -- apply IH; [exact Hr | constructor].
    + apply IH; [exact Hr|].
      apply Forall_app. split; [exact Hc|].
      constructor; [|constructor].
      rewrite ?Esp, orb_false_r in Hk. exact Hk.
Qed.

Lemma clean_after_run (t r : ustring) :
  alnum_run t -> clean_after (t ++ r) = clean_after r.
Proof.
  induction 1 as [|c t Hc Ht IH]; simpl; [reflexivity|].
  now rewrite Hc.
Qed.

(** Tokens joined by single blanks read as a clean name. *)
Lemma join_tokens_clean (ts : list ustring) :
  Forall token ts -> ts <> [] ->
  exists d r, join (str " ") ts = d :: r
              /\ is_ascii_alnum d = true /\ clean_after (d :: r) = true.
Proof.
  induction 1 as [|t ts [Hne Hrun] Hts IH]; intros Hnil; [congruence|].
  destruct t as [|d t']; [congruence|].
  inversion Hrun as [|? ? Hd Ht']; subst.
  destruct ts as [|t2 ts'].
  - exists d, t'. simpl. repeat split; try assumption.
    rewrite Hd. rewrite <- (app_nil_r t'). now rewrite clean_after_run.
  - destruct IH as (d2 & r2 & Ej & Hd2 & Hc2); [discriminate|].
    exists d, (t' ++ str " " ++ join (str " ") (t2 :: ts')).
    split; [reflexivity|]. split; [exact Hd|].
    change (clean_after ((d :: t') ++ str " " ++ join (str " ") (t2 :: ts')) = true).
    rewrite clean_after_run by exact Hrun.
    rewrite Ej. simpl. simpl in Hc2. rewrite Hd2 in *. exact Hc2.
Qed.

Lemma clean_name_already_clean (s : ustring) :
  already_clean (clean_name s) = true.
Proof.
  unfold clean_name, split.
  set (kept := filter _ s).
  assert (Hk : Forall (fun c => is_ascii_alnum c || is_space c = true) kept).
  { apply Forall_forall. intros c Hc. apply filter_In in Hc. tauto. }
  pose proof (split_ws_tokens kept [] Hk (Forall_nil _)) as Ht.
  destruct (split_ws [] kept) as [|t ts] eqn:E; [reflexivity|].
  destruct (join_tokens_clean (t :: ts) Ht) as (d & r & Ej & Hd & Hc);
    [discriminate|].
  rewrite Ej. unfold already_clean. now rewrite Hd, Hc.
Qed.

Lemma clean_after_kept (s : ustring) :
  clean_after s = true ->
  filter (fun c => is_ascii_alnum c || is_space c) s = s.
Proof.
  induction s as [|c r IH]; simpl; [reflexivity|].
  destruct (is_ascii_alnum c) eqn:Ea; simpl.
  - intros H. now rewrite IH.
  - destruct (c =? 32) eqn:E32; [|discriminate].
    apply N.eqb_eq in E32; subst c. simpl.
    destruct r as [|d r']; [discriminate|].
    intros H. apply andb_true_iff in H as [_ H]. now rewrite IH.
Qed.

Lemma split_ws_cons (cur : ustring) (c : N) (r : ustring) :
  split_ws cur (c :: r)
  = if is_space c
    then match cur with
         | [] => split_ws [] r
         | _ => cur :: split_ws [] r
         end
    else split_ws (cur ++ [c]) r.
Proof. reflexivity. Qed.

(** Splitting a clean name and joining the runs with single blanks gives
    the name back; [cur] is the run being read. *)
Lemma join_split_clean (s cur : ustring) :
  (cur <> [] -> clean_after s = true) ->
  (cur = [] -> already_clean s = true) ->
  join (str " ") (split_ws cur s) = cur ++ s.
Proof.
  revert cur; induction s as [|c r IH]; intros cur Hne Hnil.
  - simpl. destruct cur; [reflexivity | now rewrite app_nil_r].
  - rewrite split_ws_cons. destruct (is_ascii_alnum c) eqn:Ea.
    + rewrite (alnum_not_space c Ea).
      rewrite IH.
      * now rewrite <- app_assoc.
      * intros _. destruct cur as [|x cur'].
        -- specialize (Hnil eq_refl). simpl in Hnil. now rewrite Ea in Hnil.
        -- specialize (Hne ltac:(discriminate)). simpl in Hne.
           now rewrite Ea in Hne.
      * intros E. destruct cur; discriminate.
    + destruct cur as [|x cur'].
      { specialize (Hnil eq_refl). simpl in Hnil. now rewrite Ea in Hnil. }
      specialize (Hne ltac:(discriminate)). simpl in Hne. rewrite Ea in Hne.
      destruct (c =? 32) eqn:E32; [|discriminate].
      apply N.eqb_eq in E32; subst c.
      destruct r as [|d r']; [discriminate|].
      apply andb_true_iff in Hne as [Hd Hr].
      rewrite blank_is_space.
      assert (Hrest : join (str " ") (split_ws [] (d :: r')) = d :: r').
      { apply (IH []); [congruence|].
        intros _. unfold already_clean. now rewrite Hd, Hr. }
      assert (Hsome : split_ws [] (d :: r') <> []).
      { simpl. rewrite (alnum_not_space d Hd). now apply split_ws_nonempty. }
      destruct (split_ws [] (d :: r')) as [|t ts] eqn:E; [congruence|].
      change (join (str " ") ((x :: cur') :: t :: ts))
        with ((x :: cur') ++ str " " ++ join (str " ") (t :: ts)).
      now rewrite Hrest.
Qed.

Lemma already_clean_fixed (s : ustring) :
  already_clean s = true -> clean_name s = s.
Proof.
  intros H. unfold clean_name, split.
  assert (Hf : filter (fun c => is_ascii_alnum c || is_space c) s = s).
  { destruct s as [|c r]; [reflexivity|].
    apply clean_after_kept. simpl in H.
    now apply andb_true_iff in H as [_ H]. }
  rewrite Hf. rewrite join_split_clean; [reflexivity | congruence | auto].
Qed.

(** C9.  The name sanitizer is idempotent: sanitizing a sanitized name
    changes nothing, and a name that is already clean (ASCII letters and
    digits, single blanks between tokens, none at the ends) is returned
    as it is. *)
Theorem clean_name_idempotent :
  (forall s, clean_name (clean_name s) = clean_name s)
  /\ (forall s, already_clean s = true -> clean_name s = s).
Proof.
  split.
  - intros s. apply already_clean_fixed, clean_name_already_clean.
  - exact already_clean_fixed.
Qed.

Lemma clean_name_idempotent_witness :
  already_clean (str "Zhan Dou 2") = true
  /\ clean_name (str "Zhan Dou 2") = str "Zhan Dou 2".
Proof.
  split; [reflexivity|].
  apply (proj2 clean_name_idempotent). reflexivity.
Defined.

(** *** The trailing numeric suffix *)

Lemma newline_not_digit : is_digit 10 = false.
Proof. reflexivity. Qed.

Lemma sep_not_digit (c : N) : is_sep c = true -> is_digit c = false.
Proof.
  intros H. code_points; subst c; reflexivity.
Qed.

Lemma digits_to_end_of_digits (s : ustring) :
  s <> [] -> forallb is_digit s = true -> digits_to_end s = true.
Proof.
  induction s as [|c r IH]; intros Hne H; [congruence|].
  simpl in *. apply andb_true_iff in H as [Hc Hr]. rewrite Hc. simpl.
  destruct r as [|d r']; [reflexivity|].
  rewrite IH; [reflexivity | discriminate | exact Hr].
Qed.

Lemma digits_to_end_inv (s : ustring) :
  digits_to_end s = true -> forallb is_digit s = true \/ last s 0 = 10.
Proof.
  induction s as [|c r IH]; intros H; [discriminate|].
  simpl in H. apply andb_true_iff in H as [Hc H].
  apply orb_true_iff in H as [H|H].
  - destruct (IH H) as [Hd|Hl].
    + left. simpl. now rewrite Hc, Hd.
    + right. destruct r; [discriminate|exact Hl].
  - destruct r as [|d [|e r']]; try discriminate.
    + left. simpl. now rewrite Hc.
    + right. simpl in *. now apply N.eqb_eq in H.
Qed.

Lemma numeric_suffix_nonempty (x : ustring) : numeric_suffix x = true -> x <> [].
Proof. destruct x; [discriminate | discriminate]. Qed.

Lemma numeric_suffix_last_digit (x : ustring) :
  numeric_suffix x = true -> is_digit (last x 0) = true.
Proof.
  assert (Hall : forall r, r <> [] -> forallb is_digit r = true ->
                           is_digit (last r 0) = true).
  { induction r as [|c r IH]; intros Hne H; [congruence|].
    simpl in H. apply andb_true_iff in H as [Hc Hr].
    destruct r as [|d r']; [exact Hc|].
    apply IH; [discriminate | exact Hr]. }
  destruct x as [|c r]; [discriminate|].
  unfold numeric_suffix. destruct (is_sep c) eqn:Es.
  - intros H. apply andb_true_iff in H as [Hne Hr].
    destruct r as [|d r']; [discriminate|].
    apply (Hall (d :: r')); [discriminate | exact Hr].
  - intros H. apply Hall; [discriminate | exact H].
Qed.

Lemma numeric_suffix_matches (x : ustring) :
  numeric_suffix x = true -> match_here x = true.
Proof.
  destruct x as [|c r]; [discriminate|].
  unfold numeric_suffix, match_here. destruct (is_sep c) eqn:Es.
  - intros H. apply andb_true_iff in H as [Hne Hr].
    rewrite digits_to_end_of_digits; [reflexivity| |exact Hr].
    intros ->. discriminate.
  - intros H. rewrite (digits_to_end_of_digits (c :: r));
      [apply orb_true_r | discriminate | exact H].
Qed.

(** A match that does not stop before a final newline is an instance of
    the pattern as the specification words it. *)
Lemma match_here_inv (s : ustring) :
  match_here s = true -> numeric_suffix s = true \/ last s 0 = 10.
Proof.
  destruct s as [|c r]; [discriminate|].
  unfold match_here. intros H. apply orb_true_iff in H as [H|H].
  - apply andb_true_iff in H as [Hs Hd].
    destruct (digits_to_end_inv r Hd) as [Hall|Hl].
    + left. unfold numeric_suffix. rewrite Hs, Hall.
      destruct r; [discriminate|reflexivity].
    + right. destruct r; [discriminate|exact Hl].
  - destruct (digits_to_end_inv (c :: r) H) as [Hall|Hl]; [|now right].
    left. unfold numeric_suffix.
    destruct (is_sep c) eqn:Es; [|exact Hall].
    simpl in Hall. rewrite (sep_not_digit c Es) in Hall. discriminate.
Qed.

(** [search_from] returns the least offset at which the pattern matches. *)
Lemma search_from_least (s : ustring) (i k : nat) :
  match_here (skipn k s) = true ->
  exists j, search_from i s = Some (i + j)%nat /\ (j <= k)%nat
            /\ match_here (skipn j s) = true.
Proof.
  revert i k; induction s as [|c r IH]; intros i k Hk.
  - rewrite skipn_nil in Hk. discriminate.
  - cbn [search_from]. destruct (match_here (c :: r)) eqn:E.
    + exists O. rewrite Nat.add_0_r. repeat split; [lia | exact E].
    + destruct k as [|k']; [cbn [skipn] in Hk; congruence|].
      cbn [skipn] in Hk. destruct (IH (S i) k' Hk) as (j & Hs & Hle & Hm).
      exists (S j). rewrite Nat.add_succ_r. repeat split; [exact Hs | lia | exact Hm].
Qed.

Lemma last_app_r {A} (l x : list A) (d : A) :
  x <> [] -> last (l ++ x) d = last x d.
Proof.
  intros Hx. induction l as [|a l IH]; [reflexivity|].
  simpl. destruct (l ++ x) eqn:E; [|exact IH].
  apply app_eq_nil in E as [_ E]. contradiction.
Qed.

Lemma last_skipn_app (b x : ustring) (j : nat) :
  (j <= length b)%nat -> x <> [] -> last (skipn j (b ++ x)) 0 = last x 0.
Proof.
  intros Hj Hx. rewrite skipn_app.
  replace (j - length b)%nat with O by lia. simpl.
  now apply last_app_r.
Qed.

(** C5.  For every directory name that ends in the numeric-variant
    pattern (an optional [_] or [-], then one or more digits, at the very
    end), the base name the suffix-removal pass computes is the name with
    one such suffix cut off its end and no other character changed; the
    suffix cut is the longest one, so it takes the whole digit run and
    the separator before it. *)
Theorem stripped_name_removes_suffix (dir_name b x : ustring) :
  dir_name = b ++ x ->
  numeric_suffix x = true ->
  exists base removed,
    stripped_name dir_name = Some base
    /\ dir_name = base ++ removed
    /\ numeric_suffix removed = true
    /\ (length base <= length b)%nat.
Proof.
  intros -> Hx.
  assert (Hm : match_here (skipn (length b) (b ++ x)) = true).
  { rewrite skipn_app, skipn_all, Nat.sub_diag. simpl.
    now apply numeric_suffix_matches. }
  destruct (search_from_least (b ++ x) O (length b) Hm) as (j & Hs & Hle & Hj).
  exists (firstn j (b ++ x)), (skipn j (b ++ x)).
  unfold stripped_name, pattern_search. rewrite Hs. simpl.
  split; [reflexivity|]. split; [now rewrite firstn_skipn|]. split.
  - destruct (match_here_inv _ Hj) as [Hn|Hl]; [exact Hn|].
    rewrite last_skipn_app in Hl
      by (try exact Hle; now apply numeric_suffix_nonempty).
    pose proof (numeric_suffix_last_digit x Hx) as Hd.
    rewrite Hl, newline_not_digit in Hd. discriminate.
  - rewrite length_firstn. lia.
Qed.

Lemma stripped_name_removes_suffix_witness :
  exists base removed,
    stripped_name (str "Paimon_12") = Some base
    /\ str "Paimon_12" = base ++ removed
    /\ numeric_suffix removed = true
    /\ (length base <= length (str "Paimon_1"))%nat.
Proof.
  apply (stripped_name_removes_suffix (str "Paimon_12") (str "Paimon_1") (str "2"));
    reflexivity.
Defined.

(** A name made of digits only is matched from its first character: the
    computed base name is empty. *)
Lemma stripped_name_all_digits (dir_name : ustring) :
  dir_name <> [] -> forallb is_digit dir_name = true ->
  pattern_search dir_name = Some O.
Proof.
  intros Hne Hd. unfold pattern_search.
  destruct dir_name as [|c r]; [congruence|].
  cbn [search_from].
  assert (Hm : match_here (c :: r) = true).
  { apply numeric_suffix_matches. unfold numeric_suffix.
    destruct (is_sep c) eqn:Es; [|exact Hd].
    simpl in Hd. rewrite (sep_not_digit c Es) in Hd. discriminate. }
  now rewrite Hm.
Qed.

(* ================================================================= *)
(** ** Preview mode *)

Lemma preserves_ret {A} (a : A) : preserves_disk (ret a).
Proof. intros w. reflexivity. Qed.

Lemma preserves_raise {A} (e : exn) : preserves_disk (@raise A e).
Proof. intros w. reflexivity. Qed.

Lemma preserves_out_of_fuel {A} : preserves_disk (@out_of_fuel A).
Proof. intros w. reflexivity. Qed.

Lemma preserves_print (m : msg) : preserves_disk (print m).
Proof. intros w. reflexivity. Qed.

Lemma preserves_get_disk : preserves_disk get_disk.
Proof. intros w. reflexivity. Qed.

Lemma preserves_bind {A B} (m : M A) (k : A -> M B) :
  preserves_disk m -> (forall a, preserves_disk (k a)) ->
  preserves_disk (bind m k).
Proof.
  intros Hm Hk w. unfold bind. specialize (Hm w).
  destruct (m w) as [[a| |] w']; simpl in *; try exact Hm.
  now rewrite Hk.
Qed.

Lemma preserves_try_except {A} (m : M A) (h : exn -> M A) :
  preserves_disk m -> (forall e, preserves_disk (h e)) ->
  preserves_disk (try_except m h).
Proof.
  intros Hm Hh w. unfold try_except. specialize (Hm w).
  destruct (m w) as [[a|e|] w']; simpl in *; try exact Hm.
  now rewrite Hh.
Qed.

Lemma preserves_for_each {A St} (xs : list A) (f : A -> St -> M St) (s : St) :
  (forall x s, preserves_disk (f x s)) -> preserves_disk (for_each xs f s).
Proof.
  intros Hf. revert s. induction xs as [|x xs IH]; intros s; simpl.
  - apply preserves_ret.
  - apply preserves_bind; [apply Hf | apply IH].
Qed.

Lemma preserves_for_each_in {A St} (xs : list A) (f : A -> St -> M St) (s : St) :
  (forall x s, In x xs -> preserves_disk (f x s)) ->
  preserves_disk (for_each xs f s).
Proof.
  revert s. induction xs as [|x xs IH]; intros s Hf; simpl.
  - apply preserves_ret.
  - apply preserves_bind; [apply Hf; now left|].
    intros s'. apply IH. intros y s2 Hy. apply Hf. now right.
Qed.

Lemma preserves_for_ {A} (xs : list A) (f : A -> M unit) :
  (forall x, preserves_disk (f x)) -> preserves_disk (for_ xs f).
Proof. intros Hf. apply preserves_for_each. intros x _. apply Hf. Qed.

Lemma preserves_os_walk {St} (fuel : nat) (topdown : bool) (top : path)
    (body : path -> list name -> list name -> St -> M St) (s : St) :
  (forall root dirs files s, preserves_disk (body root dirs files s)) ->
  preserves_disk (os_walk fuel topdown top body s).
Proof.
  intros Hb. revert top s. induction fuel as [|f IH]; intros top s.
  - simpl. apply preserves_bind; [apply preserves_get_disk|].
    intros d. destruct (scandir d top) as [[dirs files]|];
      [apply preserves_out_of_fuel | apply preserves_ret].
  - simpl. apply preserves_bind; [apply preserves_get_disk|].
    intros d. destruct (scandir d top) as [[dirs files]|];
      [|apply preserves_ret].
    destruct topdown; apply preserves_bind;
      try apply Hb; try (apply preserves_for_each; intros; apply IH);
      intros; try apply Hb; apply preserves_for_each; intros; apply IH.
Qed.

Lemma preserves_walk {St} (topdown : bool) (top : path)
    (body : path -> list name -> list name -> St -> M St) (s : St) :
  (forall root dirs files s, preserves_disk (body root dirs files s)) ->
  preserves_disk (walk topdown top body s).
Proof.
  intros Hb. unfold walk. apply preserves_bind; [apply preserves_get_disk|].
  intros d. now apply preserves_os_walk.
Qed.

Lemma preserves_os_path_exists (p : path) : preserves_disk (os_path_exists p).
Proof. intros w. reflexivity. Qed.

Lemma preserves_open_rb (p : path) : preserves_disk (open_rb p).
Proof.
  intros w. unfold open_rb, bind, get_disk.
  destruct (lookup (disk w) p) as [[c|]|]; reflexivity.
Qed.

Lemma preserves_from_file (p : path) : preserves_disk (AudioSegment_from_file p).
Proof.
  unfold AudioSegment_from_file. apply preserves_bind; [apply preserves_open_rb|].
  intros [k a|b]; [apply preserves_ret | apply preserves_raise].
Qed.

Lemma preserves_sf_read sf (p : path) : preserves_disk (sf_read sf p).
Proof.
  intros w. unfold sf_read, bind, get_disk.
  destruct (lookup (disk w) p) as [[[k a|b]|]|]; try reflexivity.
  destruct (sf k); reflexivity.
Qed.

Create HintDb frame.
#[local] Hint Resolve preserves_ret preserves_raise preserves_out_of_fuel
  preserves_print preserves_get_disk preserves_os_path_exists
  preserves_open_rb preserves_from_file preserves_sf_read : frame.

(** Walk through a computation that only reads and prints. *)
Ltac frame :=
  repeat (intros; first
    [ solve [auto with frame]
    | match goal with
      | |- preserves_disk (if true then ?a else _) => change (preserves_disk a)
      | |- preserves_disk (bind _ _) => apply preserves_bind
      | |- preserves_disk (try_except _ _) => apply preserves_try_except
      | |- preserves_disk (for_each _ _ _) => apply preserves_for_each
      | |- preserves_disk (for_ _ _) => apply preserves_for_
      | |- preserves_disk (walk _ _ _ _) => apply preserves_walk
      | |- preserves_disk (if ?b then _ else _) => destruct b
      | |- preserves_disk (match ?x with _ => _ end) => destruct x
      end ]).

Lemma returns_ret {A} (a : A) (Q : A -> Prop) : Q a -> returns (ret a) Q.
Proof. intros H w a' w' E. inversion E; subst. exact H. Qed.

Lemma returns_bind {A B} (m : M A) (k : A -> M B) (Q : A -> Prop) (R : B -> Prop) :
  returns m Q -> (forall a, Q a -> returns (k a) R) -> returns (bind m k) R.
Proof.
  intros Hm Hk w b w' E. unfold bind in E.
  destruct (m w) as [[a| |] w1] eqn:Em; try discriminate.
  eapply Hk; [eapply Hm; exact Em | exact E].
Qed.

Lemma returns_for_each {A St} (xs : list A) (f : A -> St -> M St) (s : St)
    (I : St -> Prop) :
  (forall x s, I s -> returns (f x s) I) -> I s -> returns (for_each xs f s) I.
Proof.
  intros Hf. revert s. induction xs as [|x xs IH]; intros s Hs; simpl.
  - now apply returns_ret.
  - eapply returns_bind; [apply Hf, Hs | intros s' Hs'; now apply IH].
Qed.

Lemma returns_os_walk {St} (fuel : nat) (topdown : bool) (top : path)
    (body : path -> list name -> list name -> St -> M St) (s : St)
    (I : St -> Prop) :
  (forall root dirs files s, I s -> returns (body root dirs files s) I) ->
  I s -> returns (os_walk fuel topdown top body s) I.
Proof.
  intros Hb. revert top s. induction fuel as [|f IH]; intros top s Hs.
  - simpl. eapply returns_bind with (Q := fun _ => True); [easy|].
    intros d _. destruct (scandir d top) as [[dirs files]|].
    + intros w a w' E. discriminate.
    + now apply returns_ret.
  - simpl. eapply returns_bind with (Q := fun _ => True); [easy|].
    intros d _. destruct (scandir d top) as [[dirs files]|];
      [|now apply returns_ret].
    destruct topdown.
    + eapply returns_bind; [apply Hb, Hs|].
      intros s1 Hs1. apply returns_for_each; [|exact Hs1].
      intros x s2 Hs2. now apply IH.
    + eapply returns_bind; [|intros s1 Hs1; apply Hb, Hs1].
      apply returns_for_each; [|exact Hs].
      intros x s2 Hs2. now apply IH.
Qed.

Lemma returns_walk {St} (topdown : bool) (top : path)
    (body : path -> list name -> list name -> St -> M St) (s : St)
    (I : St -> Prop) :
  (forall root dirs files s, I s -> returns (body root dirs files s) I) ->
  I s -> returns (walk topdown top body s) I.
Proof.
  intros Hb Hs. unfold walk.
  eapply returns_bind with (Q := fun _ => True); [easy|].
  intros d _. now apply returns_os_walk.
Qed.

Lemma preserves_bind_returns {A B} (m : M A) (k : A -> M B) (Q : A -> Prop) :
  preserves_disk m -> returns m Q -> (forall a, Q a -> preserves_disk (k a)) ->
  preserves_disk (bind m k).
Proof.
  intros Hm Hr Hk w. unfold bind. specialize (Hm w).
  destruct (m w) as [[a| |] w'] eqn:E; simpl in *; try exact Hm.
  rewrite Hk; [exact Hm | eapply Hr; exact E].
Qed.

Section Preview.

Variable soundfile : container -> bool.
Variable kept_by_pathlib : path -> bool.
Variable len_ms : Z -> Z -> Z.
Variable ratecv : audio -> Z -> Z.
Variable lazy_pinyin : ustring -> option (list ustring).
Variable capitalize : ustring -> ustring.

Lemma preview_get_audio_duration (p : path) :
  preserves_disk (get_audio_duration len_ms p).
Proof. unfold get_audio_duration. frame. Qed.

Lemma preview_convert_audio_format (p : path) :
  preserves_disk (convert_audio_format soundfile kept_by_pathlib ratecv p true).
Proof.
  unfold convert_audio_format, convert_wav_with_soundfile, convert_with_pydub.
  frame.
Qed.

Lemma preview_process_audio_file (p : path) :
  preserves_disk (process_audio_file soundfile kept_by_pathlib len_ms ratecv (p,
      true)).
Proof.
  unfold process_audio_file.
  apply preserves_bind; [apply preview_convert_audio_format|].
  intros r. apply preserves_bind; [apply preview_get_audio_duration|].
  frame.
Qed.

Lemma collected_files_flagged (target : path) (dry_run : bool) :
  returns
    (walk true target
       (fun root (_ : list name) files audio_files =>
          for_each files
            (fun file audio_files =>
               if mem (lower (suffix file)) AUDIO_EXTENSIONS
               then ret (audio_files ++ [(os_path_join root file, dry_run)])
               else ret audio_files)
            audio_files)
       [])
    (flagged dry_run).
Proof.
  apply returns_walk; [|constructor].
  intros root dirs files s Hs. apply returns_for_each; [|exact Hs].
  intros file s' Hs'. destruct (mem _ _); apply returns_ret; [|exact Hs'].
  apply Forall_app. split; [exact Hs'|]. now constructor.
Qed.

Lemma preview_remove_short_audio_files (target : path) :
  preserves_disk (remove_short_audio_files soundfile kept_by_pathlib len_ms
      ratecv target true).
Proof.
  unfold remove_short_audio_files.
  apply preserves_bind; [frame|]. intros _.
  eapply preserves_bind_returns;
    [frame | apply collected_files_flagged|].
  intros audio_files Hflag.
  assert (H : preserves_disk
    (for_each audio_files
       (fun args results =>
          r <- process_audio_file soundfile kept_by_pathlib len_ms ratecv args
              ;; ret (results ++ [r])) [])).
  { apply preserves_for_each_in. intros [p flag] results Hin.
    apply (proj1 (Forall_forall _ _) Hflag) in Hin. simpl in Hin. subst flag.
    apply preserves_bind; [apply preview_process_audio_file | frame]. }
  destruct audio_files; frame.
Qed.

Lemma preview_safe_remove_folder (p : path) :
  preserves_disk (safe_remove_folder p true).
Proof. unfold safe_remove_folder. frame. Qed.

Lemma preview_remove_specific_folders (target : path) :
  preserves_disk (remove_specific_folders target true).
Proof.
  unfold remove_specific_folders.
  pose proof preview_safe_remove_folder. frame.
Qed.

Lemma preview_convert_to_pinyin (text : ustring) :
  preserves_disk (convert_to_pinyin lazy_pinyin capitalize text).
Proof. unfold convert_to_pinyin. frame. Qed.

Lemma preview_rename_folders_to_pinyin (target : path) :
  preserves_disk
    (rename_folders_to_pinyin soundfile kept_by_pathlib len_ms ratecv
        lazy_pinyin capitalize target true).
Proof.
  unfold rename_folders_to_pinyin.
  pose proof preview_remove_specific_folders.
  pose proof preview_remove_short_audio_files.
  pose proof preview_convert_to_pinyin.
  frame.
Qed.

Lemma preview_strip_folder_suffix (root : path) (dir_name : name) :
  preserves_disk (strip_folder_suffix root dir_name true).
Proof. unfold strip_folder_suffix. frame. Qed.

Lemma preview_rename_speaker_folders (target : path) :
  preserves_disk (rename_speaker_folders target true).
Proof.
  unfold rename_speaker_folders.
  pose proof preview_strip_folder_suffix. frame.
Qed.

Lemma preview_rename_files_underscore_to_dash (target : path) :
  preserves_disk (rename_files_underscore_to_dash target true).
Proof. unfold rename_files_underscore_to_dash. frame. Qed.

Lemma preview_main (target : path) :
  preserves_disk (main soundfile kept_by_pathlib len_ms ratecv lazy_pinyin
      capitalize target true).
Proof.
  unfold main.
  pose proof preview_rename_folders_to_pinyin.
  pose proof preview_rename_speaker_folders.
  pose proof preview_rename_files_underscore_to_dash.
  frame.
Qed.


End Preview.

(* ================================================================= *)
(** ** Paths and the disk *)

Lemma peqb_eq (p q : path) : peqb p q = true <-> p = q.
Proof.
  revert q; induction p as [|a p IH]; intros [|b q]; simpl; split;
    try congruence; try reflexivity.
  - intros H. apply andb_true_iff in H as [Ha Hp].
    apply ueqb_eq in Ha. apply IH in Hp. congruence.
  - intros H. injection H as -> ->.
    apply andb_true_iff. split; [apply ueqb_refl | now apply IH].
Qed.

Lemma peqb_refl (p : path) : peqb p p = true.
Proof. now apply peqb_eq. Qed.

Lemma peqb_neq (p q : path) : peqb p q = false <-> p <> q.
Proof.
  split.
  - intros H E. apply peqb_eq in E. congruence.
  - intros H. destruct (peqb p q) eqn:E; [|reflexivity].
    apply peqb_eq in E. contradiction.
Qed.

Lemma strip_prefix_Some (p q r : path) :
  strip_prefix p q = Some r <-> q = p ++ r.
Proof.
  revert q; induction p as [|a p IH]; intros q; simpl.
  - split; congruence.
  - destruct q as [|b q]; [split; discriminate|].
    destruct (ueqb a b) eqn:E.
    + apply ueqb_eq in E. subst b. rewrite IH. split; congruence.
    + apply ueqb_neq in E. split; [discriminate | congruence].
Qed.

Lemma strip_prefix_app (p r : path) : strip_prefix p (p ++ r) = Some r.
Proof. now apply strip_prefix_Some. Qed.

Lemma strip_prefix_None (p q : path) :
  strip_prefix p q = None <-> forall r, q <> p ++ r.
Proof.
  split.
  - intros H r E. apply strip_prefix_Some in E. congruence.
  - intros H. destruct (strip_prefix p q) as [r|] eqn:E; [|reflexivity].
    apply strip_prefix_Some in E. now apply H in E.
Qed.

Lemma on_basename_same (f : name -> name) (p : path) :
  p <> [] -> f (basename p) = basename p -> on_basename f p = p.
Proof.
  intros Hp Hf. unfold on_basename. rewrite Hf.
  symmetry. now apply app_removelast_last.
Qed.

Lemma suffix_is_tail (n x : name) :
  suffix n = x -> x <> [] ->
  exists i, skipn i n = x /\ (i + length x = length n)%nat.
Proof.
  unfold suffix. intros H Hx.
  destruct (rfind_dot n) as [i|]; [|congruence].
  destruct ((0 <? i)%nat && (i <? length n - 1)%nat) eqn:E; [|congruence].
  apply andb_true_iff in E as [_ E]. apply Nat.ltb_lt in E.
  exists i. split; [exact H|]. rewrite <- H, length_skipn. lia.
Qed.

Lemma with_suffix_same (p : path) (x : name) :
  suffix (basename p) = x -> x <> [] -> with_suffix p x = p.
Proof.
  intros H Hx. unfold with_suffix.
  assert (Hp : p <> []).
  { intros ->. simpl in H. unfold suffix in H. simpl in H. congruence. }
  apply on_basename_same; [exact Hp|].
  destruct (suffix_is_tail _ _ H Hx) as (i & Hs & Hl).
  rewrite H. destruct x as [|c x']; [congruence|].
  replace (length (basename p) - length (c :: x'))%nat with i by lia.
  rewrite <- Hs. apply firstn_skipn.
Qed.

Lemma wav_suffix_endswith (p : path) :
  suffix (basename p) = str ".wav" ->
  path_lower_endswith (str ".wav") p = true.
Proof.
  intros H. unfold path_lower_endswith.
  destruct p as [|a p']; [discriminate|].
  destruct (suffix_is_tail _ _ H ltac:(discriminate)) as (i & Hs & Hl).
  set (n := basename (a :: p')) in *.
  unfold endswith, lower. rewrite length_map.
  apply andb_true_iff. split.
  - apply Nat.leb_le. lia.
  - rewrite skipn_map.
    replace (length n - length (str ".wav"))%nat with i by lia.
    rewrite Hs. reflexivity.
Qed.

Lemma lookup_cons (k : path) (e : entry) (d : fs) (p : path) :
  lookup ((k, e) :: d) p = if peqb k p then Some e else lookup d p.
Proof. unfold lookup. simpl. now destruct (peqb k p). Qed.

Lemma lookup_nil (p : path) : lookup [] p = None.
Proof. reflexivity. Qed.

Lemma lookup_remove_path (d : fs) (q p : path) :
  lookup (remove_path d q) p = if peqb p q then None else lookup d p.
Proof.
  induction d as [|[k e] d IH].
  - simpl. rewrite lookup_nil. now destruct (peqb p q).
  - unfold remove_path in *. simpl. destruct (peqb k q) eqn:Ekq; simpl.
    + rewrite IH, lookup_cons. apply peqb_eq in Ekq. subst k.
      destruct (peqb p q) eqn:Epq; [reflexivity|].
      destruct (peqb q p) eqn:Eqp; [|reflexivity].
      apply peqb_eq in Eqp. subst. rewrite peqb_refl in Epq. discriminate.
    + rewrite !lookup_cons, IH.
      destruct (peqb k p) eqn:Ekp; [|reflexivity].
      apply peqb_eq in Ekp. subst k. now rewrite Ekq.
Qed.

Lemma lookup_exists (d : fs) (p : path) (e : entry) :
  lookup d p = Some e -> exists_ d p = true.
Proof. unfold exists_. now intros ->. Qed.

(* ================================================================= *)
(** ** The audio pass, file by file *)

#[local] Arguments str : simpl never.
#[local] Arguments lookup : simpl never.
#[local] Arguments exists_ : simpl never.
#[local] Arguments isdir : simpl never.
#[local] Arguments peqb : simpl never.
#[local] Arguments suffix : simpl never.
#[local] Arguments with_suffix : simpl never.
#[local] Arguments basename : simpl never.
#[local] Arguments path_replace : simpl never.
#[local] Arguments path_lower_endswith : simpl never.
#[local] Arguments remove_path : simpl never.
#[local] Arguments remove_tree : simpl never.
#[local] Arguments move_tree : simpl never.
#[local] Arguments os_path_join : simpl never.
#[local] Arguments listdir : simpl never.

Section AudioPass.

Variable soundfile : container -> bool.
Variable kept_by_pathlib : path -> bool.
Variable len_ms : Z -> Z -> Z.
Variable ratecv : audio -> Z -> Z.

(** Format normalization writes nothing for a single-channel 44100 Hz
    file that it passes over, in either mode. *)
Lemma convert_passes_over (w : world) (p : path) (k : container) (a : audio)
    (dry_run : bool) :
  lookup (disk w) p = Some (File (Sound k a)) ->
  channels a = 1%Z -> frame_rate a = 44100%Z ->
  passed_over soundfile kept_by_pathlib p k = true ->
  exists o, convert_audio_format soundfile kept_by_pathlib ratecv p dry_run w
            = (Done (p, false), mkWorld (disk w) o).
Proof.
  intros Hl Hc Hr Hp. destruct w as [d o]. cbn in Hl.
  unfold convert_audio_format, try_except, bind, os_path_exists, get_disk, ret.
  cbn. rewrite (lookup_exists _ _ _ Hl). cbn.
  assert (Hpydub : suffix (basename p) = str ".wav" ->
                   kept_by_pathlib p = true ->
    exists o1, forall o0,
      convert_with_pydub kept_by_pathlib ratecv p dry_run (mkWorld d o0)
      = (Done (p, false), mkWorld d (o0 ++ o1))).
  { intros Hs Hk. exists []. intros o0.
    unfold convert_with_pydub, AudioSegment_from_file, open_rb, bind,
      get_disk, ret. cbn. rewrite Hl. cbn.
    repeat progress (rewrite ?Hc, ?Hr; cbn).
    rewrite (with_suffix_same p (str ".wav") Hs ltac:(discriminate)).
    rewrite peqb_refl, Hk, app_nil_r. reflexivity. }
  unfold passed_over in Hp.
  destruct (path_lower_endswith (str ".wav") p) eqn:Ew.
  - unfold convert_wav_with_soundfile, sf_read, bind, get_disk, raise, print, ret.
    cbn. rewrite Hl. destruct (soundfile k).
    + cbn. rewrite Hc, Hr. cbn. eexists. reflexivity.
    + cbn in Hp. apply andb_true_iff in Hp as [Hs Hk]. apply ueqb_eq in Hs.
      destruct (Hpydub Hs Hk) as [o1 E]. cbn. rewrite E. eexists. reflexivity.
  - cbn in Hp. apply andb_true_iff in Hp as [Hs Hk]. apply ueqb_eq in Hs.
    rewrite (wav_suffix_endswith p Hs) in Ew. discriminate.
Qed.

(** C2, as the code has it.  A single-channel 44100 Hz file is not
    written by format normalization, in either mode, when its name ends
    in [.wav], whatever the case, and soundfile reads it, or when its
    name ends in [.wav] and its path is held as pathlib writes it: the
    disk is unchanged, so the file keeps its bytes, its path and its
    container. *)
Theorem mono_wav_left_untouched (w : world) (p : path) (k : container)
    (a : audio) (dry_run : bool) :
  lookup (disk w) p = Some (File (Sound k a)) ->
  channels a = 1%Z -> frame_rate a = 44100%Z ->
  passed_over soundfile kept_by_pathlib p k = true ->
  fst (convert_audio_format soundfile kept_by_pathlib ratecv p dry_run w)
  = Done (p, false)
  /\ disk (snd (convert_audio_format soundfile kept_by_pathlib ratecv p dry_run
      w))
     = disk w.
Proof.
  intros Hl Hc Hr Hp.
  destruct (convert_passes_over w p k a dry_run Hl Hc Hr Hp) as [o E].
  rewrite E. split; reflexivity.
Qed.

(** C1, on the code.  A file that no codec decodes is logged by the
    duration probe, and then deleted in execute mode: the probe answers
    [0.0] for it, which is below the one-second threshold. *)
Theorem undecodable_file_is_deleted (w : world) (p : path) (b : list N) :
  lookup (disk w) p = Some (File (Blob b)) ->
  fst (process_audio_file soundfile kept_by_pathlib len_ms ratecv (p, false) w)
      = Done (p, true)
  /\ lookup (disk (snd (process_audio_file soundfile kept_by_pathlib len_ms
      ratecv (p, false) w))) p = None
  /\ In (ErrorDuration p CouldntDecodeError)
        (out (snd (process_audio_file soundfile kept_by_pathlib len_ms ratecv
            (p, false) w))).
Proof.
  intros Hl. destruct w as [d o]. cbn in Hl.
  assert (Hconv : exists o1,
    convert_audio_format soundfile kept_by_pathlib ratecv p false (mkWorld d o)
    = (Done (p, false), mkWorld d o1)).
  { unfold convert_audio_format, try_except, bind, os_path_exists, get_disk, ret.
    cbn. rewrite (lookup_exists _ _ _ Hl). cbn.
    destruct (path_lower_endswith (str ".wav") p).
    - unfold convert_wav_with_soundfile, sf_read, bind, get_disk, raise, print.
      cbn. rewrite Hl. cbn.
      unfold convert_with_pydub, AudioSegment_from_file, open_rb, bind,
        get_disk, raise. cbn. rewrite Hl. cbn. eexists. reflexivity.
    - cbn. unfold convert_with_pydub, AudioSegment_from_file, open_rb, bind,
        get_disk, raise. cbn. rewrite Hl. cbn. eexists. reflexivity. }
  destruct Hconv as [o1 Hconv].
  unfold process_audio_file, bind. rewrite Hconv. cbn.
  unfold get_audio_duration, try_except, AudioSegment_from_file, open_rb, bind,
    get_disk, raise, print, ret. cbn. rewrite Hl. cbn.
  unfold os_remove, bind, get_disk, set_disk, raise. cbn. rewrite Hl. cbn.
  set (q := path_replace (str ".wav") (str ".lab") p).
  destruct (lookup (remove_path d p) q) as [[c|]|]; cbn;
    repeat split;
    try (rewrite ?lookup_remove_path, ?peqb_refl;
         now destruct (peqb p q));
    rewrite !in_app_iff; simpl; tauto.
Qed.

End AudioPass.

Lemma undecodable_file_is_deleted_witness :
  let w := mkWorld [ ([], Dir); (P ["data"], Dir);
                     (P ["data"; "line.wav"], File (Blob [0])) ] [] in
  let p := P ["data"; "line.wav"] in
  lookup (disk w) p = Some (File (Blob [0]))
  /\ lookup (disk (snd (process_audio_file soundfile_all spelled_plainly
      len_ms_nearest ratecv_floor (p, false) w))) p = None.
Proof.
  intros w p. split; [reflexivity|].
  apply (undecodable_file_is_deleted soundfile_all spelled_plainly
           len_ms_nearest ratecv_floor w p [0]). reflexivity.
Defined.


(* ================================================================= *)
(** ** The program run on small trees *)


(** C2, counterexample.  A single-channel 44100 Hz MP3 file is not left
    alone by format normalization: it is exported as [a.wav] and the
    original is removed. *)
Lemma mono_mp3_is_reencoded :
  disk_after
    (convert_audio_format soundfile_all spelled_plainly ratecv_floor (P ["data";
        "a.mp3"]) false)
    Scenario.mp3_tree
  = [ ([], Dir); (Scenario.target, Dir);
      (P ["data"; "a.wav"], File (Sound WAV Scenario.long_clip)) ].
Proof. vm_compute. reflexivity. Qed.

(** Under a target typed [./data], a single-channel 44100 Hz [.wav]
    file that soundfile does not read is exported onto itself and then
    removed: the string compared with pathlib's is not the same. *)
Lemma mono_wav_lost_under_dotted_target :
  disk_after
    (convert_audio_format soundfile_missing spelled_with_dot ratecv_floor
       (P ["data"; "a.wav"]) false)
    [ ([], Dir); (Scenario.target, Dir);
      (P ["data"; "a.wav"], File (Sound WAV Scenario.long_clip)) ]
  = [ ([], Dir); (Scenario.target, Dir) ].
Proof. vm_compute. reflexivity. Qed.

Lemma mono_wav_left_untouched_witness :
  let w := mkWorld [ ([], Dir); (Scenario.target, Dir);
                     (P ["data"; "a.wav"], File (Sound WAV Scenario.long_clip));
                     (P ["data"; "b.WAV"], File (Sound WAV Scenario.long_clip)) ]
                   [] in
  disk (snd (convert_audio_format soundfile_missing spelled_plainly ratecv_floor
               (P ["data"; "a.wav"]) false w))
  = disk w
  /\ disk (snd (convert_audio_format soundfile_all spelled_with_dot ratecv_floor
                  (P ["data"; "b.WAV"]) false w))
     = disk w.
Proof.
  intros w. split.
  - apply (mono_wav_left_untouched soundfile_missing spelled_plainly
      ratecv_floor
             w (P ["data"; "a.wav"]) WAV Scenario.long_clip false);
      reflexivity.
  - apply (mono_wav_left_untouched soundfile_all spelled_with_dot ratecv_floor
             w (P ["data"; "b.WAV"]) WAV Scenario.long_clip false);
      reflexivity.
Defined.

(** C3, on the code.  A half-second clip is deleted but its transcript is
    not when the path does not end in a lower-case [.wav] that is the
    only [.wav] in it: the transcript's path is computed by replacing
    every [.wav] of the whole path, so [clip.WAV] yields itself and
    [take.wav/clip.wav] yields [take.lab/clip.lab]. *)
Theorem short_clip_transcript_survives :
  disk_after
    (process_audio_file soundfile_all spelled_plainly len_ms_nearest
        ratecv_floor (P ["data"; "clip.WAV"], false))
    Scenario.upper_case_tree
  = [ ([], Dir); (Scenario.target, Dir);
      (P ["data"; "clip.lab"], File (Blob [104; 105])) ]
  /\ disk_after
       (process_audio_file soundfile_all spelled_plainly len_ms_nearest
           ratecv_floor (P ["data"; "take.wav"; "clip.wav"], false))
       Scenario.dotted_folder_tree
     = [ ([], Dir); (Scenario.target, Dir); (P ["data"; "take.wav"], Dir);
         (P ["data"; "take.wav"; "clip.lab"], File (Blob [104; 105])) ].
Proof. split; vm_compute; reflexivity. Qed.

(** C7, on the code.  When the base name of [A_1] is taken by a regular
    file [A], the merge branch moves [A_1/x] onto that file: [A] now
    holds the bytes of [x], its own are gone, and nothing but the merge
    is reported. *)
Theorem merge_overwrites_file :
  run (rename_speaker_folders Scenario.target false) Scenario.file_in_the_way
  = (Done tt,
     mkWorld
       [ ([], Dir); (Scenario.target, Dir); (P ["data"; "A"], File (Blob [2])) ]
       [ Banner "=== Removing trailing '{num}', '-{num}', or '_{num}' from speaker folders ===";
         Merged (P ["data"; "A_1"]) (P ["data"; "A"]) ]).
Proof. vm_compute. reflexivity. Qed.



(** C4, counterexample.  When [A] and [A_1] both hold an entry [x], the
    move is refused, the pass stops, and [A_1] is still there. *)
Lemma merge_stops_on_common_name :
  run (rename_speaker_folders Scenario.target false) Scenario.same_name_both_sides
  = (Done tt,
     mkWorld Scenario.same_name_both_sides
       [ Banner "=== Removing trailing '{num}', '-{num}', or '_{num}' from speaker folders ===";
         ErrorSpeakerFolders ShutilError ]).
Proof. vm_compute. reflexivity. Qed.

(** C10, counterexample.  A directory [123] holding an entry [x] beside a
    sibling [x]: the move into the parent is refused and [123] stays. *)
Lemma digits_folder_stays_on_clash :
  pattern_search (str "123") = Some O
  /\ run (rename_speaker_folders Scenario.target false) Scenario.digits_with_clash
     = (Done tt,
        mkWorld Scenario.digits_with_clash
          [ Banner "=== Removing trailing '{num}', '-{num}', or '_{num}' from speaker folders ===";
            ErrorSpeakerFolders ShutilError ]).
Proof. split; vm_compute; reflexivity. Qed.

(** The path [safe_rename] settles on is not on the disk. *)
Lemma free_path_is_free (fuel : nat) (base_path new_path : path) (counter : N)
    (w w' : world) (p : path) :
  free_path fuel base_path new_path counter w = (Done p, w') ->
  w' = w /\ exists_ (disk w) p = false.
Proof.
  revert new_path counter.
  induction fuel as [|f IH]; intros new_path counter H;
    cbn [free_path] in H;
    unfold os_path_exists, bind, get_disk, ret, out_of_fuel in H;
    cbv beta iota in H; cbn [disk] in H;
    destruct (exists_ (disk w) new_path) eqn:E.
  - discriminate.
  - inversion H; subst. now split.
  - destruct (splitext (basename base_path)) as [stem ext].
    now apply IH in H.
  - inversion H; subst. now split.
Qed.

(* ================================================================= *)
(** ** Merging a directory into another *)

Lemma os_path_join_proper (root : path) (n : name) :
  proper_name n = true -> os_path_join root n = root ++ [n].
Proof.
  unfold proper_name, os_path_join. intros H.
  apply negb_true_iff in H. apply orb_false_iff in H as [H H2].
  rewrite H, H2. reflexivity.
Qed.

Lemma basename_snoc (p : path) (n : name) : basename (p ++ [n]) = n.
Proof. unfold basename. apply last_last. Qed.

Lemma strip_prefix_snoc (p q : path) (n : name) :
  strip_prefix (p ++ [n]) q
  = match strip_prefix p q with
    | Some (m :: r) => if ueqb n m then Some r else None
    | _ => None
    end.
Proof.
  revert q; induction p as [|a p IH]; intros q; simpl.
  - destruct q as [|m r]; [reflexivity|]. now destruct (ueqb n m).
  - destruct q as [|b q]; [reflexivity|].
    destruct (ueqb a b); [apply IH | reflexivity].
Qed.

Lemma is_under_snoc (p q : path) (n : name) :
  is_under (p ++ [n]) q = true -> is_under p q = true.
Proof.
  unfold is_under. rewrite strip_prefix_snoc.
  destruct (strip_prefix p q) as [[|m r]|]; try discriminate. reflexivity.
Qed.

Lemma is_under_app (p r : path) : is_under p (p ++ r) = true.
Proof. unfold is_under. now rewrite strip_prefix_app. Qed.

Lemma is_under_true (p q : path) :
  is_under p q = true <-> exists r, q = p ++ r.
Proof.
  unfold is_under. split.
  - destruct (strip_prefix p q) as [r|] eqn:E; [|discriminate].
    intros _. exists r. now apply strip_prefix_Some.
  - intros [r ->]. now rewrite strip_prefix_app.
Qed.

(** Two ways of cutting one path: one prefix extends the other. *)
Lemma app_eq_prefix {A} (a b x y : list A) :
  a ++ x = b ++ y -> (exists t, b = a ++ t) \/ (exists t, a = b ++ t).
Proof.
  revert b; induction a as [|h a IH]; intros b H.
  - left. now exists b.
  - destruct b as [|h' b].
    + right. now exists (h :: a).
    + simpl in H. injection H as -> H.
      destruct (IH b H) as [[t ->]|[t ->]]; [left | right]; now exists t.
Qed.

Lemma lookup_In (d : fs) (p : path) (e : entry) :
  lookup d p = Some e -> In (p, e) d.
Proof.
  unfold lookup. destruct (find _ d) as [[k e']|] eqn:E; [|discriminate].
  intros H. injection H as ->. apply find_some in E as [Hin Hk].
  simpl in Hk. apply peqb_eq in Hk. now subst k.
Qed.

Lemma In_lookup (d : fs) (p : path) (e : entry) :
  In (p, e) d -> exists e', lookup d p = Some e'.
Proof.
  induction d as [|[k x] d IH]; intros H; [contradiction|].
  rewrite lookup_cons. destruct (peqb k p) eqn:E; [now exists x|].
  destruct H as [H|H]; [|now apply IH].
  injection H as -> ->. rewrite peqb_refl in E. discriminate.
Qed.

Lemma In_children (d : fs) (p : path) (n : name) (e : entry) :
  In (n, e) (children d p) <-> In (p ++ [n], e) d.
Proof.
  unfold children. rewrite in_flat_map. split.
  - intros ([k x] & Hin & H). simpl in H.
    destruct (strip_prefix p k) as [[|m [|? ?]]|] eqn:E; try contradiction.
    destruct H as [H|[]]. injection H as -> ->.
    apply strip_prefix_Some in E. now subst k.
  - intros H. exists (p ++ [n], e). split; [exact H|].
    simpl. rewrite strip_prefix_app. now left.
Qed.

Lemma In_listdir (d : fs) (p : path) (n : name) :
  In n (listdir d p) <-> exists e, lookup d (p ++ [n]) = Some e.
Proof.
  unfold listdir. rewrite in_map_iff. split.
  - intros ([m e] & Hm & Hin). simpl in Hm. subst m.
    apply In_children in Hin. now apply In_lookup in Hin.
  - intros [e H]. exists (n, e). split; [reflexivity|].
    apply In_children. now apply lookup_In.
Qed.

Lemma lookup_remove_tree (d : fs) (p q : path) :
  lookup (remove_tree d p) q = if is_under p q then None else lookup d q.
Proof.
  induction d as [|[k e] d IH].
  - cbn. rewrite lookup_nil. now destruct (is_under p q).
  - unfold remove_tree in *. cbn [filter fst].
    destruct (is_under p k) eqn:Ek; cbn [negb].
    + rewrite IH, lookup_cons.
      destruct (peqb k q) eqn:Ekq; [|reflexivity].
      apply peqb_eq in Ekq. subst k. now rewrite Ek.
    + rewrite !lookup_cons, IH.
      destruct (peqb k q) eqn:Ekq; [|reflexivity].
      apply peqb_eq in Ekq. subst k. now rewrite Ek.
Qed.

(** Moving the tree at [a] to a place [b] under which nothing lies. *)
Lemma lookup_move_tree (d : fs) (a b q : path) :
  (forall r, lookup d (b ++ r) = None) ->
  lookup (move_tree d a b) q
  = match strip_prefix b q with
    | Some r => lookup d (a ++ r)
    | None => if is_under a q then None else lookup d q
    end.
Proof.
  induction d as [|[k e] d IH]; intros Hb.
  - cbn. rewrite !lookup_nil.
    destruct (strip_prefix b q); [reflexivity | now destruct (is_under a q)].
  - assert (Hk : forall r, k <> b ++ r).
    { intros r ->. specialize (Hb r). rewrite lookup_cons, peqb_refl in Hb.
      discriminate. }
    assert (Hd : forall r, lookup d (b ++ r) = None).
    { intros r. specialize (Hb r). rewrite lookup_cons in Hb.
      now destruct (peqb k (b ++ r)). }
    specialize (IH Hd).
    unfold move_tree in *. cbn [map fst snd].
    destruct (strip_prefix a k) as [rk|] eqn:Eak.
    + apply strip_prefix_Some in Eak. subst k.
      rewrite lookup_cons, IH.
      destruct (strip_prefix b q) as [r|] eqn:Ebq.
      * apply strip_prefix_Some in Ebq. subst q. rewrite lookup_cons.
        destruct (peqb (b ++ rk) (b ++ r)) eqn:E1.
        -- apply peqb_eq, app_inv_head in E1. subst. now rewrite peqb_refl.
        -- destruct (peqb (a ++ rk) (a ++ r)) eqn:E2; [|reflexivity].
           apply peqb_eq, app_inv_head in E2. subst.
           rewrite peqb_refl in E1. discriminate.
      * destruct (peqb (b ++ rk) q) eqn:E1.
        -- apply peqb_eq in E1. subst q. rewrite strip_prefix_app in Ebq.
           discriminate.
        -- rewrite lookup_cons.
           destruct (is_under a q) eqn:Eu; [reflexivity|].
           destruct (peqb (a ++ rk) q) eqn:E2; [|reflexivity].
           apply peqb_eq in E2. subst q. rewrite is_under_app in Eu.
           discriminate.
    + rewrite lookup_cons, IH.
      destruct (strip_prefix b q) as [r|] eqn:Ebq.
      * apply strip_prefix_Some in Ebq. subst q.
        destruct (peqb k (b ++ r)) eqn:E1.
        -- apply peqb_eq in E1. now apply Hk in E1.
        -- rewrite lookup_cons.
           destruct (peqb k (a ++ r)) eqn:E2; [|reflexivity].
           apply peqb_eq in E2. subst k. rewrite strip_prefix_app in Eak.
           discriminate.
      * rewrite lookup_cons.
        destruct (peqb k q) eqn:E1; [|reflexivity].
        apply peqb_eq in E1. subst q.
        unfold is_under. now rewrite Eak.
Qed.

Lemma mem_In (x : ustring) (xs : list ustring) : mem x xs = true <-> In x xs.
Proof.
  unfold mem. rewrite existsb_exists. split.
  - intros (y & Hy & E). apply ueqb_eq in E. now subst.
  - intros H. exists x. split; [exact H | apply ueqb_refl].
Qed.

Lemma mem_not_In (x : ustring) (xs : list ustring) : ~ In x xs -> mem x xs = false.
Proof.
  intros H. destruct (mem x xs) eqn:E; [|reflexivity].
  apply mem_In in E. contradiction.
Qed.

Lemma ueqb_sym (s t : ustring) : ueqb s t = ueqb t s.
Proof.
  destruct (ueqb s t) eqn:E.
  - apply ueqb_eq in E. subst. now rewrite ueqb_refl.
  - symmetry. apply ueqb_neq. apply ueqb_neq in E. congruence.
Qed.

Lemma is_under_refl (p : path) : is_under p p = true.
Proof. rewrite <- (app_nil_r p) at 2. apply is_under_app. Qed.

Lemma not_under_child (p : path) (n : name) : is_under (p ++ [n]) p = false.
Proof.
  destruct (is_under (p ++ [n]) p) eqn:E; [|reflexivity].
  apply is_under_true in E as [r E]. rewrite <- app_assoc in E.
  rewrite <- (app_nil_r p) in E at 1. apply app_inv_head in E. discriminate.
Qed.

Lemma is_under_siblings (p : path) (m n : name) :
  is_under (p ++ [m]) (p ++ [n]) = ueqb m n.
Proof.
  unfold is_under. rewrite strip_prefix_snoc, strip_prefix_app.
  now destruct (ueqb m n).
Qed.

Section Merge.

Variables (d : fs) (old new : path).
Hypothesis Hold : lookup d old = Some Dir.
Hypothesis Hnew : isdir d new = true.
Hypothesis Hout : is_under old new = false.

Lemma target_apart (n : name) (r : path) :
  free_in_target d new n -> is_under old (new ++ n :: r) = false.
Proof.
  intros Hfree. destruct (is_under old (new ++ n :: r)) eqn:E; [|reflexivity].
  apply is_under_true in E as [r0 E].
  destruct (app_eq_prefix new old (n :: r) r0 E) as [[t Ht]|[t Ht]].
  - rewrite Ht, <- app_assoc in E. apply app_inv_head in E.
    destruct t as [|m t].
    + rewrite app_nil_r in Ht. rewrite Ht, is_under_refl in Hout. discriminate.
    + simpl in E. injection E as <- _.
      rewrite Ht, Hfree in Hold. discriminate.
  - rewrite Ht, is_under_app in Hout. discriminate.
Qed.

Lemma target_apart_child (m n : name) (r : path) :
  free_in_target d new n -> is_under (old ++ [m]) (new ++ n :: r) = false.
Proof.
  intros Hfree. destruct (is_under (old ++ [m]) _) eqn:E; [|reflexivity].
  apply is_under_snoc in E. now rewrite target_apart in E.
Qed.

Lemma none_moved_under (done : list name) (q : path) :
  is_under old q = false ->
  existsb (fun n => is_under (old ++ [n]) q) done = false.
Proof.
  intros H. induction done as [|m done IH]; [reflexivity|].
  simpl. rewrite IH, orb_false_r.
  destruct (is_under (old ++ [m]) q) eqn:E; [|reflexivity].
  apply is_under_snoc in E. congruence.
Qed.

Lemma expected_in_target (done : list name) (n : name) (r : path) :
  free_in_target d new n -> ~ In n done -> expected d old new done (new ++ n :: r) = None.
Proof.
  intros Hfree Hn. unfold expected.
  rewrite none_moved_under by now apply target_apart.
  rewrite strip_prefix_app, (mem_not_In _ _ Hn). apply Hfree.
Qed.

Lemma expected_in_source (done : list name) (n : name) (r : path) :
  (forall m, In m done -> free_in_target d new m) -> ~ In n done ->
  expected d old new done (old ++ n :: r) = lookup d (old ++ n :: r).
Proof.
  intros Hfree Hn. unfold expected.
  assert (Hex : existsb (fun m => is_under (old ++ [m]) (old ++ n :: r)) done = false).
  { clear Hfree. induction done as [|m done IH]; [reflexivity|].
    simpl. rewrite IH by (intros H; apply Hn; now right).
    rewrite orb_false_r. unfold is_under.
    rewrite strip_prefix_snoc, strip_prefix_app.
    destruct (ueqb m n) eqn:E; [|reflexivity].
    apply ueqb_eq in E. subst m. exfalso. apply Hn. now left. }
  rewrite Hex.
  destruct (strip_prefix new (old ++ n :: r)) as [[|m r']|] eqn:E; try reflexivity.
  destruct (mem m done) eqn:Em; [|reflexivity].
  apply mem_In in Em. apply strip_prefix_Some in E.
  pose proof (target_apart m r' (Hfree m Em)) as Ha.
  rewrite <- E, is_under_app in Ha. discriminate.
Qed.

Lemma lookup_after_moves (done : list name) :
  NoDup done -> (forall n, In n done -> free_in_target d new n) ->
  forall q, lookup (after_moves d old new done) q = expected d old new done q.
Proof.
  induction done as [|n done IH] using rev_ind; intros Hnd Hfree q.
  - unfold expected. simpl.
    now destruct (strip_prefix new q) as [[|m r]|].
  - apply NoDup_remove in Hnd as [Hnd Hn]. rewrite app_nil_r in Hnd, Hn.
    assert (Hfree' : forall m, In m done -> free_in_target d new m).
    { intros m Hm. apply Hfree, in_or_app. now left. }
    assert (Hfn : free_in_target d new n).
    { apply Hfree, in_or_app. right. now left. }
    specialize (IH Hnd Hfree').
    unfold after_moves in *. rewrite fold_left_app. cbn [fold_left].
    rewrite lookup_move_tree.
    2:{ intros r. rewrite <- app_assoc, IH. now apply expected_in_target. }
    rewrite strip_prefix_snoc.
    unfold expected at 1. rewrite existsb_app. cbn [existsb]. rewrite orb_false_r.
    destruct (strip_prefix new q) as [[|m r]|] eqn:Eq.
    + destruct (is_under (old ++ [n]) q) eqn:Eu.
      * now rewrite orb_true_r.
      * rewrite orb_false_r, IH. unfold expected. now rewrite Eq.
    + apply strip_prefix_Some in Eq. subst q.
      unfold mem. rewrite existsb_app. cbn [existsb]. rewrite orb_false_r.
      fold (mem m done). rewrite (ueqb_sym m n).
      destruct (ueqb n m) eqn:Enm.
      * apply ueqb_eq in Enm. subst m.
        rewrite orb_true_r.
        rewrite (target_apart_child n n r Hfn), orb_false_r.
        rewrite none_moved_under by now apply target_apart.
        rewrite <- app_assoc. cbn [app].
        rewrite IH. now apply expected_in_source.
      * rewrite orb_false_r.
        destruct (is_under (old ++ [n]) (new ++ m :: r)) eqn:Eu.
        -- now rewrite orb_true_r.
        -- rewrite orb_false_r, IH. unfold expected.
           rewrite strip_prefix_app. reflexivity.
    + destruct (is_under (old ++ [n]) q) eqn:Eu.
      * now rewrite orb_true_r.
      * rewrite orb_false_r, IH. unfold expected. now rewrite Eq.
Qed.

Lemma target_still_dir (done : list name) :
  NoDup done -> (forall n, In n done -> free_in_target d new n) ->
  isdir (after_moves d old new done) new = true.
Proof.
  intros Hnd Hfree. unfold isdir. rewrite lookup_after_moves by assumption.
  unfold expected. rewrite (none_moved_under done new Hout).
  pose proof (strip_prefix_app new []) as E. rewrite app_nil_r in E.
  rewrite E. exact Hnew.
Qed.

Lemma source_still_dir (done : list name) :
  NoDup done -> (forall n, In n done -> free_in_target d new n) ->
  lookup (after_moves d old new done) old = Some Dir.
Proof.
  intros Hnd Hfree. rewrite lookup_after_moves by assumption.
  unfold expected.
  assert (Hex : existsb (fun n => is_under (old ++ [n]) old) done = false).
  { clear. induction done as [|m done IH]; [reflexivity|].
    simpl. now rewrite IH, not_under_child. }
  rewrite Hex.
  destruct (strip_prefix new old) as [[|m r]|] eqn:E; try exact Hold.
  destruct (mem m done) eqn:Em; [|exact Hold].
  apply mem_In in Em. apply strip_prefix_Some in E.
  pose proof (target_apart m r (Hfree m Em)) as Ha.
  rewrite <- E, is_under_refl in Ha. discriminate.
Qed.

(** One turn of the loop of the merge: the entry [n] of [old] goes to
    [new/n]. *)
Lemma move_step (done : list name) (n : name) (o : list msg) :
  NoDup (done ++ [n]) ->
  (forall m, In m (done ++ [n]) -> free_in_target d new m) ->
  proper_name n = true ->
  (exists e, lookup d (old ++ [n]) = Some e) ->
  shutil_move (os_path_join old n) new (mkWorld (after_moves d old new done) o)
  = (Done tt, mkWorld (after_moves d old new (done ++ [n])) o).
Proof.
  intros Hnd Hfree Hp [e He].
  pose proof Hnd as Hnd'. apply NoDup_remove in Hnd' as [Hnd' Hn].
  rewrite app_nil_r in Hnd', Hn.
  assert (Hfree' : forall m, In m done -> free_in_target d new m).
  { intros m Hm. apply Hfree, in_or_app. now left. }
  assert (Hfn : free_in_target d new n).
  { apply Hfree, in_or_app. right. now left. }
  assert (L2 : lookup (after_moves d old new done) (new ++ [n]) = None).
  { rewrite lookup_after_moves by assumption. now apply expected_in_target. }
  assert (L3 : lookup (after_moves d old new done) (old ++ [n]) = Some e).
  { rewrite lookup_after_moves, expected_in_source by assumption. exact He. }
  assert (L4 : peqb (old ++ [n]) new = false).
  { apply peqb_neq. intros E. rewrite <- E, is_under_app in Hout. discriminate. }
  assert (L5 : peqb (old ++ [n]) (new ++ [n]) = false).
  { apply peqb_neq. intros E. apply app_inv_tail in E.
    rewrite E, is_under_refl in Hout. discriminate. }
  rewrite (os_path_join_proper old n Hp).
  unfold shutil_move, bind, get_disk. cbn [disk].
  rewrite (target_still_dir done Hnd' Hfree'), L4.
  rewrite basename_snoc, (os_path_join_proper new n Hp).
  unfold exists_. rewrite L2.
  unfold os_rename, bind, get_disk. cbn [disk]. rewrite L3, L5.
  rewrite removelast_last, (target_still_dir done Hnd' Hfree'). cbn [negb].
  rewrite (target_apart_child n n [] Hfn), L2.
  unfold set_disk, after_moves. cbn [disk out].
  now rewrite fold_left_app.
Qed.

Lemma moves_run (rest done : list name) (o : list msg) :
  NoDup (done ++ rest) ->
  (forall n, In n (done ++ rest) -> free_in_target d new n) ->
  (forall n, In n rest -> proper_name n = true) ->
  (forall n, In n rest -> exists e, lookup d (old ++ [n]) = Some e) ->
  for_ rest (fun item => shutil_move (os_path_join old item) new)
    (mkWorld (after_moves d old new done) o)
  = (Done tt, mkWorld (after_moves d old new (done ++ rest)) o).
Proof.
  revert done. induction rest as [|n rest IH]; intros done Hnd Hfree Hp He.
  - rewrite app_nil_r. reflexivity.
  - assert (Hsplit : done ++ n :: rest = (done ++ [n]) ++ rest)
      by now rewrite <- app_assoc.
    rewrite Hsplit in *.
    unfold for_. cbn [for_each]. unfold bind at 1.
    rewrite move_step.
    + apply IH; try assumption; intros m Hm; [apply Hp | apply He]; now right.
    + apply NoDup_app_remove_r in Hnd. exact Hnd.
    + intros m Hm. apply Hfree, in_or_app. now left.
    + apply Hp. now left.
    + apply He. now left.
Qed.

(** The merge runs to its end when no entry of [old] has its name taken
    in [new], and leaves the disk [merged]. *)
Lemma merge_contents_run (o : list msg) :
  NoDup (listdir d old) ->
  (forall n, In n (listdir d old) -> free_in_target d new n) ->
  (forall n, In n (listdir d old) -> proper_name n = true) ->
  merge_contents old new (mkWorld d o)
  = (Done tt, mkWorld (merged d old new) (o ++ [Merged old new])).
Proof.
  intros Hnd Hfree Hp.
  unfold merge_contents. unfold bind at 1.
  unfold os_listdir, bind, get_disk. cbn [disk]. rewrite Hold.
  unfold ret, bind.
  change d with (after_moves d old new []) at 2.
  rewrite moves_run; try assumption.
  2:{ intros n Hn. now apply In_listdir. }
  cbn [app].
  unfold shutil_rmtree, bind, get_disk. cbn [disk].
  rewrite source_still_dir by assumption.
  reflexivity.
Qed.

Lemma lookup_merged (q : path) :
  NoDup (listdir d old) ->
  (forall n, In n (listdir d old) -> free_in_target d new n) ->
  lookup (merged d old new) q
  = if is_under old q then None
    else match strip_prefix new q with
         | Some (n :: r) =>
           if mem n (listdir d old) then lookup d (old ++ n :: r) else lookup d q
         | _ => lookup d q
         end.
Proof.
  intros Hnd Hfree. unfold merged. rewrite lookup_remove_tree.
  destruct (is_under old q) eqn:E; [reflexivity|].
  fold (after_moves d old new (listdir d old)).
  rewrite lookup_after_moves by assumption.
  unfold expected. now rewrite none_moved_under.
Qed.

End Merge.

(** *** What a well-formed disk gives *)

Lemma distinct_keys_NoDup (d : fs) : distinct_keys d = true -> NoDup (keys d).
Proof.
  induction d as [|[k e] d IH]; intros H; [constructor|].
  simpl in H. apply andb_true_iff in H as [Hk Hd]. simpl. constructor.
  - intros Hin. apply negb_true_iff in Hk.
    assert (existsb (peqb k) (keys d) = true); [|congruence].
    apply existsb_exists. exists k. split; [exact Hin | apply peqb_refl].
  - now apply IH.
Qed.

Lemma listdir_NoDup (d : fs) (p : path) : NoDup (keys d) -> NoDup (listdir d p).
Proof.
  induction d as [|[k e] d IH]; intros H; [constructor|].
  inversion H as [|? ? Hk Hd]; subst.
  unfold listdir, children in *. cbn [flat_map fst snd].
  destruct (strip_prefix p k) as [[|n [|? ?]]|] eqn:E; try now apply IH.
  cbn [app map fst]. constructor; [|now apply IH].
  intros Hin. apply in_map_iff in Hin as ([m x] & Hm & Hin).
  simpl in Hm. subst m. apply (In_children d p n x) in Hin.
  apply strip_prefix_Some in E. subst k.
  apply Hk. apply in_map_iff. now exists (p ++ [n], x).
Qed.

Lemma well_formed_key (d : fs) (k : path) (e : entry) :
  well_formed d = true -> lookup d k = Some e ->
  forallb proper_name k = true
  /\ match k with [] => True | _ => isdir d (removelast k) = true end.
Proof.
  intros Hwf Hl. unfold well_formed in Hwf.
  apply andb_true_iff in Hwf as [_ Hall].
  rewrite forallb_forall in Hall.
  apply lookup_In in Hl.
  specialize (Hall k ltac:(apply in_map_iff; now exists (k, e))).
  apply andb_true_iff in Hall as [Hp Hd]. split; [exact Hp|].
  destruct k; [exact I | exact Hd].
Qed.

Lemma well_formed_parent (d : fs) (p : path) (n : name) (e : entry) :
  well_formed d = true -> lookup d (p ++ [n]) = Some e -> isdir d p = true.
Proof.
  intros Hwf Hl. destruct (well_formed_key d _ e Hwf Hl) as [_ H].
  rewrite removelast_last in H. destruct (p ++ [n]) eqn:E; [|exact H].
  now apply app_eq_nil in E as [_ E].
Qed.

Lemma well_formed_proper (d : fs) (p : path) (n : name) (e : entry) :
  well_formed d = true -> lookup d (p ++ [n]) = Some e -> proper_name n = true.
Proof.
  intros Hwf Hl. destruct (well_formed_key d _ e Hwf Hl) as [H _].
  rewrite forallb_app in H. apply andb_true_iff in H as [_ H].
  simpl in H. now rewrite andb_true_r in H.
Qed.

(** Under a path that is not on the disk there is nothing. *)
Lemma well_formed_free (d : fs) (p : path) :
  well_formed d = true -> lookup d p = None ->
  forall r, lookup d (p ++ r) = None.
Proof.
  intros Hwf Hp r. induction r as [|x r IH] using rev_ind.
  - now rewrite app_nil_r.
  - destruct (lookup d (p ++ r ++ [x])) as [e|] eqn:E; [|reflexivity].
    rewrite app_assoc in E. apply (well_formed_parent d _ x e Hwf) in E.
    unfold isdir in E. rewrite IH in E. discriminate.
Qed.

Lemma search_from_matches (s : ustring) (i j : nat) :
  search_from i s = Some j ->
  (i <= j)%nat /\ match_here (skipn (j - i) s) = true.
Proof.
  revert i; induction s as [|c r IH]; intros i H; cbn [search_from] in H.
  - destruct (match_here []) eqn:E; [|discriminate].
    injection H as <-. rewrite Nat.sub_diag. now split.
  - destruct (match_here (c :: r)) eqn:E.
    + injection H as <-. rewrite Nat.sub_diag. now split.
    + apply IH in H as [Hle Hm]. split; [lia|].
      replace (j - i)%nat with (S (j - S i)) by lia. exact Hm.
Qed.

(** The base name is strictly shorter than the name it is cut from. *)
Lemma stripped_shorter (dir_name : ustring) (start : nat) :
  pattern_search dir_name = Some start -> firstn start dir_name <> dir_name.
Proof.
  intros H. apply search_from_matches in H as [_ H].
  rewrite Nat.sub_0_r in H. intros E.
  assert (Hlen : (length dir_name <= start)%nat).
  { rewrite <- E at 1. rewrite length_firstn. lia. }
  rewrite skipn_all2 in H by exact Hlen. discriminate.
Qed.

Lemma snoc2 (p : path) (x y : name) : (p ++ [x]) ++ [y] = p ++ [x; y].
Proof. now rewrite <- app_assoc. Qed.

Section SuffixRemoval.

Variable w : world.
Variable root : path.
Variable dir_name : name.
Hypothesis Hwf : well_formed (disk w) = true.
Hypothesis Hdir : lookup (disk w) (root ++ [dir_name]) = Some Dir.

Lemma entries_free (new_path : path) (n : name) :
  no_common_name (disk w) (root ++ [dir_name]) new_path ->
  In n (listdir (disk w) (root ++ [dir_name])) ->
  free_in_target (disk w) new_path n.
Proof.
  intros Hno Hn r.
  change (new_path ++ n :: r) with (new_path ++ [n] ++ r). rewrite app_assoc.
  apply well_formed_free; [exact Hwf|].
  destruct (lookup (disk w) (new_path ++ [n])) as [e|] eqn:E; [|reflexivity].
  exfalso. apply (Hno n Hn). apply In_listdir. now exists e.
Qed.

Lemma entries_proper (n : name) :
  In n (listdir (disk w) (root ++ [dir_name])) -> proper_name n = true.
Proof.
  intros Hn. apply In_listdir in Hn as [e He].
  exact (well_formed_proper (disk w) _ n e Hwf He).
Qed.

(** The loop body on a directory whose target [new_path] is a directory
    outside it. *)
Lemma strip_folder_suffix_merges (start : nat) (new_path : path) :
  pattern_search dir_name = Some start ->
  os_path_join root (firstn start dir_name) = new_path ->
  isdir (disk w) new_path = true ->
  is_under (root ++ [dir_name]) new_path = false ->
  no_common_name (disk w) (root ++ [dir_name]) new_path ->
  strip_folder_suffix root dir_name false w
  = (Done tt,
     mkWorld (merged (disk w) (root ++ [dir_name]) new_path)
             (out w ++ [Merged (root ++ [dir_name]) new_path])).
Proof.
  intros Hs Hj Hnew Hout Hno.
  unfold strip_folder_suffix. rewrite Hs. cbn.
  rewrite (os_path_join_proper root dir_name
             (well_formed_proper _ _ _ _ Hwf Hdir)), Hj.
  unfold bind at 1. unfold os_path_exists, bind, get_disk, ret.
  assert (Hex : exists_ (disk w) new_path = true).
  { unfold exists_. unfold isdir in Hnew.
    now destruct (lookup (disk w) new_path). }
  rewrite Hex.
  assert (Eta : w = mkWorld (disk w) (out w)) by now destruct w.
  pose proof (merge_contents_run (disk w) (root ++ [dir_name]) new_path
                Hdir Hnew Hout (out w)) as Run.
  rewrite <- Eta in Run. apply Run.
  - apply listdir_NoDup, distinct_keys_NoDup.
    pose proof Hwf as H. unfold well_formed in H.
    now apply andb_true_iff in H as [H _].
  - intros n Hn. now apply entries_free.
  - exact entries_proper.
Qed.

Lemma lookup_after_merge (new_path q : path) :
  isdir (disk w) new_path = true ->
  is_under (root ++ [dir_name]) new_path = false ->
  no_common_name (disk w) (root ++ [dir_name]) new_path ->
  lookup (merged (disk w) (root ++ [dir_name]) new_path) q
  = if is_under (root ++ [dir_name]) q then None
    else match strip_prefix new_path q with
         | Some (n :: r) =>
           if mem n (listdir (disk w) (root ++ [dir_name]))
           then lookup (disk w) ((root ++ [dir_name]) ++ n :: r)
           else lookup (disk w) q
         | _ => lookup (disk w) q
         end.
Proof.
  intros Hnew Hout Hno. rewrite lookup_merged; try assumption.
  - reflexivity.
  - apply listdir_NoDup, distinct_keys_NoDup.
    pose proof Hwf as H. unfold well_formed in H.
    now apply andb_true_iff in H as [H _].
  - intros n Hn. now apply entries_free.
Qed.

(** C4, as the code has it.  In execute mode, when the base name of a
    directory is the name of a sibling directory and no entry name occurs
    in both, the loop body leaves the base directory with the entries of
    both, each as it was, and the suffixed directory is gone. *)
Theorem merge_into_sibling (start : nat) :
  pattern_search dir_name = Some start ->
  isdir (disk w) (root ++ [firstn start dir_name]) = true ->
  no_common_name (disk w) (root ++ [dir_name]) (root ++ [firstn start dir_name]) ->
  exists w',
    strip_folder_suffix root dir_name false w = (Done tt, w')
    /\ lookup (disk w') (root ++ [dir_name]) = None
    /\ forall n e,
         lookup (disk w') (root ++ [firstn start dir_name; n]) = Some e
         <-> lookup (disk w) (root ++ [firstn start dir_name; n]) = Some e
             \/ lookup (disk w) (root ++ [dir_name; n]) = Some e.
Proof.
  intros Hs Hnew Hno.
  set (base := firstn start dir_name) in *.
  assert (Hbase : proper_name base = true).
  { unfold isdir in Hnew.
    destruct (lookup (disk w) (root ++ [base])) as [e|] eqn:E; [|discriminate].
    now apply (well_formed_proper _ _ _ _ Hwf E). }
  assert (Hout : is_under (root ++ [dir_name]) (root ++ [base]) = false).
  { rewrite is_under_siblings. apply ueqb_neq. intros E.
    apply (stripped_shorter dir_name start Hs). now symmetry. }
  eexists. split.
  { apply (strip_folder_suffix_merges start (root ++ [base])); try assumption.
    now apply os_path_join_proper. }
  cbn [disk]. split.
  - rewrite lookup_after_merge by assumption. now rewrite is_under_refl.
  - intros n e. rewrite <- !snoc2.
    rewrite lookup_after_merge by assumption.
    match goal with
    | |- context [is_under ?a ?b] => assert (Hu : is_under a b = false)
    end.
    { match goal with |- ?u = false => destruct u eqn:E; [|reflexivity] end.
      apply is_under_true in E as [r E]. rewrite <- !app_assoc in E.
      apply app_inv_head in E. cbn in E. injection E as E _.
      exfalso. apply (stripped_shorter dir_name start Hs). exact E. }
    rewrite Hu, strip_prefix_app.
    destruct (mem n (listdir (disk w) (root ++ [dir_name]))) eqn:Em.
    + apply mem_In in Em. split; [now right|].
      intros [H|H]; [|exact H].
      exfalso. apply (Hno n Em). apply In_listdir. now exists e.
    + split; [now left|]. intros [H|H]; [exact H|].
      assert (Hin : In n (listdir (disk w) (root ++ [dir_name]))).
      { apply In_listdir. now exists e. }
      apply mem_In in Hin. congruence.
Qed.

(** C10, as the code has it.  For a directory whose name is made of
    digits only, the base name is empty and the target is the parent,
    which exists; in execute mode, when no entry of the directory has its
    name taken in the parent, every entry moves up into the parent and
    the directory is gone. *)
Theorem digits_folder_merges_into_parent :
  dir_name <> [] ->
  forallb is_digit dir_name = true ->
  no_common_name (disk w) (root ++ [dir_name]) root ->
  stripped_name dir_name = Some []
  /\ os_path_join root [] = root
  /\ isdir (disk w) root = true
  /\ exists w',
       strip_folder_suffix root dir_name false w = (Done tt, w')
       /\ lookup (disk w') (root ++ [dir_name]) = None
       /\ forall n e,
            lookup (disk w') (root ++ [n]) = Some e
            <-> (n <> dir_name /\ lookup (disk w) (root ++ [n]) = Some e)
                \/ lookup (disk w) (root ++ [dir_name; n]) = Some e.
Proof.
  intros Hne Hd Hno.
  pose proof (stripped_name_all_digits dir_name Hne Hd) as Hs.
  pose proof (well_formed_parent _ _ _ _ Hwf Hdir) as Hroot.
  pose proof (not_under_child root dir_name) as Hout.
  split; [unfold stripped_name; now rewrite Hs|].
  split; [reflexivity|]. split; [exact Hroot|].
  eexists. split.
  { now apply (strip_folder_suffix_merges O root). }
  cbn [disk]. split.
  - rewrite lookup_after_merge by assumption. now rewrite is_under_refl.
  - intros n e. rewrite <- snoc2. rewrite lookup_after_merge by assumption.
    rewrite is_under_siblings, strip_prefix_app.
    destruct (ueqb dir_name n) eqn:En.
    + apply ueqb_eq in En. subst n. split; [discriminate|].
      intros [[H _]|H]; [congruence|].
      exfalso. apply (Hno dir_name); apply In_listdir; eauto.
    + apply ueqb_neq in En.
      destruct (mem n (listdir (disk w) (root ++ [dir_name]))) eqn:Em.
      * apply mem_In in Em. split; [now right|].
        intros [[_ H]|H]; [|exact H].
        exfalso. apply (Hno n Em). apply In_listdir. now exists e.
      * split; [intros H; left; split; [congruence | exact H]|].
        intros [[_ H]|H]; [exact H|].
        assert (Hin : In n (listdir (disk w) (root ++ [dir_name]))).
        { apply In_listdir. now exists e. }
        apply mem_In in Hin. congruence.
Qed.

End SuffixRemoval.

Lemma merge_into_sibling_witness :
  exists w',
    strip_folder_suffix Scenario.target (str "A_1") false
      (mkWorld Scenario.two_folders []) = (Done tt, w')
    /\ lookup (disk w') (P ["data"; "A_1"]) = None
    /\ forall n e,
         lookup (disk w') (P ["data"; "A"] ++ [n]) = Some e
         <-> lookup Scenario.two_folders (P ["data"; "A"] ++ [n]) = Some e
             \/ lookup Scenario.two_folders (P ["data"; "A_1"] ++ [n]) = Some e.
Proof.
  apply (merge_into_sibling (mkWorld Scenario.two_folders []) Scenario.target
           (str "A_1") eq_refl eq_refl 1%nat); try reflexivity.
  intros n Hn Hn'. vm_compute in Hn, Hn'.
  destruct Hn as [<-|[]]. destruct Hn' as [E|[]]. discriminate.
Defined.

Lemma digits_folder_merges_into_parent_witness :
  exists w',
    strip_folder_suffix Scenario.target (str "123") false
      (mkWorld Scenario.digits_folder []) = (Done tt, w')
    /\ lookup (disk w') (P ["data"; "123"]) = None
    /\ lookup (disk w') (P ["data"; "y"]) = Some (File (Blob [2])).
Proof.
  destruct (digits_folder_merges_into_parent
              (mkWorld Scenario.digits_folder []) Scenario.target (str "123")
              eq_refl eq_refl ltac:(discriminate) eq_refl)
    as (_ & _ & _ & w' & Hrun & Hgone & Hall).
  - intros n Hn Hn'. vm_compute in Hn, Hn'.
    destruct Hn as [<-|[]]. destruct Hn' as [E|[E|[]]]; discriminate.
  - exists w'. split; [exact Hrun|]. split; [exact Hgone|].
    apply (Hall (str "y")). right. reflexivity.
Defined.

(* ================================================================= *)
(** ** A second run on a settled tree *)

Lemma quiet_ret {A} (d : fs) (a : A) (Q : A -> Prop) : Q a -> quiet d (ret a) Q.
Proof. intros H o. now exists a, o. Qed.

Lemma quiet_print (d : fs) (m : msg) (Q : unit -> Prop) :
  Q tt -> quiet d (print m) Q.
Proof. intros H o. now exists tt, (o ++ [m]). Qed.

Lemma quiet_get_disk (d : fs) : quiet d get_disk (fun d' => d' = d).
Proof. intros o. now exists d, o. Qed.

Lemma quiet_bind {A B} (d : fs) (m : M A) (k : A -> M B)
    (Q : A -> Prop) (R : B -> Prop) :
  quiet d m Q -> (forall a, Q a -> quiet d (k a) R) -> quiet d (bind m k) R.
Proof.
  intros Hm Hk o. destruct (Hm o) as (a & o1 & E & Ha).
  destruct (Hk a Ha o1) as (b & o2 & E2 & Hb).
  exists b, o2. unfold bind. now rewrite E.
Qed.

Lemma quiet_try_except {A} (d : fs) (m : M A) (h : exn -> M A) (Q : A -> Prop) :
  quiet d m Q -> quiet d (try_except m h) Q.
Proof.
  intros Hm o. destruct (Hm o) as (a & o1 & E & Ha).
  exists a, o1. unfold try_except. now rewrite E.
Qed.

Lemma quiet_weaken {A} (d : fs) (m : M A) (Q R : A -> Prop) :
  quiet d m Q -> (forall a, Q a -> R a) -> quiet d m R.
Proof.
  intros Hm H o. destruct (Hm o) as (a & o1 & E & Ha).
  exists a, o1. auto.
Qed.

Lemma quiet_for_each {A St} (d : fs) (xs : list A) (f : A -> St -> M St)
    (s : St) (I : St -> Prop) :
  (forall x s, In x xs -> I s -> quiet d (f x s) I) ->
  I s -> quiet d (for_each xs f s) I.
Proof.
  revert s. induction xs as [|x xs IH]; intros s Hf Hs; simpl.
  - now apply quiet_ret.
  - eapply quiet_bind; [apply Hf; [now left | exact Hs]|].
    intros s' Hs'. apply IH; [|exact Hs'].
    intros y s2 Hy. apply Hf. now right.
Qed.

Lemma quiet_for_ {A} (d : fs) (xs : list A) (f : A -> M unit) :
  (forall x, In x xs -> quiet d (f x) (fun _ => True)) ->
  quiet d (for_ xs f) (fun _ => True).
Proof.
  intros Hf. unfold for_. apply quiet_for_each; [|exact I].
  intros x s Hx _. now apply Hf.
Qed.

Lemma depth_bound_key (d : fs) (p : path) (e : entry) :
  lookup d p = Some e -> (length p <= depth_bound d)%nat.
Proof.
  intros H. apply lookup_In in H.
  induction d as [|[k x] d IH]; [contradiction|].
  simpl. destruct H as [H|H].
  - injection H as -> ->. lia.
  - specialize (IH H). lia.
Qed.

Lemma In_lookup_distinct (d : fs) (p : path) (e : entry) :
  NoDup (keys d) -> In (p, e) d -> lookup d p = Some e.
Proof.
  induction d as [|[k x] d IH]; intros Hnd Hin; [contradiction|].
  inversion Hnd as [|? ? Hk Hd]; subst. rewrite lookup_cons.
  destruct Hin as [H|H].
  - injection H as -> ->. now rewrite peqb_refl.
  - destruct (peqb k p) eqn:E; [|now apply IH].
    apply peqb_eq in E. subst k. exfalso. apply Hk.
    apply in_map_iff. now exists (p, e).
Qed.

Lemma scandir_dirs (d : fs) (top : path) (dirs files : list name) (n : name) :
  scandir d top = Some (dirs, files) -> In n dirs -> In (top ++ [n], Dir) d.
Proof.
  unfold scandir. destruct (lookup d top) as [[c|]|]; try discriminate.
  intros H Hn. injection H as <- _.
  apply in_map_iff in Hn as ([m e] & Hm & Hin). simpl in Hm. subst m.
  apply filter_In in Hin as [Hin He].
  destruct e; [discriminate|]. now apply In_children.
Qed.

Lemma scandir_files (d : fs) (top : path) (dirs files : list name) (n : name) :
  scandir d top = Some (dirs, files) -> In n files ->
  exists c, In (top ++ [n], File c) d.
Proof.
  unfold scandir. destruct (lookup d top) as [[c|]|]; try discriminate.
  intros H Hn. injection H as _ <-.
  apply in_map_iff in Hn as ([m e] & Hm & Hin). simpl in Hm. subst m.
  apply filter_In in Hin as [Hin He].
  destruct e as [c|]; [|discriminate]. exists c. now apply In_children.
Qed.

Lemma scandir_listed (d : fs) (top : path) (r : list name * list name) :
  scandir d top = Some r -> lookup d top = Some Dir.
Proof.
  unfold scandir. destruct (lookup d top) as [[c|]|]; try discriminate.
  reflexivity.
Qed.

Lemma well_formed_distinct (d : fs) : well_formed d = true -> NoDup (keys d).
Proof.
  intros H. unfold well_formed in H. apply andb_true_iff in H as [H _].
  now apply distinct_keys_NoDup.
Qed.

Section QuietWalk.

Variable d : fs.
Variable target : path.
Hypothesis Hwf : well_formed d = true.

(** A walk over a tree whose body is quiet on every directory it is
    given. *)
Lemma quiet_os_walk {St} (body : path -> list name -> list name -> St -> M St)
    (I : St -> Prop) (topdown : bool) :
  (forall root dirs files s,
     is_under target root = true -> scandir d root = Some (dirs, files) ->
     I s -> quiet d (body root dirs files s) I) ->
  forall fuel top s,
    (depth_bound d < length top + fuel)%nat ->
    is_under target top = true -> I s ->
    quiet d (os_walk fuel topdown top body s) I.
Proof.
  intros Hbody. induction fuel as [|f IH]; intros top s Hfuel Htop Hs.
  - cbn [os_walk]. eapply quiet_bind; [apply quiet_get_disk|].
    intros d' ->. destruct (scandir d top) as [[dirs files]|] eqn:E;
      [|now apply quiet_ret].
    apply scandir_listed, depth_bound_key in E. lia.
  - cbn [os_walk]. eapply quiet_bind; [apply quiet_get_disk|].
    intros d' ->. destruct (scandir d top) as [[dirs files]|] eqn:E;
      [|now apply quiet_ret].
    assert (Hdescend : forall s, I s ->
      quiet d (for_each dirs
        (fun dirname s => os_walk f topdown (os_path_join top dirname) body s) s) I).
    { intros s0 Hs0. apply quiet_for_each; [|exact Hs0].
      intros n s1 Hn Hs1.
      pose proof (scandir_dirs _ _ _ _ _ E Hn) as Hin.
      apply In_lookup in Hin as [e He].
      rewrite (os_path_join_proper top n (well_formed_proper _ _ _ _ Hwf He)).
      apply IH; [rewrite length_app; simpl; lia | | exact Hs1].
      apply is_under_true in Htop as [r ->]. rewrite <- app_assoc.
      apply is_under_app. }
    destruct topdown.
    + eapply quiet_bind; [now apply Hbody | exact Hdescend].
    + eapply quiet_bind; [now apply Hdescend|].
      intros s1 Hs1. now apply Hbody.
Qed.

Lemma quiet_walk {St} (body : path -> list name -> list name -> St -> M St)
    (I : St -> Prop) (topdown : bool) (s : St) :
  (forall root dirs files s,
     is_under target root = true -> scandir d root = Some (dirs, files) ->
     I s -> quiet d (body root dirs files s) I) ->
  I s -> quiet d (walk topdown target body s) I.
Proof.
  intros Hbody Hs. unfold walk.
  eapply quiet_bind; [apply quiet_get_disk|]. intros d' ->.
  apply quiet_os_walk; [exact Hbody | lia | apply is_under_refl | exact Hs].
Qed.

End QuietWalk.

Lemma quiet_os_path_exists (d : fs) (p : path) :
  quiet d (os_path_exists p) (fun _ => True).
Proof. intros o. now exists (exists_ d p), o. Qed.

(** A [print], then the rest. *)
Ltac say :=
  eapply quiet_bind with (Q := fun _ => True);
  [apply quiet_print; exact I | intros _ _].

(** A step already shown quiet, then the rest. *)
Ltac then_ H :=
  eapply quiet_bind with (Q := fun _ => True); [apply H | intros _ _].

Lemma settled_dir_inv (lazy_pinyin : ustring -> option (list ustring))
    (capitalize : ustring -> ustring) (n : name) :
  settled_dir lazy_pinyin capitalize n = true ->
  mem n FOLDERS_TO_REMOVE = false
  /\ (has_chinese n = true -> pinyin_name lazy_pinyin capitalize n = [])
  /\ pattern_search n = None /\ contains 95 n = false.
Proof.
  unfold settled_dir. intros H.
  apply andb_true_iff in H as [H H4]. apply andb_true_iff in H as [H H3].
  apply andb_true_iff in H as [H1 H2].
  apply negb_true_iff in H1, H4.
  destruct (pattern_search n); [discriminate|].
  repeat split; auto. intros Hc. rewrite Hc in H2. cbn in H2.
  now apply ueqb_eq in H2.
Qed.

Lemma quiet_convert_to_pinyin (lazy_pinyin : ustring -> option (list ustring))
    (capitalize : ustring -> ustring) (d : fs) (text : ustring) :
  quiet d (convert_to_pinyin lazy_pinyin capitalize text)
    (fun new_name => new_name = pinyin_name lazy_pinyin capitalize text).
Proof.
  unfold convert_to_pinyin, pinyin_name.
  destruct (lazy_pinyin text) as [units|].
  - now apply quiet_ret.
  - eapply quiet_bind with (Q := fun _ => True);
      [now apply quiet_print | intros _ _; now apply quiet_ret].
Qed.

Section Settled.

Variable soundfile : container -> bool.
Variable kept_by_pathlib : path -> bool.
Variable len_ms : Z -> Z -> Z.
Variable ratecv : audio -> Z -> Z.
Variable lazy_pinyin : ustring -> option (list ustring).
Variable capitalize : ustring -> ustring.
Variable d : fs.
Variable target : path.
Hypothesis Hwf : well_formed d = true.
Hypothesis Hsettled :
  settled soundfile kept_by_pathlib len_ms lazy_pinyin capitalize target d =
      true.

Lemma settled_entry (k : path) (e : entry) (x : name) (r : path) :
  In (k, e) d -> k = target ++ x :: r ->
  match e with
  | Dir => settled_dir lazy_pinyin capitalize (basename k) = true
  | File c => settled_file soundfile kept_by_pathlib len_ms k c = true
  end.
Proof.
  intros Hin Hk. pose proof Hsettled as H. unfold settled in H.
  rewrite forallb_forall in H. specialize (H _ Hin). cbn [fst snd] in H.
  rewrite Hk, strip_prefix_app in H. rewrite <- Hk in H.
  destruct e; exact H.
Qed.

(** What the walk hands to a loop body is settled. *)
Lemma walked_dir_settled (root : path) (dirs files : list name) (n : name) :
  is_under target root = true -> scandir d root = Some (dirs, files) ->
  In n dirs -> settled_dir lazy_pinyin capitalize n = true.
Proof.
  intros Hroot Hscan Hn. pose proof (scandir_dirs _ _ _ _ _ Hscan Hn) as Hin.
  apply is_under_true in Hroot as [r ->].
  destruct (r ++ [n]) as [|x r'] eqn:E; [now apply app_eq_nil in E as [_ E]|].
  pose proof (settled_entry _ Dir x r' Hin) as H. cbn in H.
  rewrite basename_snoc in H. apply H.
  now rewrite <- app_assoc, E.
Qed.

Lemma walked_file_settled (root : path) (dirs files : list name) (n : name) :
  is_under target root = true -> scandir d root = Some (dirs, files) ->
  In n files ->
  exists c, lookup d (root ++ [n]) = Some (File c)
            /\ settled_file soundfile kept_by_pathlib len_ms (root ++ [n]) c
               = true.
Proof.
  intros Hroot Hscan Hn.
  destruct (scandir_files _ _ _ _ _ Hscan Hn) as [c Hin].
  exists c. split.
  - apply In_lookup_distinct; [now apply well_formed_distinct | exact Hin].
  - apply is_under_true in Hroot as [r ->].
    destruct (r ++ [n]) as [|x r'] eqn:E; [now apply app_eq_nil in E as [_ E]|].
    pose proof (settled_entry _ (File c) x r' Hin) as H. cbn in H.
    apply H. now rewrite <- app_assoc, E.
Qed.

Lemma settled_remove_specific_folders :
  quiet d (remove_specific_folders target false) (fun _ => True).
Proof.
  unfold remove_specific_folders. apply quiet_try_except.
  apply (quiet_walk d target Hwf); [|exact I].
  intros root dirs files [] Hroot Hscan _. apply quiet_for_.
  intros n Hn.
  destruct (settled_dir_inv lazy_pinyin capitalize n
    (walked_dir_settled root dirs files n Hroot Hscan Hn)) as (H1 & _).
  rewrite H1. now apply quiet_ret.
Qed.

Lemma settled_process_audio_file (args : path * bool) :
  sound_clip soundfile kept_by_pathlib len_ms d args ->
  quiet d (process_audio_file soundfile kept_by_pathlib len_ms ratecv args)
    (fun _ => True).
Proof.
  destruct args as [p flag]. intros [Hflag (k & a & Hl & Hc & Hr & Hm & Hp)].
  cbn in Hflag, Hl, Hp. subst flag. intros o.
  destruct (convert_passes_over soundfile kept_by_pathlib ratecv
              (mkWorld d o) p k a false Hl Hc Hr Hp) as [o1 E].
  unfold process_audio_file, bind. rewrite E. cbn [fst disk].
  unfold get_audio_duration, try_except, AudioSegment_from_file, open_rb, bind,
    get_disk, ret. cbn [disk]. rewrite Hl.
  assert (Hlong : (millis len_ms a <? 1000)%Z = false)
    by (apply Z.ltb_ge; exact Hm).
  rewrite Hlong. eexists. eexists. split; [reflexivity | exact I].
Qed.

Lemma settled_collect :
  quiet d
    (walk true target
       (fun root (_ : list name) files audio_files =>
          for_each files
            (fun file audio_files =>
               if mem (lower (suffix file)) AUDIO_EXTENSIONS
               then ret (audio_files ++ [(os_path_join root file, false)])
               else ret audio_files)
            audio_files)
       [])
    (Forall (sound_clip soundfile kept_by_pathlib len_ms d)).
Proof.
  apply (quiet_walk d target Hwf); [|constructor].
  intros root dirs files s Hroot Hscan Hs.
  apply quiet_for_each; [|exact Hs].
  intros n s' Hn Hs'.
  destruct (walked_file_settled root dirs files n Hroot Hscan Hn)
    as (c & Hl & Hc).
  unfold settled_file in Hc. apply andb_true_iff in Hc as [_ Hc].
  rewrite basename_snoc in Hc.
  destruct (mem (lower (suffix n)) AUDIO_EXTENSIONS); apply quiet_ret;
    [|exact Hs'].
  apply Forall_app. split; [exact Hs'|]. constructor; [|constructor].
  destruct c as [k a|b]; [|discriminate].
  apply andb_true_iff in Hc as [Hc Hp]. apply andb_true_iff in Hc as [Hc Hm].
  apply andb_true_iff in Hc as [Hc Hr].
  apply Z.eqb_eq in Hc, Hr. apply Z.leb_le in Hm.
  rewrite (os_path_join_proper root n (well_formed_proper _ _ _ _ Hwf Hl)).
  split; [reflexivity|]. exists k, a. cbn [fst]. auto.
Qed.

Lemma settled_remove_short_audio_files :
  quiet d
    (remove_short_audio_files soundfile kept_by_pathlib len_ms ratecv
       target false)
    (fun _ => True).
Proof.
  unfold remove_short_audio_files.
  say.
  eapply quiet_bind; [apply settled_collect|].
  intros audio_files Hall.
  destruct audio_files as [|x rest]; [now apply quiet_print|].
  say.
  eapply quiet_bind with (Q := fun _ => True); [|intros; now apply quiet_print].
  apply quiet_for_each; [|exact I].
  intros args results Hin _.
  eapply quiet_bind with (Q := fun _ => True); [|intros; now apply quiet_ret].
  apply settled_process_audio_file.
  exact (proj1 (Forall_forall _ _) Hall args Hin).
Qed.

(** The pinyin pass proper: a name with a CJK character is only met
    where the pass skips it. *)
Lemma settled_pinyin_walk :
  quiet d
    (walk false target
       (fun root dirs (_ : list name) (_ : unit) =>
          for_ dirs
            (fun dir_name =>
               if has_chinese dir_name then
                 let old_path := os_path_join root dir_name in
                 new_name <- convert_to_pinyin lazy_pinyin capitalize dir_name ;;
                 match new_name with
                 | [] => print (Skipping dir_name)
                 | _ =>
                   let new_path := os_path_join root new_name in
                   if false then
                     print (PreviewRename dir_name new_name)
                   else
                     safe_rename old_path new_path ;; ret tt
                 end
               else ret tt))
       tt)
    (fun _ => True).
Proof.
  apply (quiet_walk d target Hwf); [|exact I].
  intros root dirs files [] Hroot Hscan _. apply quiet_for_.
  intros n Hn.
  destruct (settled_dir_inv lazy_pinyin capitalize n
    (walked_dir_settled root dirs files n Hroot Hscan Hn)) as (_ & H2 & _).
  destruct (has_chinese n); [|now apply quiet_ret].
  eapply quiet_bind; [apply quiet_convert_to_pinyin|].
  intros new_name ->. rewrite (H2 eq_refl). now apply quiet_print.
Qed.

Lemma settled_rename_folders_to_pinyin :
  quiet d
    (rename_folders_to_pinyin soundfile kept_by_pathlib len_ms ratecv
       lazy_pinyin capitalize target false)
    (fun _ => True).
Proof.
  unfold rename_folders_to_pinyin. apply quiet_try_except.
  eapply quiet_bind with (Q := fun _ => True);
    [apply quiet_os_path_exists|]. intros present _.
  destruct present; cbn [negb]; [|now apply quiet_print].
  say.
  then_ settled_remove_specific_folders.
  say.
  then_ settled_pinyin_walk.
  apply settled_remove_short_audio_files.
Qed.

Lemma settled_rename_speaker_folders :
  quiet d (rename_speaker_folders target false) (fun _ => True).
Proof.
  unfold rename_speaker_folders.
  say.
  apply quiet_try_except.
  apply (quiet_walk d target Hwf); [|exact I].
  intros root dirs files [] Hroot Hscan _. apply quiet_for_.
  intros n Hn.
  destruct (settled_dir_inv lazy_pinyin capitalize n
    (walked_dir_settled root dirs files n Hroot Hscan Hn))
    as (_ & _ & H3 & _).
  unfold strip_folder_suffix. rewrite H3. now apply quiet_ret.
Qed.

Lemma settled_rename_files_underscore_to_dash :
  quiet d (rename_files_underscore_to_dash target false) (fun _ => True).
Proof.
  unfold rename_files_underscore_to_dash.
  say.
  apply quiet_try_except.
  apply (quiet_walk d target Hwf); [|exact I].
  intros root dirs files [] Hroot Hscan _.
  eapply quiet_bind with (Q := fun _ => True).
  - apply quiet_for_. intros n Hn.
    destruct (walked_file_settled root dirs files n Hroot Hscan Hn)
      as (c & _ & Hc).
    unfold settled_file in Hc. apply andb_true_iff in Hc as [Hc _].
    rewrite basename_snoc in Hc.
    apply negb_true_iff in Hc. rewrite Hc. now apply quiet_ret.
  - intros _ _. apply quiet_for_. intros n Hn.
    destruct (settled_dir_inv lazy_pinyin capitalize n
      (walked_dir_settled root dirs files n Hroot Hscan Hn))
      as (_ & _ & _ & H4).
    rewrite H4. now apply quiet_ret.
Qed.

(** On a settled tree the whole pipeline returns normally and leaves the
    disk as it is. *)
Lemma settled_main :
  quiet d
    (main soundfile kept_by_pathlib len_ms ratecv lazy_pinyin capitalize
       target false)
    (fun _ => True).
Proof.
  unfold main.
  say.
  say.
  then_ settled_rename_folders_to_pinyin.
  then_ settled_rename_speaker_folders.
  then_ settled_rename_files_underscore_to_dash.
  now apply quiet_print.
Qed.

End Settled.

(* ================================================================= *)
(** ** The first of two runs *)

Lemma filter_all {A} (f : A -> bool) (l : list A) :
  (forall x, In x l -> f x = true) -> filter f l = l.
Proof.
  induction l as [|a l IH]; intros H; [reflexivity|]. cbn [filter].
  rewrite (H a) by now left. f_equal. apply IH. intros x Hx. apply H. now right.
Qed.

Lemma filter_twice {A} (f g : A -> bool) (l : list A) :
  filter f (filter g l) = filter (fun x => g x && f x) l.
Proof.
  induction l as [|a l IH]; [reflexivity|]. cbn [filter].
  destruct (g a); cbn [andb filter]; [destruct (f a)|]; congruence.
Qed.

Lemma fold_filter {A B} (g : B -> A -> bool) (ns : list B) (l : list A) :
  fold_left (fun l n => filter (g n) l) ns l
  = filter (fun x => forallb (fun n => g n x) ns) l.
Proof.
  revert l. induction ns as [|n ns IH]; intros l; cbn [fold_left forallb].
  - symmetry. now apply filter_all.
  - rewrite IH. apply filter_twice.
Qed.

Lemma depth_bound_filter (f : path * entry -> bool) (d : fs) :
  (depth_bound (filter f d) <= depth_bound d)%nat.
Proof.
  induction d as [|e d IH]; [reflexivity|]. cbn [filter].
  destruct (f e); unfold depth_bound in *; cbn [fold_right]; lia.
Qed.

Lemma lookup_filter_kept (f : path * entry -> bool) (d : fs) (q : path) :
  (forall e, f (q, e) = true) -> lookup (filter f d) q = lookup d q.
Proof.
  intros Hq. induction d as [|[k x] d IH]; [reflexivity|]. cbn [filter].
  destruct (f (k, x)) eqn:E.
  - now rewrite !lookup_cons, IH.
  - rewrite lookup_cons. destruct (peqb k q) eqn:Ek; [|exact IH].
    apply peqb_eq in Ek. subst k. now rewrite Hq in E.
Qed.

Lemma distinct_keys_filter (f : path * entry -> bool) (d : fs) :
  distinct_keys d = true -> distinct_keys (filter f d) = true.
Proof.
  induction d as [|[k x] d IH]; intros H; [reflexivity|].
  cbn [distinct_keys] in H. apply andb_true_iff in H as [Hk Hd].
  cbn [filter]. destruct (f (k, x)); [|now apply IH].
  cbn [distinct_keys]. apply andb_true_iff. split; [|now apply IH].
  apply negb_true_iff in Hk. apply negb_true_iff.
  destruct (existsb (peqb k) (keys (filter f d))) eqn:E; [|reflexivity].
  apply existsb_exists in E as (k' & Hin & Hk').
  rewrite <- Hk. symmetry. apply existsb_exists. exists k'. split; [|exact Hk'].
  unfold keys in *. apply in_map_iff in Hin as (e & He & Hin).
  apply filter_In in Hin as [Hin _]. apply in_map_iff. now exists e.
Qed.

(** Removing entries leaves a tree when it removes, with a directory,
    what the directory holds. *)
Lemma well_formed_filter (f : path * entry -> bool) (d : fs) :
  well_formed d = true ->
  (forall k x, In (k, x) d -> f (k, x) = true -> k <> [] ->
               f (removelast k, Dir) = true) ->
  well_formed (filter f d) = true.
Proof.
  intros Hwf Hf. pose proof (well_formed_distinct d Hwf) as Hnd.
  pose proof Hwf as H. unfold well_formed in H.
  apply andb_true_iff in H as [Hdk _].
  pose proof (distinct_keys_filter f d Hdk) as Hdk'.
  unfold well_formed. apply andb_true_iff. split; [exact Hdk'|].
  apply forallb_forall. intros k Hk. unfold keys in Hk.
  apply in_map_iff in Hk as ([k' x] & Ek & Hin). cbn in Ek. subst k'.
  apply filter_In in Hin as [Hin Hkept].
  pose proof (In_lookup_distinct d k x Hnd Hin) as Hl.
  destruct (well_formed_key d k x Hwf Hl) as [Hproper Hparent].
  apply andb_true_iff. split; [exact Hproper|].
  destruct k as [|c k']; [reflexivity|].
  unfold isdir in *.
  destruct (lookup d (removelast (c :: k'))) as [[?|]|] eqn:Ep;
    try discriminate.
  apply lookup_In in Ep.
  assert (Hin' : In (removelast (c :: k'), Dir) (filter f d)).
  { apply filter_In. split; [exact Ep|].
    apply (Hf (c :: k') x Hin Hkept). discriminate. }
  rewrite (In_lookup_distinct _ _ _ (distinct_keys_NoDup _ Hdk') Hin').
  reflexivity.
Qed.

Lemma denied_app (q r : path) : denied (q ++ r) = denied q || denied r.
Proof. unfold denied. apply existsb_app. Qed.

Lemma to_remove_parent (top k : path) (x : entry) :
  to_remove top (k, x) = false -> k <> [] ->
  to_remove top (removelast k, Dir) = false.
Proof.
  intros H Hk. unfold to_remove in *. cbn [fst snd] in *.
  destruct (strip_prefix top (removelast k)) as [r'|] eqn:E; [|reflexivity].
  apply strip_prefix_Some in E.
  assert (Ek : exists l, k = top ++ r' ++ [l]).
  { exists (last k []). rewrite app_assoc, <- E.
    now apply app_removelast_last. }
  destruct Ek as [l ->]. rewrite strip_prefix_app in H.
  destruct x.
  - now rewrite removelast_last in H.
  - rewrite denied_app in H. now apply orb_false_iff in H as [H _].
Qed.

Lemma well_formed_without_denied (top : path) (d : fs) :
  well_formed d = true -> well_formed (without_denied top d) = true.
Proof.
  intros Hwf. apply well_formed_filter; [exact Hwf|].
  intros k x _ Hkept Hk. apply negb_true_iff in Hkept. apply negb_true_iff.
  now apply (to_remove_parent top k x).
Qed.

(** On a tree, what lies above an entry is a directory. *)
Lemma well_formed_ancestor (d : fs) (top r : path) (e : entry) :
  well_formed d = true -> lookup d (top ++ r) = Some e -> r <> [] ->
  lookup d top = Some Dir.
Proof.
  intros Hwf. revert e. induction r as [|x r IH] using rev_ind;
    intros e Hl Hr; [congruence|].
  rewrite app_assoc in Hl.
  pose proof (well_formed_parent d _ x e Hwf Hl) as Hp. unfold isdir in Hp.
  destruct (lookup d (top ++ r)) as [[?|]|] eqn:E; try discriminate.
  destruct r as [|y r']; [now rewrite app_nil_r in E|].
  apply (IH Dir); [reflexivity | discriminate].
Qed.

Lemma scandir_Some (d : fs) (top : path) :
  lookup d top = Some Dir -> scandir d top <> None.
Proof. intros H. unfold scandir. now rewrite H. Qed.

Lemma dirs_scanned (d : fs) (top : path) (dirs files : list name) (n : name) :
  scandir d top = Some (dirs, files) -> In (top ++ [n], Dir) d -> In n dirs.
Proof.
  unfold scandir. destruct (lookup d top) as [[c|]|]; try discriminate.
  intros H Hin. injection H as <- _.
  apply in_map_iff. exists (n, Dir). split; [reflexivity|].
  apply filter_In. split; [now apply In_children | reflexivity].
Qed.

Lemma NoDup_map_filter {A B} (f : A -> B) (g : A -> bool) (l : list A) :
  NoDup (map f l) -> NoDup (map f (filter g l)).
Proof.
  induction l as [|a l IH]; intros H; [constructor|].
  cbn [map] in H. inversion H as [|? ? Ha Hl]; subst. cbn [filter].
  destruct (g a); [|now apply IH]. cbn [map]. constructor; [|now apply IH].
  intros Hin. apply Ha. apply in_map_iff in Hin as (b & Hb & Hin).
  apply filter_In in Hin as [Hin _]. apply in_map_iff. now exists b.
Qed.

Lemma scandir_dirs_NoDup (d : fs) (top : path) (dirs files : list name) :
  NoDup (keys d) -> scandir d top = Some (dirs, files) -> NoDup dirs.
Proof.
  intros Hnd. unfold scandir.
  destruct (lookup d top) as [[c|]|]; try discriminate.
  intros H. injection H as <- _. apply NoDup_map_filter.
  exact (listdir_NoDup d top Hnd).
Qed.

(** Where nothing is listed there is nothing to remove. *)
Lemma without_denied_nothing (d : fs) (top : path) :
  well_formed d = true -> scandir d top = None -> without_denied top d = d.
Proof.
  intros Hwf Hscan. apply filter_all. intros [k x] Hin.
  apply negb_true_iff. unfold to_remove. cbn [fst snd].
  destruct (strip_prefix top k) as [r|] eqn:E; [|reflexivity].
  apply strip_prefix_Some in E. subst k.
  destruct r as [|m r]; [now destruct x|].
  exfalso. apply (scandir_Some d top); [|exact Hscan].
  apply (well_formed_ancestor d top (m :: r) x Hwf); [|discriminate].
  apply In_lookup_distinct; [now apply well_formed_distinct | exact Hin].
Qed.

Lemma forallb_pick (l : list name) (m : name) (c : bool) :
  In m l -> forallb (fun n => negb (ueqb n m && c)) l = negb c.
Proof.
  intros Hm. destruct c; cbn [negb].
  - apply not_true_is_false. intros H. rewrite forallb_forall in H.
    specialize (H m Hm). now rewrite ueqb_refl in H.
  - apply forallb_forall. intros n _. now rewrite andb_false_r.
Qed.

Lemma forallb_skip (l : list name) (m : name) (c : bool) :
  ~ In m l -> forallb (fun n => negb (ueqb n m && c)) l = true.
Proof.
  intros Hm. apply forallb_forall. intros n Hn.
  destruct (ueqb n m) eqn:E; [|reflexivity].
  apply ueqb_eq in E. subst n. contradiction.
Qed.

Lemma to_remove_child (top : path) (n : name) (k : path) (x : entry) :
  to_remove (top ++ [n]) (k, x)
  = match strip_prefix top k with
    | Some (m :: r) =>
      ueqb n m && denied (match x with Dir => r | File _ => removelast r end)
    | _ => false
    end.
Proof.
  unfold to_remove. cbn [fst snd]. rewrite strip_prefix_snoc.
  destruct (strip_prefix top k) as [[|m r]|]; try reflexivity.
  now destruct (ueqb n m).
Qed.

Lemma is_under_child (top : path) (n : name) (k : path) :
  is_under (top ++ [n]) k
  = match strip_prefix top k with
    | Some (m :: r) => ueqb n m
    | _ => false
    end.
Proof.
  unfold is_under. rewrite strip_prefix_snoc.
  destruct (strip_prefix top k) as [[|m r]|]; try reflexivity.
  now destruct (ueqb n m).
Qed.

Lemma forallb_same {A} (f g : A -> bool) (l : list A) :
  (forall x, f x = g x) -> forallb f l = forallb g l.
Proof.
  intros H. induction l as [|a l IH]; [reflexivity|].
  cbn [forallb]. now rewrite H, IH.
Qed.

(** What goes with the folders found below the sub-directories of [top]
    and with the sub-directories that are themselves to be removed is
    what goes below [top]. *)
Lemma to_remove_split (d : fs) (top : path) (dirs files : list name)
    (e : path * entry) :
  well_formed d = true -> scandir d top = Some (dirs, files) -> In e d ->
  forallb (fun n : name => negb (to_remove (top ++ [n]) e)) dirs
  && forallb (fun n : name => negb (mem n FOLDERS_TO_REMOVE
                                    && is_under (top ++ [n]) (fst e))) dirs
  = negb (to_remove top e).
Proof.
  intros Hwf Hscan Hin. destruct e as [k x]. cbn [fst].
  pose proof (well_formed_distinct d Hwf) as Hnd.
  pose proof (In_lookup_distinct d k x Hnd Hin) as Hl.
  rewrite (forallb_same _ _ dirs
             (fun n => f_equal negb (to_remove_child top n k x))).
  rewrite (forallb_same _ _ dirs
             (fun n => f_equal (fun b => negb (mem n FOLDERS_TO_REMOVE && b))
                         (is_under_child top n k))).
  unfold to_remove. cbn [fst snd].
  destruct (strip_prefix top k) as [[|m r]|] eqn:E.
  - rewrite !(proj2 (forallb_forall _ _));
      [now destruct x | intros n _; now rewrite andb_false_r | reflexivity].
  - apply strip_prefix_Some in E. subst k.
    set (A := denied (match x with Dir => r | File _ => removelast r end)).
    rewrite (forallb_same
               (fun n : name => negb (mem n FOLDERS_TO_REMOVE && ueqb n m))
               (fun n : name => negb (ueqb n m && mem m FOLDERS_TO_REMOVE))
               dirs).
    2:{ intros n. destruct (ueqb n m) eqn:En.
        - apply ueqb_eq in En. subst n. now rewrite andb_true_r.
        - now rewrite andb_false_r. }
    destruct (mem m dirs) eqn:Em.
    + apply mem_In in Em. rewrite !forallb_pick by exact Em.
      assert (Hdir : lookup d (top ++ [m]) = Some Dir).
      { apply In_lookup_distinct; [exact Hnd|].
        exact (scandir_dirs _ _ _ _ _ Hscan Em). }
      subst A. destruct x as [c|].
      * destruct r as [|y r'].
        -- rewrite Hdir in Hl. discriminate.
        -- change (removelast (m :: y :: r')) with (m :: removelast (y :: r')).
           change (denied (m :: removelast (y :: r')))
             with (mem m FOLDERS_TO_REMOVE || denied (removelast (y :: r'))).
           now destruct (denied (removelast (y :: r'))),
                        (mem m FOLDERS_TO_REMOVE).
      * change (denied (m :: r)) with (mem m FOLDERS_TO_REMOVE || denied r).
        now destruct (denied r), (mem m FOLDERS_TO_REMOVE).
    + assert (Hm : ~ In m dirs).
      { intros H. apply mem_In in H. congruence. }
      rewrite !forallb_skip by exact Hm. cbn [andb].
      assert (Hnot : lookup d (top ++ [m]) <> Some Dir).
      { intros H. apply Hm. apply (dirs_scanned d top dirs files m Hscan).
        now apply lookup_In. }
      destruct r as [|y r'].
      * destruct x as [c|]; [reflexivity|]. contradiction.
      * exfalso. apply Hnot.
        apply (well_formed_ancestor d (top ++ [m]) (y :: r') x Hwf);
          [|discriminate].
        now rewrite <- app_assoc.
  - rewrite !(proj2 (forallb_forall _ _));
      [reflexivity | intros n _; now rewrite andb_false_r | reflexivity].
Qed.

Lemma safe_remove_folder_removes (p : path) (d : fs) (o : list msg) :
  lookup d p = Some Dir ->
  safe_remove_folder p false (mkWorld d o)
  = (Done true, mkWorld (remove_tree d p) (o ++ [RemovedFolder p])).
Proof.
  intros H.
  unfold safe_remove_folder, try_except, shutil_rmtree, bind, get_disk,
    set_disk, ret, print. cbn [disk out]. rewrite H. reflexivity.
Qed.

(** The loop of the deny-list pass over the sub-directories of [top],
    each of them still there when its turn comes. *)
Lemma deny_body_effect (top : path) (ns : list name) :
  NoDup ns -> (forall n, In n ns -> proper_name n = true) ->
  forall d o,
    (forall n, In n ns -> lookup d (top ++ [n]) = Some Dir) ->
    exists o',
      for_ ns
        (fun dir_name =>
           if mem dir_name FOLDERS_TO_REMOVE then
             let folder_path := os_path_join top dir_name in
             safe_remove_folder folder_path false ;; ret tt
           else ret tt) (mkWorld d o)
      = (Done tt,
         mkWorld
           (fold_left
              (fun d (n : name) =>
                 filter (fun e => negb (mem n FOLDERS_TO_REMOVE
                                        && is_under (top ++ [n]) (fst e))) d)
              ns d) o').
Proof.
  unfold for_. induction ns as [|n ns IH]; intros Hnd Hproper d o Hdirs.
  - exists o. reflexivity.
  - inversion Hnd as [|? ? Hn Hnd']; subst.
    cbn [for_each fold_left]. unfold bind at 1.
    destruct (mem n FOLDERS_TO_REMOVE) eqn:Em.
    + cbv zeta. rewrite (os_path_join_proper top n) by (apply Hproper; now left).
      unfold bind at 1.
      rewrite safe_remove_folder_removes by (apply Hdirs; now left).
      unfold ret at 1.
      apply IH; [exact Hnd' | intros m Hm; apply Hproper; now right |].
      intros m Hm.
      change (filter (fun e => negb (true && is_under (top ++ [n]) (fst e))) d)
        with (remove_tree d (top ++ [n])).
      rewrite lookup_remove_tree, is_under_siblings.
      destruct (ueqb n m) eqn:E; [|apply Hdirs; now right].
      apply ueqb_eq in E. subst m. contradiction.
    + unfold ret at 1.
      rewrite (filter_all (fun e => negb (false && is_under (top ++ [n]) (fst e))))
        by reflexivity.
      apply IH; [exact Hnd' | intros m Hm; apply Hproper; now right |].
      intros m Hm. apply Hdirs. now right.
Qed.

(** The walk of the deny-list pass from [top], on a tree: it comes to
    its end and leaves the tree without the folders to remove below
    [top]. *)
Lemma deny_walk (fuel : nat) :
  forall top d o,
    well_formed d = true ->
    (depth_bound d < length top + fuel)%nat ->
    exists o',
      os_walk fuel false top
        (fun root dirs (_ : list name) (_ : unit) =>
           for_ dirs
             (fun dir_name =>
                if mem dir_name FOLDERS_TO_REMOVE then
                  let folder_path := os_path_join root dir_name in
                  safe_remove_folder folder_path false ;; ret tt
                else ret tt))
        tt (mkWorld d o)
      = (Done tt, mkWorld (without_denied top d) o').
Proof.
  match goal with
  | |- forall top d o, _ -> _ -> exists o', os_walk _ _ _ ?b _ _ = _ =>
    set (body := b)
  end.
  induction fuel as [|f IH]; intros top d o Hwf Hfuel.
  - cbn [os_walk]. unfold bind, get_disk. cbn [disk].
    destruct (scandir d top) as [[dirs files]|] eqn:E.
    + apply scandir_listed, depth_bound_key in E. lia.
    + rewrite without_denied_nothing by assumption. now exists o.
  - cbn [os_walk]. unfold bind at 1, get_disk. cbn [disk].
    destruct (scandir d top) as [[dirs files]|] eqn:E.
    2:{ rewrite without_denied_nothing by assumption. now exists o. }
    pose proof (well_formed_distinct d Hwf) as Hnd.
    assert (Hproper : forall n, In n dirs -> proper_name n = true).
    { intros n Hn. pose proof (scandir_dirs _ _ _ _ _ E Hn) as Hin.
      apply (well_formed_proper d top n Dir Hwf).
      now apply In_lookup_distinct. }
    assert (Hdesc : forall ns d1 o1,
      well_formed d1 = true -> (depth_bound d1 <= depth_bound d)%nat ->
      (forall n, In n ns -> proper_name n = true) ->
      exists o',
        for_each ns
          (fun dirname s => os_walk f false (os_path_join top dirname) body s)
          tt (mkWorld d1 o1)
        = (Done tt,
           mkWorld (fold_left (fun d (n : name) => without_denied (top ++ [n]) d)
                      ns d1) o')).
    { induction ns as [|n ns IHns]; intros d1 o1 Hwf1 Hd1 Hp.
      - now exists o1.
      - cbn [for_each fold_left]. unfold bind at 1.
        rewrite (os_path_join_proper top n) by (apply Hp; now left).
        destruct (IH (top ++ [n]) d1 o1 Hwf1) as [o2 E2].
        { rewrite length_app. cbn [length]. lia. }
        rewrite E2. apply IHns.
        + now apply well_formed_without_denied.
        + unfold without_denied.
          pose proof (depth_bound_filter
                        (fun e => negb (to_remove (top ++ [n]) e)) d1). lia.
        + intros m Hm. apply Hp. now right. }
    destruct (Hdesc dirs d o Hwf (le_n _) Hproper) as [o2 E2].
    unfold bind at 1. rewrite E2. unfold body at 1.
    set (d1 := fold_left (fun d (n : name) => without_denied (top ++ [n]) d)
                 dirs d) in *.
    assert (Ed1 : d1 = filter
      (fun e => forallb (fun n : name => negb (to_remove (top ++ [n]) e)) dirs) d).
    { unfold d1, without_denied.
      exact (fold_filter (fun (n : name) e => negb (to_remove (top ++ [n]) e))
               dirs d). }
    destruct (deny_body_effect top dirs
                (scandir_dirs_NoDup d top dirs files Hnd E) Hproper d1 o2)
      as [o3 E3].
    { intros n Hn. rewrite Ed1, lookup_filter_kept.
      - apply In_lookup_distinct; [exact Hnd|].
        exact (scandir_dirs _ _ _ _ _ E Hn).
      - intros e. apply forallb_forall. intros m _.
        rewrite to_remove_child, strip_prefix_app.
        destruct e; cbn; now rewrite andb_false_r. }
    exists o3. etransitivity; [exact E3|]. f_equal. f_equal.
    rewrite (fold_filter
               (fun (n : name) e => negb (mem n FOLDERS_TO_REMOVE
                                          && is_under (top ++ [n]) (fst e)))
               dirs d1).
    rewrite Ed1, filter_twice. unfold without_denied.
    apply filter_ext_in. intros e He.
    exact (to_remove_split d top dirs files e Hwf E He).
Qed.

Lemma takes_of_quiet {A} (d : fs) (m : M A) (Q : A -> Prop) :
  quiet d m Q -> takes d m d.
Proof. intros H o. destruct (H o) as (a & o' & E & _). now exists a, o'. Qed.

Lemma takes_bind {A B} (d d1 d2 : fs) (m : M A) (k : A -> M B) :
  takes d m d1 -> (forall a, takes d1 (k a) d2) -> takes d (bind m k) d2.
Proof.
  intros Hm Hk o. destruct (Hm o) as (a & o1 & E).
  destruct (Hk a o1) as (b & o2 & E2).
  exists b, o2. unfold bind. now rewrite E.
Qed.

Lemma takes_try_except {A} (d d' : fs) (m : M A) (h : exn -> M A) :
  takes d m d' -> takes d (try_except m h) d'.
Proof.
  intros Hm o. destruct (Hm o) as (a & o1 & E).
  exists a, o1. unfold try_except. now rewrite E.
Qed.

Lemma takes_print (d : fs) (m : msg) : takes d (print m) d.
Proof. intros o. now exists tt, (o ++ [m]). Qed.

Lemma takes_walk {St} (d d' : fs) (topdown : bool) (top : path)
    (body : path -> list name -> list name -> St -> M St) (s : St) :
  (forall o, exists s' o',
     os_walk (S (depth_bound d)) topdown top body s (mkWorld d o)
     = (Done s', mkWorld d' o')) ->
  takes d (walk topdown top body s) d'.
Proof.
  intros H o. unfold walk, bind, get_disk. cbn [disk]. exact (H o).
Qed.

(** The deny-list pass on a tree, in execute mode. *)
Lemma remove_specific_folders_takes (target : path) (d : fs) :
  well_formed d = true ->
  takes d (remove_specific_folders target false) (without_denied target d).
Proof.
  intros Hwf. unfold remove_specific_folders.
  apply takes_try_except, takes_walk. intros o.
  destruct (deny_walk (S (depth_bound d)) target d o Hwf ltac:(lia)) as [o' E].
  exists tt, o'. exact E.
Qed.

Lemma takes_bind_quiet {A B} (d d2 : fs) (m : M A) (k : A -> M B)
    (Q : A -> Prop) :
  quiet d m Q -> (forall a, Q a -> takes d (k a) d2) -> takes d (bind m k) d2.
Proof.
  intros Hm Hk o. destruct (Hm o) as (a & o1 & E & Ha).
  destruct (Hk a Ha o1) as (b & o2 & E2).
  exists b, o2. unfold bind. now rewrite E.
Qed.

Lemma quiet_os_path_exists_value (d : fs) (p : path) :
  quiet d (os_path_exists p) (fun present => present = exists_ d p).
Proof. intros o. now exists (exists_ d p), o. Qed.

Section FirstRun.

Variable soundfile : container -> bool.
Variable kept_by_pathlib : path -> bool.
Variable len_ms : Z -> Z -> Z.
Variable ratecv : audio -> Z -> Z.
Variable lazy_pinyin : ustring -> option (list ustring).
Variable capitalize : ustring -> ustring.
Variable d : fs.
Variable target : path.
Hypothesis Hwf : well_formed d = true.
Hypothesis Hsettled :
  settled soundfile kept_by_pathlib len_ms lazy_pinyin capitalize target
    (without_denied target d) = true.

(** A run that has only folders of FOLDERS_TO_REMOVE to remove. *)
Lemma first_run_takes :
  takes d
    (main soundfile kept_by_pathlib len_ms ratecv lazy_pinyin capitalize
       target false)
    (without_denied target d).
Proof.
  pose proof (well_formed_without_denied target d Hwf) as Hwf1.
  set (d1 := without_denied target d) in *.
  unfold main.
  apply takes_bind with (d1 := d); [apply takes_print|]. intros _.
  apply takes_bind with (d1 := d); [apply takes_print|]. intros _.
  apply takes_bind with (d1 := d1).
  - unfold rename_folders_to_pinyin. apply takes_try_except.
    eapply takes_bind_quiet; [apply quiet_os_path_exists_value|].
    intros present ->. unfold exists_.
    destruct (lookup d target) as [e|] eqn:El; cbn [negb].
    + apply takes_bind with (d1 := d); [apply takes_print|]. intros _.
      apply takes_bind with (d1 := d1);
        [now apply remove_specific_folders_takes|]. intros _.
      apply takes_bind with (d1 := d1); [apply takes_print|]. intros _.
      apply takes_bind with (d1 := d1).
      * exact (takes_of_quiet _ _ _
                 (settled_pinyin_walk soundfile kept_by_pathlib len_ms
                    lazy_pinyin capitalize d1 target Hwf1 Hsettled)).
      * intros _.
        exact (takes_of_quiet _ _ _
                 (settled_remove_short_audio_files soundfile kept_by_pathlib
                    len_ms ratecv lazy_pinyin capitalize d1 target Hwf1
                    Hsettled)).
    + assert (E : d1 = d).
      { apply without_denied_nothing; [exact Hwf|].
        unfold scandir. now rewrite El. }
      rewrite E. apply takes_print.
  - intros _.
    apply takes_bind with (d1 := d1).
    + exact (takes_of_quiet _ _ _
               (settled_rename_speaker_folders soundfile kept_by_pathlib len_ms
                  lazy_pinyin capitalize d1 target Hwf1 Hsettled)).
    + intros _. apply takes_bind with (d1 := d1); [|intros _; apply takes_print].
      exact (takes_of_quiet _ _ _
               (settled_rename_files_underscore_to_dash soundfile
                  kept_by_pathlib len_ms lazy_pinyin capitalize d1 target
                  Hwf1 Hsettled)).
Qed.

End FirstRun.



(* ================================================================= *)
(** ** More on the name functions *)

Lemma clean_after_chars (s : ustring) :
  clean_after s = true ->
  Forall (fun c => is_ascii_alnum c = true \/ c = 32) s.
Proof.
  induction s as [|c r IH]; intros H; [constructor|].
  cbn [clean_after] in H. destruct (is_ascii_alnum c) eqn:Ea.
  - constructor; [now left | now apply IH].
  - destruct (c =? 32) eqn:E32; [|discriminate].
    apply N.eqb_eq in E32. destruct r as [|d r']; [discriminate|].
    apply andb_true_iff in H as [_ H].
    constructor; [now right | now apply IH].
Qed.

Lemma join_split_length (t cur : ustring) :
  (length (join (str " ") (split_ws cur t)) <= length cur + length t)%nat.
Proof.
  revert cur; induction t as [|c r IH]; intros cur.
  - simpl. destruct cur; simpl; lia.
  - rewrite split_ws_cons. destruct (is_space c).
    + specialize (IH []). cbn [length] in *.
      destruct cur as [|x cur']; [simpl in *; lia|].
      destruct (split_ws [] r) as [|t1 ts] eqn:E.
      * simpl. lia.
      * change (join (str " ") ((x :: cur') :: t1 :: ts))
          with ((x :: cur') ++ str " " ++ join (str " ") (t1 :: ts)).
        rewrite !length_app. cbn [length str] in *. simpl in *. lia.
    + specialize (IH (cur ++ [c])). rewrite length_app in IH.
      cbn [length] in *. lia.
Qed.

Lemma clean_name_no_chinese (s : ustring) : has_chinese (clean_name s) = false.
Proof.
  pose proof (clean_name_already_clean s) as Hc.
  destruct (clean_name s) as [|c r]; [reflexivity|].
  unfold already_clean in Hc. apply andb_true_iff in Hc as [_ Hc].
  apply clean_after_chars in Hc. unfold has_chinese.
  destruct (existsb (in_range 19968 40959) (c :: r)) eqn:E; [|reflexivity].
  apply existsb_exists in E as (x & Hx & Hr).
  apply (proj1 (Forall_forall _ _) Hc) in Hx.
  destruct Hx as [Hx|Hx]; code_points; lia.
Qed.

(** X1.  Whatever the text, the sanitized name is clean (ASCII letters
    and digits, single blanks between tokens, none at the ends), holds no
    CJK character, and is not longer than the text. *)
Theorem clean_name_sanitized (s : ustring) :
  already_clean (clean_name s) = true
  /\ has_chinese (clean_name s) = false
  /\ (length (clean_name s) <= length s)%nat.
Proof.
  split; [apply clean_name_already_clean|].
  split; [apply clean_name_no_chinese|].
  unfold clean_name, split.
  pose proof (join_split_length
                (filter (fun c => is_ascii_alnum c || is_space c) s) []) as H.
  pose proof (filter_length_le (fun c => is_ascii_alnum c || is_space c) s).
  simpl in H. lia.
Qed.

Lemma split_ws_nil (t cur : ustring) :
  split_ws cur t = [] <-> cur = [] /\ forallb is_space t = true.
Proof.
  revert cur; induction t as [|c r IH]; intros cur.
  - simpl. destruct cur; split; try tauto; try discriminate.
    intros [H _]. discriminate.
  - rewrite split_ws_cons. cbn [forallb]. destruct (is_space c).
    + destruct cur as [|x cur'].
      * rewrite IH. tauto.
      * split; [discriminate | intros [H _]; discriminate].
    + rewrite IH. split.
      * intros [H _]. destruct cur; discriminate.
      * intros [_ H]. discriminate.
Qed.

(** X2.  The sanitized name is empty exactly when the text has no ASCII
    letter or digit: the case the pinyin pass skips. *)
Theorem clean_name_empty_iff (s : ustring) :
  clean_name s = [] <-> existsb is_ascii_alnum s = false.
Proof.
  unfold clean_name, split.
  set (keep := fun c => is_ascii_alnum c || is_space c).
  assert (Htok : Forall token (split_ws [] (filter keep s))).
  { apply split_ws_tokens; [|constructor].
    apply Forall_forall. intros c Hc. apply filter_In in Hc. tauto. }
  assert (Hjoin : join (str " ") (split_ws [] (filter keep s)) = []
                  <-> split_ws [] (filter keep s) = []).
  { split; [|intros ->; reflexivity].
    intros H. destruct (split_ws [] (filter keep s)) as [|t ts] eqn:E;
      [reflexivity|].
    destruct (join_tokens_clean (t :: ts) Htok) as (d & r & Ej & _);
      [discriminate | congruence]. }
  rewrite Hjoin, split_ws_nil. split.
  - intros [_ H]. destruct (existsb is_ascii_alnum s) eqn:E; [|reflexivity].
    apply existsb_exists in E as (c & Hc & Ha).
    rewrite forallb_forall in H.
    assert (Hin : In c (filter keep s)).
    { apply filter_In. split; [exact Hc|]. unfold keep. now rewrite Ha. }
    apply H in Hin. now rewrite (alnum_not_space c Ha) in Hin.
  - intros H. split; [reflexivity|]. apply forallb_forall. intros c Hc.
    apply filter_In in Hc as [Hc Hk]. unfold keep in Hk.
    destruct (is_ascii_alnum c) eqn:Ea; [|exact Hk].
    assert (existsb is_ascii_alnum s = true); [|congruence].
    apply existsb_exists. now exists c.
Qed.

Lemma digits_then_newline (ds : ustring) :
  ds <> [] -> forallb is_digit ds = true -> digits_to_end (ds ++ [10]) = true.
Proof.
  induction ds as [|c r IH]; intros Hne H; [congruence|].
  simpl in H. apply andb_true_iff in H as [Hc Hr].
  cbn [app digits_to_end]. rewrite Hc. cbn [andb].
  destruct r as [|d r']; [reflexivity|].
  rewrite IH; [reflexivity | discriminate | exact Hr].
Qed.

Lemma numeric_suffix_newline_matches (x : ustring) :
  numeric_suffix x = true -> match_here (x ++ [10]) = true.
Proof.
  destruct x as [|c r]; [discriminate|].
  unfold numeric_suffix. cbn [app match_here]. destruct (is_sep c) eqn:Es.
  - intros H. apply andb_true_iff in H as [Hne Hr].
    rewrite digits_then_newline; [reflexivity| |exact Hr].
    intros ->. discriminate.
  - intros H.
    pose proof (digits_then_newline (c :: r) ltac:(discriminate) H) as D.
    cbn [app] in D. rewrite D. apply orb_true_r.
Qed.

(** X3.  The pattern's [$] also matches just before a newline that ends
    the name: a directory name made of a numeric suffix followed by one
    newline is matched too, and the base name loses the suffix and the
    newline. *)
Theorem stripped_name_before_newline (b x : ustring) :
  numeric_suffix x = true ->
  exists base removed,
    stripped_name (b ++ x ++ [10]) = Some base
    /\ b ++ x ++ [10] = base ++ removed
    /\ (length base <= length b)%nat.
Proof.
  intros Hx.
  assert (Hm : match_here (skipn (length b) (b ++ x ++ [10])) = true).
  { rewrite skipn_app, skipn_all, Nat.sub_diag. simpl.
    now apply numeric_suffix_newline_matches. }
  destruct (search_from_least _ O (length b) Hm) as (j & Hs & Hle & _).
  exists (firstn j (b ++ x ++ [10])), (skipn j (b ++ x ++ [10])).
  unfold stripped_name, pattern_search. rewrite Hs. simpl.
  split; [reflexivity|]. split; [now rewrite firstn_skipn|].
  rewrite length_firstn. lia.
Qed.

Lemma stripped_name_before_newline_witness :
  exists base removed,
    stripped_name (str "Lisa" ++ str "_2" ++ [10]) = Some base
    /\ str "Lisa" ++ str "_2" ++ [10] = base ++ removed
    /\ (length base <= length (str "Lisa"))%nat.
Proof.
  apply (stripped_name_before_newline (str "Lisa") (str "_2")). reflexivity.
Defined.

Lemma last_skipn {A} (l : list A) (k : nat) (d : A) :
  skipn k l <> [] -> last (skipn k l) d = last l d.
Proof.
  intros H. rewrite <- (firstn_skipn k l) at 2.
  symmetry. now apply last_app_r.
Qed.

(** X4.  A directory name that ends neither in a digit nor in a newline
    is never matched: the suffix-removal pass leaves it alone. *)
Theorem name_without_suffix_not_matched (dir_name : ustring) :
  is_digit (last dir_name 0) = false ->
  last dir_name 0 <> 10 ->
  stripped_name dir_name = None.
Proof.
  intros Hd Hn. unfold stripped_name.
  destruct (pattern_search dir_name) as [start|] eqn:E; [|reflexivity].
  exfalso. apply search_from_matches in E as [_ Hm].
  rewrite Nat.sub_0_r in Hm.
  assert (Hne : skipn start dir_name <> []).
  { intros H0. rewrite H0 in Hm. discriminate. }
  destruct (match_here_inv _ Hm) as [Hs|Hl].
  - apply numeric_suffix_last_digit in Hs.
    rewrite (last_skipn dir_name start 0 Hne) in Hs. congruence.
  - rewrite (last_skipn dir_name start 0 Hne) in Hl. contradiction.
Qed.

Lemma name_without_suffix_not_matched_witness :
  stripped_name (str "Paimon2nd") = None.
Proof.
  apply name_without_suffix_not_matched; [reflexivity | discriminate].
Defined.

(** X5.  The underscore-to-dash pass computes the new name by turning
    every underscore into a dash and changing nothing else; the new name
    has the same length and no underscore. *)
Theorem underscores_become_dashes (n : ustring) :
  replace (str "_") (str "-") n = map (fun c => if c =? 95 then 45 else c) n
  /\ length (replace (str "_") (str "-") n) = length n
  /\ contains 95 (replace (str "_") (str "-") n) = false.
Proof.
  assert (H : replace (str "_") (str "-") n
              = map (fun c => if c =? 95 then 45 else c) n).
  { unfold replace. change (str "_") with [95]. change (str "-") with [45].
    induction n as [|c r IH]; [reflexivity|].
    cbn [replace_from startswith length Nat.sub map].
    rewrite N.eqb_sym. destruct (c =? 95) eqn:E; cbn [andb app]; now rewrite IH. }
  rewrite H. split; [reflexivity|]. split; [apply length_map|].
  unfold contains. clear H. induction n as [|c r IH]; [reflexivity|].
  cbn [map existsb]. rewrite IH, orb_false_r.
  destruct (c =? 95) eqn:E; [reflexivity|].
  rewrite N.eqb_sym. exact E.
Qed.

(* ================================================================= *)
(** ** The renaming primitive *)

Lemma decimal_fuel_acc (fuel : nat) (n : N) (acc : ustring) :
  decimal_fuel fuel n acc = decimal_fuel fuel n [] ++ acc.
Proof.
  revert n acc; induction fuel as [|f IH]; intros n acc; [reflexivity|].
  cbn [decimal_fuel]. destruct (n <? 10); [reflexivity|].
  rewrite IH, (IH _ [_]), <- app_assoc. reflexivity.
Qed.

Lemma decimal_fuel_value (fuel : nat) (n : N) :
  (N.to_nat n < fuel)%nat ->
  digits_value (rev (decimal_fuel fuel n [])) = n.
Proof.
  revert n; induction fuel as [|f IH]; intros n H; [lia|].
  cbn [decimal_fuel]. destruct (n <? 10) eqn:E.
  - apply N.ltb_lt in E. cbn [rev app digits_value].
    rewrite (N.mod_small n 10 E).
    rewrite N.mul_0_r, N.add_0_r, N.add_comm. apply N.add_sub.
  - apply N.ltb_ge in E. rewrite decimal_fuel_acc, rev_app_distr.
    cbn [rev app digits_value].
    assert (Hlt : n / 10 < n) by (apply N.div_lt; lia).
    rewrite IH by lia.
    rewrite (N.add_comm 48), N.add_sub, N.add_comm.
    symmetry. apply N.div_mod. discriminate.
Qed.

Lemma decimal_inj (a b : N) : decimal a = decimal b -> a = b.
Proof.
  intros H. unfold decimal in H.
  rewrite <- (decimal_fuel_value (S (N.to_nat a)) a) by lia.
  rewrite <- (decimal_fuel_value (S (N.to_nat b)) b) by lia.
  now rewrite H.
Qed.

Lemma candidate_inj (base_path : path) (a b : N) :
  candidate base_path a = candidate base_path b -> a = b.
Proof.
  unfold candidate. destruct (splitext (basename base_path)) as [stem ext].
  intros H. apply app_inv_head in H. injection H as H.
  apply app_inv_head in H. change (str "_") with [95] in H.
  cbn [app] in H. injection H as H. apply app_inv_tail in H.
  now apply decimal_inj.
Qed.

Lemma candidate_dir (base_path : path) (c : N) :
  removelast (candidate base_path c) = removelast base_path.
Proof.
  unfold candidate. destruct (splitext (basename base_path)) as [stem ext].
  apply removelast_last.
Qed.

Lemma free_path_step (fuel : nat) (base_path new_path : path) (counter : N)
    (w : world) :
  free_path fuel base_path new_path counter w
  = if exists_ (disk w) new_path
    then match fuel with
         | O => (OutOfFuel, w)
         | S f => free_path f base_path (candidate base_path counter)
                    (counter + 1) w
         end
    else (Done new_path, w).
Proof.
  destruct fuel; cbn [free_path];
    unfold os_path_exists, bind, get_disk, ret, out_of_fuel, candidate;
    cbv beta iota; destruct (exists_ (disk w) new_path); try reflexivity.
  now destruct (splitext (basename base_path)).
Qed.

(** When the loop gives up, the first path and every numbered one it
    tried are taken. *)
Lemma free_path_gives_up (fuel : nat) (base_path new_path : path) (counter : N)
    (w w' : world) :
  free_path fuel base_path new_path counter w = (OutOfFuel, w') ->
  forall i, (i < fuel)%nat ->
    exists_ (disk w) (candidate base_path (counter + N.of_nat i)) = true.
Proof.
  revert new_path counter; induction fuel as [|f IH];
    intros new_path counter H i Hi; [lia|].
  rewrite free_path_step in H.
  destruct (exists_ (disk w) new_path); [|discriminate].
  destruct i as [|j].
  - rewrite N.add_0_r. rewrite free_path_step in H.
    destruct (exists_ (disk w) (candidate base_path counter));
      [reflexivity | discriminate].
  - replace (counter + N.of_nat (S j)) with (counter + 1 + N.of_nat j) by lia.
    apply (IH _ _ H). lia.
Qed.

Lemma free_path_never_raises (fuel : nat) (base_path new_path : path)
    (counter : N) (w w' : world) (e : exn) :
  free_path fuel base_path new_path counter w <> (Raised e, w').
Proof.
  revert new_path counter; induction fuel as [|f IH]; intros new_path counter;
    rewrite free_path_step; destruct (exists_ (disk w) new_path);
    try discriminate. apply IH.
Qed.

Lemma free_path_same_dir (fuel : nat) (base_path new_path : path) (counter : N)
    (w w' : world) (p : path) :
  removelast new_path = removelast base_path ->
  free_path fuel base_path new_path counter w = (Done p, w') ->
  removelast p = removelast base_path.
Proof.
  revert new_path counter; induction fuel as [|f IH];
    intros new_path counter Hd H; rewrite free_path_step in H;
    destruct (exists_ (disk w) new_path); try discriminate;
    try (injection H as <- _; exact Hd).
  apply (IH _ _ (candidate_dir base_path counter) H).
Qed.

Lemma NoDup_map_inj {A B} (f : A -> B) (l : list A) :
  (forall x y, f x = f y -> x = y) -> NoDup l -> NoDup (map f l).
Proof.
  intros Hf. induction 1 as [|x l Hx Hl IH]; [constructor|].
  simpl. constructor; [|exact IH].
  intros Hin. apply in_map_iff in Hin as (y & Hy & Hin).
  apply Hf in Hy. now subst y.
Qed.

(** The loop of safe_rename finds a free path before its fuel, one more
    than the number of entries on the disk, is spent. *)
Lemma free_path_found (base_path : path) (w : world) :
  exists p,
    free_path (S (length (disk w))) base_path base_path 1 w = (Done p, w).
Proof.
  destruct (free_path (S (length (disk w))) base_path base_path 1 w)
    as [[p| e |] w'] eqn:E.
  - destruct (free_path_is_free _ _ _ _ _ _ _ E) as [-> _]. now exists p.
  - exfalso. exact (free_path_never_raises _ _ _ _ _ _ _ E).
  - exfalso.
    pose proof (free_path_gives_up _ _ _ _ _ _ E) as Htaken.
    set (tried := map (fun i => candidate base_path (1 + N.of_nat i))
                      (seq 0 (S (length (disk w))))).
    assert (Hnd : NoDup tried).
    { apply NoDup_map_inj; [|apply seq_NoDup].
      intros x y H. apply candidate_inj in H. lia. }
    assert (Hincl : incl tried (keys (disk w))).
    { intros q Hq. apply in_map_iff in Hq as (i & <- & Hi).
      apply in_seq in Hi. specialize (Htaken i ltac:(lia)).
      unfold exists_ in Htaken.
      destruct (lookup (disk w) (candidate base_path (1 + N.of_nat i)))
        as [x|] eqn:El; [|discriminate].
      apply lookup_In in El. apply in_map_iff.
      now exists (candidate base_path (1 + N.of_nat i), x). }
    pose proof (NoDup_incl_length Hnd Hincl) as Hlen.
    unfold tried, keys in Hlen. rewrite !length_map, length_seq in Hlen. lia.
Qed.

(** X6.  The loop of safe_rename over the numbered names always comes
    to an end, on any disk and for any path: there are more names to try
    than entries on the disk.  It prints nothing and changes nothing, and
    the path it ends on does not exist and lies in the directory of
    [new_path]. *)
Theorem safe_rename_loop_ends (new_path : path) (w : world) :
  exists p,
    free_path (S (length (disk w))) new_path new_path 1 w = (Done p, w)
    /\ lookup (disk w) p = None
    /\ removelast p = removelast new_path.
Proof.
  destruct (free_path_found new_path w) as [p Ep]. exists p.
  split; [exact Ep|]. split.
  - destruct (free_path_is_free _ _ _ _ _ _ _ Ep) as [_ H].
    unfold exists_ in H. now destruct (lookup (disk w) p).
  - exact (free_path_same_dir _ _ _ _ _ _ _ eq_refl Ep).
Qed.

(** X7.  On a well-formed disk safe_rename never overwrites.  When it
    answers [True] for two different paths, the tree at [old_path] now
    sits at a path of the directory of [new_path] that was free before,
    and every entry outside [old_path] is as it was; when it answers
    [False] the disk is unchanged. *)
Theorem safe_rename_never_overwrites (old_path new_path : path) (b : bool)
    (w w' : world) :
  well_formed (disk w) = true ->
  safe_rename old_path new_path w = (Done b, w') ->
  if b then
    (old_path = new_path /\ disk w' = disk w)
    \/ exists p,
         lookup (disk w) p = None
         /\ removelast p = removelast new_path
         /\ forall q,
              lookup (disk w') q
              = match strip_prefix p q with
                | Some r => lookup (disk w) (old_path ++ r)
                | None => if is_under old_path q then None else lookup (disk w) q
                end
  else disk w' = disk w.
Proof.
  intros Hwf. unfold safe_rename, try_except.
  destruct (peqb old_path new_path) eqn:Eon.
  { intros H. injection H as <- <-. left. now apply peqb_eq in Eon. }
  unfold bind at 1. unfold get_disk. cbv beta iota. unfold bind at 1.
  destruct (free_path_found new_path w) as [p Ep]. rewrite Ep.
  destruct (free_path_is_free _ _ _ _ _ _ _ Ep) as [_ Hfree].
  pose proof (free_path_same_dir _ _ _ _ _ _ _ eq_refl Ep) as Hdir.
  assert (Hp : lookup (disk w) p = None).
  { unfold exists_ in Hfree. now destruct (lookup (disk w) p). }
  unfold bind at 1. unfold os_rename, bind, get_disk. cbv beta iota.
  destruct (lookup (disk w) old_path) as [o|] eqn:Eold.
  2:{ unfold raise, print, ret. cbn. intros H. injection H as <- <-.
      reflexivity. }
  destruct (peqb old_path p) eqn:Eop.
  { apply peqb_eq in Eop. subst p. congruence. }
  destruct (isdir (disk w) (removelast p)); cbn [negb].
  2:{ unfold raise, print, ret. cbn. intros H. injection H as <- <-.
      reflexivity. }
  destruct (is_under old_path p).
  { unfold raise, print, ret. cbn. intros H. injection H as <- <-.
    reflexivity. }
  rewrite Hp. unfold set_disk, print, ret. cbn.
  intros H. injection H as <- <-. right. exists p. cbn [disk].
  split; [exact Hp|]. split; [exact Hdir|].
  intros q. apply lookup_move_tree.
  now apply well_formed_free.
Qed.

Lemma safe_rename_never_overwrites_witness :
  let d := [ ([], Dir); (P ["data"], Dir);
             (P ["data"; "a_b.txt"], File (Blob [1]));
             (P ["data"; "a-b.txt"], File (Blob [2])) ] in
  let old_path := P ["data"; "a_b.txt"] in
  let new_path := P ["data"; "a-b.txt"] in
  let w' := snd (safe_rename old_path new_path (mkWorld d [])) in
  (old_path = new_path /\ disk w' = d)
  \/ exists p,
       lookup d p = None
       /\ removelast p = removelast new_path
       /\ forall q,
            lookup (disk w') q
            = match strip_prefix p q with
              | Some r => lookup d (old_path ++ r)
              | None => if is_under old_path q then None else lookup d q
              end.
Proof.
  intros d old_path new_path w'.
  exact (safe_rename_never_overwrites old_path new_path true
           (mkWorld d []) w' eq_refl eq_refl).
Defined.

(* ================================================================= *)
(** ** What the passes keep *)

Section Keeps.

Context {R : fs -> fs -> Prop}.
Hypothesis R_order :
  (forall d, R d d) /\ (forall a b c, R a b -> R b c -> R a c).

Lemma keeps_of_preserves {A} (m : M A) : preserves_disk m -> keeps R m.
Proof. intros H w. rewrite H. apply (proj1 R_order). Qed.

Lemma keeps_bind_returns {A B} (m : M A) (k : A -> M B) (Q : A -> Prop) :
  keeps R m -> returns m Q -> (forall a, Q a -> keeps R (k a)) ->
  keeps R (bind m k).
Proof.
  intros Hm Hr Hk w. unfold bind. specialize (Hm w).
  destruct (m w) as [[a| |] w'] eqn:E; cbn [snd] in *; try exact Hm.
  eapply (proj2 R_order); [exact Hm|]. apply Hk. eapply Hr. exact E.
Qed.

Lemma keeps_bind {A B} (m : M A) (k : A -> M B) :
  keeps R m -> (forall a, keeps R (k a)) -> keeps R (bind m k).
Proof.
  intros Hm Hk. apply keeps_bind_returns with (Q := fun _ => True); auto.
  intros w a w' _. exact I.
Qed.

Lemma keeps_try_except {A} (m : M A) (h : exn -> M A) :
  keeps R m -> (forall e, keeps R (h e)) -> keeps R (try_except m h).
Proof.
  intros Hm Hh w. unfold try_except. specialize (Hm w).
  destruct (m w) as [[a|e|] w']; cbn [snd] in *; try exact Hm.
  eapply (proj2 R_order); [exact Hm | apply Hh].
Qed.

Lemma keeps_for_each_in {A St} (xs : list A) (f : A -> St -> M St) (s : St) :
  (forall x s, In x xs -> keeps R (f x s)) -> keeps R (for_each xs f s).
Proof.
  revert s. induction xs as [|x xs IH]; intros s Hf; cbn [for_each].
  - apply keeps_of_preserves, preserves_ret.
  - apply keeps_bind; [apply Hf; now left|].
    intros s'. apply IH. intros y s2 Hy. apply Hf. now right.
Qed.

Lemma keeps_for_each {A St} (xs : list A) (f : A -> St -> M St) (s : St) :
  (forall x s, keeps R (f x s)) -> keeps R (for_each xs f s).
Proof. intros Hf. apply keeps_for_each_in. intros; apply Hf. Qed.

Lemma keeps_for_ {A} (xs : list A) (f : A -> M unit) :
  (forall x, keeps R (f x)) -> keeps R (for_ xs f).
Proof. intros Hf. apply keeps_for_each. intros x _. apply Hf. Qed.

Lemma keeps_os_walk {St} (fuel : nat) (topdown : bool) (top : path)
    (body : path -> list name -> list name -> St -> M St) (s : St) :
  (forall root dirs files s, keeps R (body root dirs files s)) ->
  keeps R (os_walk fuel topdown top body s).
Proof.
  intros Hb. revert top s. induction fuel as [|f IH]; intros top s;
    cbn [os_walk]; (apply keeps_bind;
      [apply keeps_of_preserves, preserves_get_disk|]);
    intros d; destruct (scandir d top) as [[dirs files]|];
    try (apply keeps_of_preserves; first
           [apply preserves_ret | apply preserves_out_of_fuel]).
  destruct topdown; apply keeps_bind;
    try apply Hb; try (apply keeps_for_each; intros; apply IH);
    intros; try apply Hb; apply keeps_for_each; intros; apply IH.
Qed.

Lemma keeps_walk {St} (topdown : bool) (top : path)
    (body : path -> list name -> list name -> St -> M St) (s : St) :
  (forall root dirs files s, keeps R (body root dirs files s)) ->
  keeps R (walk topdown top body s).
Proof.
  intros Hb. unfold walk.
  apply keeps_bind; [apply keeps_of_preserves, preserves_get_disk|].
  intros d. now apply keeps_os_walk.
Qed.

End Keeps.

(** Walk through a computation, leaving the steps that write. *)
Ltac keep_going order :=
  repeat (intros; first
    [ solve [apply (keeps_of_preserves order); auto with frame]
    | solve [auto]
    | match goal with
      | |- keeps _ (bind _ _) => apply (keeps_bind order)
      | |- keeps _ (try_except _ _) => apply (keeps_try_except order)
      | |- keeps _ (for_each _ _ _) => apply (keeps_for_each order)
      | |- keeps _ (for_ _ _) => apply (keeps_for_ order)
      | |- keeps _ (walk _ _ _ _) => apply (keeps_walk order)
      | |- keeps _ (if ?b then _ else _) => destruct b
      | |- keeps _ (match ?x with _ => _ end) => destruct x
      end ]).

Lemma lookup_app_one (d : fs) (p q : path) (e : entry) :
  lookup (d ++ [(p, e)]) q
  = match lookup d q with
    | Some x => Some x
    | None => if peqb p q then Some e else None
    end.
Proof.
  induction d as [|[k x] d IH]; cbn [app].
  - rewrite lookup_cons, !lookup_nil. reflexivity.
  - rewrite !lookup_cons. now destruct (peqb k q).
Qed.

Lemma peqb_sym (p q : path) : peqb p q = peqb q p.
Proof.
  destruct (peqb p q) eqn:E.
  - apply peqb_eq in E. subst. now rewrite peqb_refl.
  - symmetry. apply peqb_neq. apply peqb_neq in E. congruence.
Qed.

Lemma lookup_overwrite (d : fs) (p q : path) (c : content) :
  lookup (map (fun e => if peqb (fst e) p then (p, File c) else e) d) q
  = if peqb q p
    then match lookup d p with Some _ => Some (File c) | None => None end
    else lookup d q.
Proof.
  induction d as [|[k x] d IH]; cbn [map fst].
  - rewrite !lookup_nil. now destruct (peqb q p).
  - destruct (peqb k p) eqn:Ekp.
    + apply peqb_eq in Ekp. subst k. rewrite !lookup_cons, IH, peqb_refl.
      rewrite (peqb_sym p q). now destruct (peqb q p).
    + rewrite !lookup_cons, IH, Ekp.
      destruct (peqb q p) eqn:Eqp; [|reflexivity].
      apply peqb_eq in Eqp. subst q. now rewrite Ekp.
Qed.

Lemma lookup_put_file (d : fs) (p q : path) (c : content) :
  lookup (put_file d p c) q
  = if peqb q p then Some (File c) else lookup d q.
Proof.
  unfold put_file, exists_. destruct (lookup d p) as [e|] eqn:Ep.
  - rewrite lookup_overwrite, Ep. reflexivity.
  - rewrite lookup_app_one, (peqb_sym q p).
    destruct (peqb p q) eqn:E; [|now destruct (lookup d q)].
    apply peqb_eq in E. subst q. now rewrite Ep.
Qed.

(** *** Directories *)

Lemma same_dirs_order :
  (forall d, same_dirs d d)
  /\ (forall a b c, same_dirs a b -> same_dirs b c -> same_dirs a c).
Proof.
  split; [intros d q; reflexivity|].
  intros a b c H1 H2 q. now rewrite H2, H1.
Qed.

Lemma os_remove_same_dirs (p : path) : keeps same_dirs (os_remove p).
Proof.
  intros w q. unfold os_remove, bind, get_disk, set_disk, raise. cbn.
  destruct (lookup (disk w) p) as [[c|]|] eqn:E; cbn; try reflexivity.
  unfold isdir. rewrite lookup_remove_path.
  destruct (peqb q p) eqn:Eq; [|reflexivity].
  apply peqb_eq in Eq. subst q. now rewrite E.
Qed.

Lemma write_file_same_dirs (p : path) (c : content) :
  keeps same_dirs (write_file p c).
Proof.
  intros w q. unfold write_file, bind, get_disk, set_disk, raise. cbn.
  destruct (isdir (disk w) p) eqn:E; cbn; [reflexivity|].
  destruct (isdir (disk w) (removelast p)); cbn; [|reflexivity].
  unfold isdir in *. rewrite lookup_put_file.
  destruct (peqb q p) eqn:Eq; [|reflexivity].
  apply peqb_eq in Eq. subst q. now rewrite E.
Qed.

Section AudioPassKeeps.

Variable soundfile : container -> bool.
Variable kept_by_pathlib : path -> bool.
Variable len_ms : Z -> Z -> Z.
Variable ratecv : audio -> Z -> Z.

Lemma process_audio_file_same_dirs (args : path * bool) :
  keeps same_dirs (process_audio_file soundfile kept_by_pathlib len_ms ratecv
      args).
Proof.
  destruct args as [p dry_run].
  pose proof os_remove_same_dirs. pose proof write_file_same_dirs.
  unfold process_audio_file, convert_audio_format, convert_wav_with_soundfile,
    convert_with_pydub, get_audio_duration, sf_write, export_wav.
  keep_going same_dirs_order.
Qed.

(** X8.  The audio pass never adds, removes or replaces a directory, in
    either mode: the same paths are directories before and after. *)
Theorem audio_pass_keeps_directories (target : path) (dry_run : bool)
    (w : world) (q : path) :
  isdir (disk (snd (remove_short_audio_files soundfile kept_by_pathlib len_ms
      ratecv target dry_run w))) q
  = isdir (disk w) q.
Proof.
  revert w q.
  change (keeps same_dirs (remove_short_audio_files soundfile kept_by_pathlib
      len_ms ratecv target dry_run)).
  pose proof process_audio_file_same_dirs.
  unfold remove_short_audio_files.
  keep_going same_dirs_order.
Qed.

End AudioPassKeeps.

(** *** The paths a worker of the audio pass touches *)

Lemma returns_bind_end {A B} (m : M A) (k : A -> M B) (R : B -> Prop) :
  (forall a, returns (k a) R) -> returns (bind m k) R.
Proof.
  intros Hk. apply returns_bind with (Q := fun _ => True);
    [intros w a w' _; exact I | intros a _; apply Hk].
Qed.

Lemma returns_try_except {A} (m : M A) (h : exn -> M A) (Q : A -> Prop) :
  returns m Q -> (forall e, returns (h e) Q) -> returns (try_except m h) Q.
Proof.
  intros Hm Hh w a w' E. unfold try_except in E.
  destruct (m w) as [[a0|e|] w1] eqn:Em.
  - injection E as <- <-. eapply Hm. exact Em.
  - eapply Hh. exact E.
  - discriminate.
Qed.

Lemma returns_raise {A} (e : exn) (Q : A -> Prop) : returns (@raise A e) Q.
Proof. intros w a w' E. discriminate. Qed.

(** Follow a computation to the values it returns. *)
Ltac returned :=
  repeat (intros; first
    [ apply returns_raise
    | apply returns_ret; cbn [fst snd]; solve [auto]
    | apply returns_bind_end
    | apply returns_try_except
    | match goal with
      | |- returns (if ?b then _ else _) _ => destruct b
      | |- returns (match ?x with _ => _ end) _ => destruct x
      end ]).

Lemma same_outside_order (S : path -> Prop) :
  (forall d, same_outside S d d)
  /\ (forall a b c, same_outside S a b -> same_outside S b c ->
                    same_outside S a c).
Proof.
  split; [intros d q _; reflexivity|].
  intros a b c H1 H2 q Hq. now rewrite H2, H1.
Qed.

Lemma os_remove_outside (S : path -> Prop) (p : path) :
  S p -> keeps (same_outside S) (os_remove p).
Proof.
  intros Hp w q Hq. unfold os_remove, bind, get_disk, set_disk, raise. cbn.
  destruct (lookup (disk w) p) as [[c|]|]; cbn; try reflexivity.
  rewrite lookup_remove_path.
  destruct (peqb q p) eqn:E; [|reflexivity].
  apply peqb_eq in E. now subst q.
Qed.

Lemma write_file_outside (S : path -> Prop) (p : path) (c : content) :
  S p -> keeps (same_outside S) (write_file p c).
Proof.
  intros Hp w q Hq. unfold write_file, bind, get_disk, set_disk, raise. cbn.
  destruct (isdir (disk w) p); cbn; [reflexivity|].
  destruct (isdir (disk w) (removelast p)); cbn; [|reflexivity].
  rewrite lookup_put_file.
  destruct (peqb q p) eqn:E; [|reflexivity].
  apply peqb_eq in E. now subst q.
Qed.

Section Worker.

Variable soundfile : container -> bool.
Variable kept_by_pathlib : path -> bool.
Variable len_ms : Z -> Z -> Z.
Variable ratecv : audio -> Z -> Z.

(** convert_audio_format returns the path it was given or that path with
    the extension [.wav]. *)
Lemma convert_returns_own_path (p : path) (dry_run : bool) :
  returns (convert_audio_format soundfile kept_by_pathlib ratecv p dry_run)
    (fun r => fst r = p \/ fst r = with_suffix p (str ".wav")).
Proof.
  unfold convert_audio_format.
  apply returns_try_except; [|returned].
  apply returns_bind_end. intros present.
  destruct (negb present); [returned|].
  apply returns_bind
    with (Q := fun o => match o with Some r => fst r = p | None => True end).
  - destruct (path_lower_endswith (str ".wav") p); [|now apply returns_ret].
    apply returns_try_except; [|returned].
    apply returns_bind with (Q := fun r => fst r = p);
      [|intros r Hr; now apply returns_ret].
    unfold convert_wav_with_soundfile. returned.
  - intros [r|] Hr; [apply returns_ret; now left|].
    unfold convert_with_pydub. returned.
Qed.

Lemma convert_outside (p : path) (dry_run : bool) :
  keeps (same_outside (own_paths p)) (convert_audio_format soundfile
      kept_by_pathlib ratecv p dry_run).
Proof.
  assert (H1 : forall c, keeps (same_outside (own_paths p)) (write_file p c)).
  { intros c. apply write_file_outside. now left. }
  assert (H2 : forall c, keeps (same_outside (own_paths p))
                           (write_file (with_suffix p (str ".wav")) c)).
  { intros c. apply write_file_outside. right. now left. }
  assert (H3 : keeps (same_outside (own_paths p)) (os_remove p)).
  { apply os_remove_outside. now left. }
  unfold convert_audio_format, convert_wav_with_soundfile, convert_with_pydub,
    sf_write, export_wav.
  keep_going (same_outside_order (own_paths p)).
Qed.

Lemma process_audio_file_outside (p : path) (dry_run : bool) :
  keeps (same_outside (own_paths p)) (process_audio_file soundfile
      kept_by_pathlib len_ms ratecv (p, dry_run)).
Proof.
  unfold process_audio_file.
  eapply (keeps_bind_returns (same_outside_order (own_paths p)));
    [apply convert_outside | apply convert_returns_own_path|].
  intros r Hr.
  assert (H1 : keeps (same_outside (own_paths p)) (os_remove (fst r))).
  { apply os_remove_outside. unfold own_paths. destruct Hr as [-> | ->]; auto. }
  assert (H2 : keeps (same_outside (own_paths p))
                 (os_remove (path_replace (str ".wav") (str ".lab") (fst r)))).
  { apply os_remove_outside. unfold own_paths.
    destruct Hr as [-> | ->]; auto. }
  unfold get_audio_duration.
  keep_going (same_outside_order (own_paths p)).
Qed.

(** X9.  The work on one audio file changes nothing on the disk but the
    file itself, the file of the same name with the extension [.wav], and
    the [.lab] paths computed from those two: workers on files with
    different such paths do not interfere. *)
Theorem process_audio_file_touches_own_paths (p : path) (dry_run : bool)
    (w : world) (q : path) :
  ~ own_paths p q ->
  lookup (disk (snd (process_audio_file soundfile kept_by_pathlib len_ms ratecv
      (p, dry_run) w))) q
  = lookup (disk w) q.
Proof. apply process_audio_file_outside. Qed.

End Worker.

Lemma process_audio_file_touches_own_paths_witness :
  let d := [ ([], Dir); (P ["data"], Dir);
             (P ["data"; "a.mp3"], File (Sound MP3 (mkAudio 2 22050 300)));
             (P ["data"; "b.wav"], File (Sound WAV (mkAudio 1 44100 300))) ] in
  lookup (disk (snd (process_audio_file soundfile_all spelled_plainly
                       len_ms_nearest ratecv_floor
                       (P ["data"; "a.mp3"], false) (mkWorld d []))))
         (P ["data"; "b.wav"])
  = Some (File (Sound WAV (mkAudio 1 44100 300))).
Proof.
  intros d.
  rewrite (process_audio_file_touches_own_paths soundfile_all spelled_plainly
             len_ms_nearest ratecv_floor
             (P ["data"; "a.mp3"]) false (mkWorld d []) (P ["data"; "b.wav"])).
  - reflexivity.
  - unfold own_paths. vm_compute. intros [H|[H|[H|H]]]; discriminate.
Defined.

(* ================================================================= *)
(** ** Exceptions stay inside the passes *)

Lemma no_raise_ret {A} (a : A) : no_raise (ret a).
Proof. intros w e. discriminate. Qed.

Lemma no_raise_print (m : msg) : no_raise (print m).
Proof. intros w e. discriminate. Qed.

Lemma no_raise_get_disk : no_raise get_disk.
Proof. intros w e. discriminate. Qed.

Lemma no_raise_out_of_fuel {A} : no_raise (@out_of_fuel A).
Proof. intros w e. discriminate. Qed.

Lemma no_raise_os_path_exists (p : path) : no_raise (os_path_exists p).
Proof. intros w e. discriminate. Qed.

Lemma no_raise_bind {A B} (m : M A) (k : A -> M B) :
  no_raise m -> (forall a, no_raise (k a)) -> no_raise (bind m k).
Proof.
  intros Hm Hk w e. unfold bind. specialize (Hm w).
  destruct (m w) as [[a|e'|] w']; cbn [fst] in *.
  - apply Hk.
  - now specialize (Hm e').
  - discriminate.
Qed.

(** A handler that returns makes the whole [try] return. *)
Lemma no_raise_try_except {A} (m : M A) (h : exn -> M A) :
  (forall e, no_raise (h e)) -> no_raise (try_except m h).
Proof.
  intros Hh w e. unfold try_except.
  destruct (m w) as [[a|e'|] w']; cbn [fst]; try discriminate. apply Hh.
Qed.

Lemma no_raise_for_each {A St} (xs : list A) (f : A -> St -> M St) (s : St) :
  (forall x s, no_raise (f x s)) -> no_raise (for_each xs f s).
Proof.
  intros Hf. revert s. induction xs as [|x xs IH]; intros s; cbn [for_each].
  - apply no_raise_ret.
  - apply no_raise_bind; [apply Hf | apply IH].
Qed.

Lemma no_raise_for_ {A} (xs : list A) (f : A -> M unit) :
  (forall x, no_raise (f x)) -> no_raise (for_ xs f).
Proof. intros Hf. apply no_raise_for_each. intros x _. apply Hf. Qed.

Lemma no_raise_os_walk {St} (fuel : nat) (topdown : bool) (top : path)
    (body : path -> list name -> list name -> St -> M St) (s : St) :
  (forall root dirs files s, no_raise (body root dirs files s)) ->
  no_raise (os_walk fuel topdown top body s).
Proof.
  intros Hb. revert top s. induction fuel as [|f IH]; intros top s;
    cbn [os_walk]; (apply no_raise_bind; [apply no_raise_get_disk|]);
    intros d; destruct (scandir d top) as [[dirs files]|];
    try apply no_raise_ret; try apply no_raise_out_of_fuel.
  destruct topdown; apply no_raise_bind;
    try apply Hb; try (apply no_raise_for_each; intros; apply IH);
    intros; try apply Hb; apply no_raise_for_each; intros; apply IH.
Qed.

Lemma no_raise_walk {St} (topdown : bool) (top : path)
    (body : path -> list name -> list name -> St -> M St) (s : St) :
  (forall root dirs files s, no_raise (body root dirs files s)) ->
  no_raise (walk topdown top body s).
Proof.
  intros Hb. unfold walk. apply no_raise_bind; [apply no_raise_get_disk|].
  intros d. now apply no_raise_os_walk.
Qed.

(** Walk through a computation whose [try] blocks catch everything. *)
Ltac caught :=
  repeat (intros; first
    [ apply no_raise_ret
    | apply no_raise_print
    | apply no_raise_os_path_exists
    | solve [auto]
    | match goal with
      | |- no_raise (try_except _ _) => apply no_raise_try_except
      | |- no_raise (bind _ _) => apply no_raise_bind
      | |- no_raise (for_each _ _ _) => apply no_raise_for_each
      | |- no_raise (for_ _ _) => apply no_raise_for_
      | |- no_raise (walk _ _ _ _) => apply no_raise_walk
      | |- no_raise (if ?b then _ else _) => destruct b
      | |- no_raise (match ?x with _ => _ end) => destruct x
      end ]).

Section Caught.

Variable soundfile : container -> bool.
Variable kept_by_pathlib : path -> bool.
Variable len_ms : Z -> Z -> Z.
Variable ratecv : audio -> Z -> Z.
Variable lazy_pinyin : ustring -> option (list ustring).
Variable capitalize : ustring -> ustring.

Lemma safe_remove_folder_caught (p : path) (dry_run : bool) :
  no_raise (safe_remove_folder p dry_run).
Proof. unfold safe_remove_folder. caught. Qed.

Lemma safe_rename_caught (old_path new_path : path) :
  no_raise (safe_rename old_path new_path).
Proof. unfold safe_rename. caught. Qed.

Lemma process_audio_file_caught (args : path * bool) :
  no_raise (process_audio_file soundfile kept_by_pathlib len_ms ratecv args).
Proof.
  destruct args as [p dry_run].
  unfold process_audio_file, convert_audio_format, get_audio_duration. caught.
Qed.

Lemma remove_short_audio_files_caught (target : path) (dry_run : bool) :
  no_raise (remove_short_audio_files soundfile kept_by_pathlib len_ms ratecv
      target dry_run).
Proof.
  pose proof process_audio_file_caught.
  unfold remove_short_audio_files. caught.
Qed.

Lemma run_pass_caught (target : path) (dry_run : bool) (p : pass) :
  no_raise (run_pass soundfile kept_by_pathlib len_ms ratecv lazy_pinyin
      capitalize target dry_run p).
Proof.
  pose proof remove_short_audio_files_caught.
  destruct p; cbn [run_pass];
    unfold remove_specific_folders, rename_folders_to_pinyin,
      rename_speaker_folders, rename_files_underscore_to_dash;
    caught.
Qed.

End Caught.

(* ================================================================= *)
(** ** The helpers of the passes, one by one *)

Lemma endswith_app (s t : ustring) : endswith t (s ++ t) = true.
Proof.
  unfold endswith. rewrite length_app. apply andb_true_iff. split.
  - apply Nat.leb_le. lia.
  - replace (length s + length t - length t)%nat with (length s) by lia.
    rewrite skipn_app, skipn_all, Nat.sub_diag. cbn [skipn app].
    apply ueqb_refl.
Qed.

Lemma with_suffix_wav_endswith (p : path) :
  path_lower_endswith (str ".wav") (with_suffix p (str ".wav")) = true.
Proof.
  unfold with_suffix, on_basename, path_lower_endswith.
  destruct (removelast p ++ [_]) eqn:E; [now apply app_eq_nil in E as [_ E]|].
  rewrite <- E, basename_snoc.
  destruct (suffix (basename p)); unfold lower; rewrite map_app;
    apply endswith_app.
Qed.

Lemma with_suffix_dir (p : path) (x : name) :
  removelast (with_suffix p x) = removelast p.
Proof. unfold with_suffix, on_basename. apply removelast_last. Qed.

Lemma audio_eta (a : audio) :
  mkAudio (channels a) (frame_rate a) (frames a) = a.
Proof. now destruct a. Qed.

Lemma get_audio_duration_probe_missing (len_ms : Z -> Z -> Z) (p : path)
    (w : world) :
  lookup (disk w) p = None ->
  get_audio_duration len_ms p w
  = (Done 0%Z, mkWorld (disk w) (out w ++ [ErrorDuration p FileNotFoundError])).
Proof.
  intros H. destruct w as [d o]. cbn [disk out] in *.
  unfold get_audio_duration, try_except, AudioSegment_from_file, open_rb,
    bind, get_disk, ret, raise, print. cbn [disk out]. now rewrite H.
Qed.

Section Conversion.

Variable soundfile : container -> bool.
Variable kept_by_pathlib : path -> bool.
Variable len_ms : Z -> Z -> Z.
Variable ratecv : audio -> Z -> Z.

(** X13.  In execute mode a decodable file whose name does not end in
    [.wav] is exported next to itself as a single-channel 44100 Hz WAV
    file and then removed; nothing else changes.  The new file has the
    frames of the clip, and so its length, when the clip is at 44100 Hz
    already; otherwise it has the frames that audioop.ratecv makes of
    the single-channel clip, whose length can fall short of the clip's.
    The directory of the file must exist and the [.wav] path must not be
    a directory. *)
Theorem other_container_becomes_wav (w : world) (p : path) (k : container)
    (a : audio) :
  lookup (disk w) p = Some (File (Sound k a)) ->
  (1 <= channels a)%Z ->
  path_lower_endswith (str ".wav") p = false ->
  isdir (disk w) (removelast p) = true ->
  isdir (disk w) (with_suffix p (str ".wav")) = false ->
  let new_path := with_suffix p (str ".wav") in
  let new_frames :=
    if (frame_rate a =? 44100)%Z then frames a
    else ratecv (mkAudio 1 (frame_rate a) (frames a)) 44100 in
  let r := convert_audio_format soundfile kept_by_pathlib ratecv p false w in
  fst r = Done (new_path, true)
  /\ lookup (disk (snd r)) new_path
     = Some (File (Sound WAV (mkAudio 1 44100 new_frames)))
  /\ lookup (disk (snd r)) p = None
  /\ forall q, q <> p -> q <> new_path ->
               lookup (disk (snd r)) q = lookup (disk w) q.
Proof.
  intros Hl Hc Hext Hparent Hnodir. cbv zeta.
  set (new_path := with_suffix p (str ".wav")) in *.
  set (r := convert_audio_format soundfile kept_by_pathlib ratecv p false w).
  assert (Hparent' : isdir (disk w) (removelast new_path) = true).
  { unfold new_path. now rewrite with_suffix_dir. }
  assert (Hne : peqb p new_path = false).
  { apply peqb_neq. intros E.
    pose proof (with_suffix_wav_endswith p) as H.
    fold new_path in H. rewrite <- E in H. congruence. }
  assert (Hne' : peqb new_path p = false) by now rewrite peqb_sym.
  set (new_frames :=
         if (frame_rate a =? 44100)%Z then frames a
         else ratecv (mkAudio 1 (frame_rate a) (frames a)) 44100).
  assert (Hrun : exists o,
    r = (Done (new_path, true),
         mkWorld (remove_path
                    (put_file (disk w) new_path
                       (Sound WAV (mkAudio 1 44100 new_frames))) p) o)).
  { subst r new_frames. destruct w as [d o]. destruct a as [c0 r0 m0].
    cbn [disk channels frame_rate frames] in *.
    assert (Hfile : forall c,
              lookup (put_file d new_path c) p
              = Some (File (Sound k (mkAudio c0 r0 m0)))).
    { intros c. now rewrite lookup_put_file, Hne. }
    unfold convert_audio_format, try_except, bind, os_path_exists, get_disk, ret.
    cbn. rewrite (lookup_exists _ _ _ Hl). cbn. rewrite Hext.
    unfold convert_with_pydub, AudioSegment_from_file, open_rb, bind, get_disk,
      ret, print, export_wav, write_file, os_remove, set_disk, raise,
      set_frame_rate, set_channels.
    cbn. rewrite Hl. cbn. fold new_path. rewrite Hne, andb_false_r.
    destruct (1 <? c0)%Z eqn:E1; destruct (r0 =? 44100)%Z eqn:E2;
      [ apply Z.eqb_eq in E2; subst r0
      | 
      | apply Z.ltb_ge in E1; assert (c0 = 1%Z) by lia; subst c0;
        apply Z.eqb_eq in E2; subst r0
      | apply Z.ltb_ge in E1; assert (c0 = 1%Z) by lia; subst c0 ];
      repeat progress
        (cbn; rewrite ?Hne, ?Hnodir, ?Hparent', ?Hfile, ?E1, ?E2);
      eexists; reflexivity. }
  destruct Hrun as [o ->]. cbn [fst snd disk].
  split; [reflexivity|]. split; [|split].
  - now rewrite lookup_remove_path, Hne', lookup_put_file, peqb_refl.
  - now rewrite lookup_remove_path, peqb_refl.
  - intros q Hq Hq'. apply peqb_neq in Hq, Hq'.
    now rewrite lookup_remove_path, Hq, lookup_put_file, Hq'.
Qed.


(** X15.  In preview mode a decodable file whose name does not end in
    [.wav] is always reported as a short clip to remove, however long it
    is: the duration is probed at the [.wav] path, which preview mode did
    not create, and the probe answers [0]. *)
Theorem preview_reports_unconverted_clip (w : world) (p : path)
    (k : container) (a : audio) :
  lookup (disk w) p = Some (File (Sound k a)) ->
  path_lower_endswith (str ".wav") p = false ->
  lookup (disk w) (with_suffix p (str ".wav")) = None ->
  let new_path := with_suffix p (str ".wav") in
  let r := process_audio_file soundfile kept_by_pathlib len_ms ratecv (p, true)
      w in
  fst r = Done (new_path, true)
  /\ disk (snd r) = disk w
  /\ In (PreviewRemoveShort new_path 0) (out (snd r)).
Proof.
  intros Hl Hext Hnew. cbv zeta.
  set (new_path := with_suffix p (str ".wav")) in *.
  set (r := process_audio_file soundfile kept_by_pathlib len_ms ratecv (p, true)
      w).
  assert (Hne : peqb p new_path = false).
  { apply peqb_neq. intros E. rewrite <- E in Hnew. congruence. }
  assert (Hconv : exists o,
    convert_audio_format soundfile kept_by_pathlib ratecv p true w
    = (Done (new_path, true), mkWorld (disk w) o)).
  { destruct w as [d o]. cbn [disk] in *.
    unfold convert_audio_format, try_except, bind, os_path_exists, get_disk, ret.
    cbn. rewrite (lookup_exists _ _ _ Hl). cbn. rewrite Hext.
    unfold convert_with_pydub, AudioSegment_from_file, open_rb, bind, get_disk,
      ret, print. cbn. rewrite Hl. cbn. fold new_path.
    rewrite Hne, andb_false_r.
    destruct (1 <? channels a)%Z; cbn;
      destruct (frame_rate a =? 44100)%Z; cbn;
      eexists; reflexivity. }
  destruct Hconv as [o Hconv]. subst r.
  unfold process_audio_file, bind. rewrite Hconv. cbn [fst].
  rewrite get_audio_duration_probe_missing by exact Hnew.
  cbn. split; [reflexivity|]. split; [reflexivity|].
  rewrite !in_app_iff. simpl. tauto.
Qed.

End Conversion.

Lemma other_container_becomes_wav_witness :
  let w := mkWorld Scenario.mp3_tree [] in
  let r := convert_audio_format soundfile_all spelled_plainly ratecv_floor (P
      ["data"; "a.mp3"]) false w in
  fst r = Done (P ["data"; "a.wav"], true)
  /\ lookup (disk (snd r)) (P ["data"; "a.wav"])
     = Some (File (Sound WAV Scenario.long_clip))
  /\ lookup (disk (snd r)) (P ["data"; "a.mp3"]) = None.
Proof.
  intros w r.
  destruct (other_container_becomes_wav soundfile_all spelled_plainly
              ratecv_floor w (P ["data"; "a.mp3"])
              MP3 Scenario.long_clip eq_refl ltac:(cbn; lia) eq_refl eq_refl
              eq_refl) as (H1 & H2 & H3 & _).
  repeat split; assumption.
Defined.


(** With a [len(audio)] that rounds to the nearest millisecond, a clip
    of 7996 frames at 8000 Hz is one second long; resampled it has 44077
    frames, which is 999 ms, and the audio pass removes it. *)
Lemma resampled_clip_falls_short :
  millis len_ms_nearest (mkAudio 1 8000 7996) = 1000%Z
  /\ millis len_ms_nearest (mkAudio 1 44100 44077) = 999%Z
  /\ disk_after
       (process_audio_file soundfile_all spelled_plainly len_ms_nearest
          ratecv_floor (P ["data"; "e.wav"], false))
       [ ([], Dir); (P ["data"], Dir);
         (P ["data"; "e.wav"], File (Sound WAV (mkAudio 1 8000 7996))) ]
     = [ ([], Dir); (P ["data"], Dir) ].
Proof. repeat split; vm_compute; reflexivity. Qed.

Lemma preview_reports_unconverted_clip_witness :
  let w := mkWorld Scenario.mp3_tree [] in
  let r := process_audio_file soundfile_all spelled_plainly len_ms_nearest
      ratecv_floor (P ["data"; "a.mp3"], true) w in
  fst r = Done (P ["data"; "a.wav"], true)
  /\ disk (snd r) = Scenario.mp3_tree
  /\ In (PreviewRemoveShort (P ["data"; "a.wav"]) 0) (out (snd r)).
Proof.
  intros w r.
  exact (preview_reports_unconverted_clip soundfile_all spelled_plainly
           len_ms_nearest ratecv_floor w (P ["data"; "a.mp3"])
           MP3 Scenario.long_clip eq_refl eq_refl eq_refl).
Defined.

(** Rewrite with [H] where the goal has its left side up to conversion. *)
Ltac rewrite_conv H :=
  match type of H with
  | ?l = _ =>
    match goal with
    | |- context [?x] =>
      lazymatch type of x with
      | Prop => fail
      | _ => unify x l; change x with l; rewrite H
      end
    end
  end.

(** X16.  The loop body of the suffix-removal pass, in execute mode, on
    a directory whose base name is free in its parent: the directory is
    renamed to the base name; its tree is found there, nothing is left
    at the old path, and every other entry is as it was. *)
Theorem suffix_stripped_when_base_free (w : world) (root : path)
    (dir_name : name) (start : nat) (e : entry) :
  well_formed (disk w) = true ->
  pattern_search dir_name = Some start ->
  lookup (disk w) (root ++ [dir_name]) = Some e ->
  proper_name (firstn start dir_name) = true ->
  lookup (disk w) (root ++ [firstn start dir_name]) = None ->
  let old_path := root ++ [dir_name] in
  let new_path := root ++ [firstn start dir_name] in
  let r := strip_folder_suffix root dir_name false w in
  fst r = Done tt
  /\ forall q,
       lookup (disk (snd r)) q
       = match strip_prefix new_path q with
         | Some rest => lookup (disk w) (old_path ++ rest)
         | None => if is_under old_path q then None else lookup (disk w) q
         end.
Proof.
  intros Hwf Hs Hold Hbase Hfree. cbv zeta.
  set (base := firstn start dir_name) in *.
  assert (Hne : peqb (root ++ [dir_name]) (root ++ [base]) = false).
  { apply peqb_neq. intros E. apply app_inv_head in E. injection E as E.
    now apply (stripped_shorter dir_name start Hs). }
  assert (Hrun : exists o,
    strip_folder_suffix root dir_name false w
    = (Done tt, mkWorld (move_tree (disk w) (root ++ [dir_name]) (root ++ [base])) o)).
  { assert (Hex : exists_ (disk w) (root ++ [base]) = false).
    { unfold exists_. now rewrite Hfree. }
    assert (Hu : ueqb dir_name base = false).
    { apply ueqb_neq. intros E. apply (stripped_shorter dir_name start Hs).
      now symmetry. }
    pose proof (well_formed_parent _ _ _ _ Hwf Hold) as Hroot.
    destruct w as [d o]. cbn [disk] in *.
    unfold strip_folder_suffix. rewrite Hs. cbv beta iota zeta. fold base.
    rewrite (os_path_join_proper root dir_name
               (well_formed_proper _ _ _ _ Hwf Hold)).
    rewrite (os_path_join_proper root base Hbase).
    unfold bind at 1. unfold os_path_exists, bind, get_disk, ret.
    cbv beta iota. cbn [disk]. rewrite_conv Hex.
    unfold safe_rename, try_except. rewrite_conv Hne.
    unfold bind at 1. unfold get_disk. cbv beta iota. unfold bind at 1.
    rewrite free_path_step. cbn [disk]. rewrite_conv Hex.
    unfold bind at 1. unfold os_rename, bind, get_disk. cbv beta iota.
    cbn [disk]. rewrite_conv Hold. rewrite_conv Hne.
    rewrite removelast_last. rewrite_conv Hroot. cbn [negb].
    rewrite is_under_siblings. rewrite_conv Hu. rewrite_conv Hfree.
    unfold set_disk, print, ret. cbn.
    eexists. reflexivity. }
  destruct Hrun as [o ->]. cbn [fst snd disk].
  split; [reflexivity|]. intros q. apply lookup_move_tree.
  now apply well_formed_free.
Qed.

Lemma suffix_stripped_when_base_free_witness :
  let w := mkWorld [ ([], Dir); (P ["data"], Dir);
                     (P ["data"; "Klee_3"], Dir);
                     (P ["data"; "Klee_3"; "hi.lab"], File (Blob [1])) ] [] in
  let r := strip_folder_suffix (P ["data"]) (str "Klee_3") false w in
  fst r = Done tt
  /\ lookup (disk (snd r)) (P ["data"; "Klee"; "hi.lab"]) = Some (File (Blob [1]))
  /\ lookup (disk (snd r)) (P ["data"; "Klee_3"]) = None.
Proof.
  intros w r.
  destruct (suffix_stripped_when_base_free w (P ["data"]) (str "Klee_3") 4%nat
              Dir eq_refl eq_refl eq_refl eq_refl eq_refl) as [H1 H2].
  split; [exact H1|]. split; rewrite H2; reflexivity.
Defined.

Section MissingTarget.

Variable soundfile : container -> bool.
Variable kept_by_pathlib : path -> bool.
Variable len_ms : Z -> Z -> Z.
Variable ratecv : audio -> Z -> Z.
Variable lazy_pinyin : ustring -> option (list ustring).
Variable capitalize : ustring -> ustring.

Lemma walk_missing {St} (topdown : bool) (top : path)
    (body : path -> list name -> list name -> St -> M St) (s : St) (w : world) :
  lookup (disk w) top = None -> walk topdown top body s w = (Done s, w).
Proof.
  intros H. unfold walk, bind, get_disk. cbn [os_walk].
  unfold bind, get_disk, scandir. cbv beta iota. now rewrite H.
Qed.

(** X17.  When the target folder does not exist the program says so,
    changes nothing and ends normally, in either mode: the later passes
    walk nothing. *)
Theorem main_on_missing_target (target : path) (dry_run : bool) (w : world) :
  lookup (disk w) target = None ->
  let r := main soundfile kept_by_pathlib len_ms ratecv lazy_pinyin capitalize
      target dry_run w in
  fst r = Done tt
  /\ disk (snd r) = disk w
  /\ In (TargetMissing target) (out (snd r)).
Proof.
  intros H. cbv zeta.
  assert (Hex : exists_ (disk w) target = false).
  { unfold exists_. now rewrite H. }
  assert (H1 : forall o,
    rename_folders_to_pinyin soundfile kept_by_pathlib len_ms ratecv lazy_pinyin
        capitalize target dry_run
      (mkWorld (disk w) o)
    = (Done tt, mkWorld (disk w) (o ++ [TargetMissing target]))).
  { intros o. unfold rename_folders_to_pinyin, try_except, os_path_exists,
      bind, get_disk, ret, print. cbv beta iota. cbn [disk out].
    now rewrite Hex. }
  assert (H2 : forall o,
    exists o', rename_speaker_folders target dry_run (mkWorld (disk w) o)
               = (Done tt, mkWorld (disk w) o')).
  { intros o. unfold rename_speaker_folders, try_except, bind, print.
    cbv beta iota. cbn [disk out].
    rewrite walk_missing by exact H. eexists. reflexivity. }
  assert (H3 : forall o,
    exists o', rename_files_underscore_to_dash target dry_run
                 (mkWorld (disk w) o)
               = (Done tt, mkWorld (disk w) o')).
  { intros o. unfold rename_files_underscore_to_dash, try_except, bind, print.
    cbv beta iota. cbn [disk out].
    rewrite walk_missing by exact H. eexists. reflexivity. }
  destruct w as [d o]. cbn [disk] in *.
  assert (Hmain : exists o',
    main soundfile kept_by_pathlib len_ms ratecv lazy_pinyin capitalize target
        dry_run (mkWorld d o)
    = (Done tt, mkWorld d o') /\ In (TargetMissing target) o').
  { unfold main. unfold bind at 1. unfold print at 1. cbv beta iota.
    unfold bind at 1. unfold print at 1. cbv beta iota. cbn [disk out].
    unfold bind at 1. rewrite H1.
    unfold bind at 1.
    destruct (H2 (((o ++ [Start target]) ++ [Mode dry_run])
                    ++ [TargetMissing target])) as [o2 E2].
    assert (Ho2 : In (TargetMissing target) o2).
    { revert E2. unfold rename_speaker_folders, try_except, bind, print.
      cbv beta iota. cbn [disk out].
      rewrite walk_missing by exact H. intros E. injection E as <-.
      rewrite !in_app_iff. simpl. tauto. }
    rewrite E2.
    unfold bind at 1. destruct (H3 o2) as [o3 E3].
    assert (Ho3 : In (TargetMissing target) o3).
    { revert E3. unfold rename_files_underscore_to_dash, try_except, bind, print.
      cbv beta iota. cbn [disk out].
      rewrite walk_missing by exact H. intros E. injection E as <-.
      rewrite !in_app_iff. now left. }
    rewrite E3. unfold print. cbn [disk out].
    eexists. split; [reflexivity|]. rewrite in_app_iff. now left. }
  destruct Hmain as (o' & -> & Hin). cbn [fst snd disk out]. auto.
Qed.

(** X18.  convert_to_pinyin never fails and never touches the disk; the
    name it answers is clean and has no CJK character, whatever the
    transliteration gives, and when the transliteration raises it is the
    sanitized text itself, after the error was printed. *)
Theorem convert_to_pinyin_answers (text : ustring) (w : world) :
  exists new_name o,
    convert_to_pinyin lazy_pinyin capitalize text w
    = (Done new_name, mkWorld (disk w) o)
    /\ already_clean new_name = true
    /\ has_chinese new_name = false
    /\ match lazy_pinyin text with
       | Some units => new_name = clean_name (concat (map capitalize units))
                       /\ o = out w
       | None => new_name = clean_name text
                 /\ o = out w ++ [ErrorConvertingPinyin text]
       end.
Proof.
  unfold convert_to_pinyin. destruct w as [d o]. cbn [disk out].
  destruct (lazy_pinyin text) as [units|]; eexists; eexists;
    (split; [reflexivity|]);
    (split; [apply clean_name_already_clean|]);
    (split; [apply clean_name_no_chinese|]); now split.
Qed.

End MissingTarget.

Lemma main_on_missing_target_witness :
  let w := mkWorld [ ([], Dir); (P ["data"], Dir) ] [] in
  let r := main soundfile_all spelled_plainly len_ms_nearest ratecv_floor
      pinyin_raises capitalize_ascii (P ["corpus"]) false w in
  fst r = Done tt /\ disk (snd r) = disk w
  /\ In (TargetMissing (P ["corpus"])) (out (snd r)).
Proof.
  intros w r.
  exact (main_on_missing_target soundfile_all spelled_plainly len_ms_nearest
           ratecv_floor pinyin_raises capitalize_ascii
           (P ["corpus"]) false w eq_refl).
Defined.

(* ================================================================= *)
(** ** Preview mode comes to an end *)

Lemma runs_ret {A} (d : fs) (a : A) : runs_on d (ret a).
Proof. intros o. exists (Done a), o. now split. Qed.

Lemma runs_raise {A} (d : fs) (e : exn) : runs_on d (@raise A e).
Proof. intros o. exists (Raised e), o. now split. Qed.

Lemma runs_print (d : fs) (m : msg) : runs_on d (print m).
Proof. intros o. exists (Done tt), (o ++ [m]). now split. Qed.

Lemma runs_os_path_exists (d : fs) (p : path) : runs_on d (os_path_exists p).
Proof. intros o. exists (Done (exists_ d p)), o. now split. Qed.

Lemma runs_bind {A B} (d : fs) (m : M A) (k : A -> M B) :
  runs_on d m -> (forall a, runs_on d (k a)) -> runs_on d (bind m k).
Proof.
  intros Hm Hk o. destruct (Hm o) as (r & o1 & E & Hr). unfold bind. rewrite E.
  destruct r as [a|e|]; [apply Hk | | contradiction].
  exists (Raised e), o1. now split.
Qed.

(** What [get_disk] hands to the rest is the disk itself. *)
Lemma runs_get_disk {B} (d : fs) (k : fs -> M B) :
  runs_on d (k d) -> runs_on d (bind get_disk k).
Proof. intros Hk o. exact (Hk o). Qed.

Lemma runs_try_except {A} (d : fs) (m : M A) (h : exn -> M A) :
  runs_on d m -> (forall e, runs_on d (h e)) -> runs_on d (try_except m h).
Proof.
  intros Hm Hh o. destruct (Hm o) as (r & o1 & E & Hr).
  unfold try_except. rewrite E.
  destruct r as [a|e|]; [| apply Hh | contradiction].
  exists (Done a), o1. now split.
Qed.

Lemma runs_for_each {A St} (d : fs) (xs : list A) (f : A -> St -> M St) (s : St) :
  (forall x s, runs_on d (f x s)) -> runs_on d (for_each xs f s).
Proof.
  intros Hf. revert s. induction xs as [|x xs IH]; intros s; cbn [for_each].
  - apply runs_ret.
  - apply runs_bind; [apply Hf | apply IH].
Qed.

Lemma runs_bind_returns {A B} (d : fs) (m : M A) (k : A -> M B) (Q : A -> Prop) :
  runs_on d m -> returns m Q -> (forall a, Q a -> runs_on d (k a)) ->
  runs_on d (bind m k).
Proof.
  intros Hm Hq Hk o. destruct (Hm o) as (r & o1 & E & Hr). unfold bind. rewrite E.
  destruct r as [a|e|]; [apply Hk; eapply Hq; exact E | | contradiction].
  exists (Raised e), o1. now split.
Qed.

Lemma runs_for_each_in {A St} (d : fs) (xs : list A) (f : A -> St -> M St) (s : St) :
  (forall x s, In x xs -> runs_on d (f x s)) -> runs_on d (for_each xs f s).
Proof.
  revert s. induction xs as [|x xs IH]; intros s Hf; cbn [for_each].
  - apply runs_ret.
  - apply runs_bind; [apply Hf; now left|].
    intros s'. apply IH. intros y s2 Hy. apply Hf. now right.
Qed.

Lemma runs_for_ {A} (d : fs) (xs : list A) (f : A -> M unit) :
  (forall x, runs_on d (f x)) -> runs_on d (for_ xs f).
Proof. intros Hf. apply runs_for_each. intros x _. apply Hf. Qed.

(** The fuel a walk is given is enough on a tree: every directory it
    scans lies one level below the one it came from. *)
Lemma runs_os_walk {St} (d : fs)
    (body : path -> list name -> list name -> St -> M St) (topdown : bool) :
  well_formed d = true ->
  (forall root dirs files s, runs_on d (body root dirs files s)) ->
  forall fuel top s,
    (depth_bound d < length top + fuel)%nat ->
    runs_on d (os_walk fuel topdown top body s).
Proof.
  intros Hwf Hbody. induction fuel as [|f IH]; intros top s Hfuel.
  - cbn [os_walk]. apply runs_get_disk.
    destruct (scandir d top) as [[dirs files]|] eqn:E; [|apply runs_ret].
    apply scandir_listed, depth_bound_key in E. lia.
  - cbn [os_walk]. apply runs_get_disk.
    destruct (scandir d top) as [[dirs files]|] eqn:E; [|apply runs_ret].
    assert (Hdescend : forall s,
      runs_on d (for_each dirs
        (fun dirname s => os_walk f topdown (os_path_join top dirname) body s) s)).
    { intros s0. generalize (fun n => scandir_dirs _ _ _ _ n E).
      generalize dirs s0. clear - IH Hwf Hfuel.
      induction dirs as [|n dirs IHd]; intros s0 Hin; cbn [for_each].
      - apply runs_ret.
      - apply runs_bind.
        + specialize (Hin n (or_introl eq_refl)).
          apply In_lookup in Hin as [e He].
          rewrite (os_path_join_proper top n (well_formed_proper _ _ _ _ Hwf He)).
          apply IH. rewrite length_app. simpl. lia.
        + intros s1. apply IHd. intros m Hm. apply Hin. now right. }
    destruct topdown.
    + apply runs_bind; [apply Hbody | exact Hdescend].
    + apply runs_bind; [apply Hdescend | intros s1; apply Hbody].
Qed.

Lemma runs_walk {St} (d : fs)
    (body : path -> list name -> list name -> St -> M St) (topdown : bool)
    (top : path) (s : St) :
  well_formed d = true ->
  (forall root dirs files s, runs_on d (body root dirs files s)) ->
  runs_on d (walk topdown top body s).
Proof.
  intros Hwf Hbody. unfold walk. apply runs_get_disk.
  apply runs_os_walk; [exact Hwf | exact Hbody | lia].
Qed.

(** Walk through a computation that only reads the disk and prints. *)
Ltac running :=
  repeat (intros; cbv beta iota; first
    [ apply runs_ret
    | apply runs_raise
    | apply runs_print
    | apply runs_os_path_exists
    | solve [auto]
    | match goal with
      | |- runs_on _ (bind get_disk _) => apply runs_get_disk
      | |- runs_on _ (try_except _ _) => apply runs_try_except
      | |- runs_on _ (bind _ _) => apply runs_bind
      | |- runs_on _ (for_each _ _ _) => apply runs_for_each
      | |- runs_on _ (for_ _ _) => apply runs_for_
      | |- runs_on _ (walk _ _ _ _) => apply runs_walk
      | |- runs_on _ (if ?b then _ else _) => destruct b
      | |- runs_on _ (match ?x with _ => _ end) => destruct x
      end ]).

Section PreviewRuns.

Variable soundfile : container -> bool.
Variable kept_by_pathlib : path -> bool.
Variable len_ms : Z -> Z -> Z.
Variable ratecv : audio -> Z -> Z.
Variable lazy_pinyin : ustring -> option (list ustring).
Variable capitalize : ustring -> ustring.
Variable d : fs.
Hypothesis Hwf : well_formed d = true.

Lemma preview_process_audio_file_runs (p : path) :
  runs_on d (process_audio_file soundfile kept_by_pathlib len_ms ratecv (p,
      true)).
Proof.
  unfold process_audio_file, convert_audio_format, convert_wav_with_soundfile,
    convert_with_pydub, get_audio_duration, sf_read, AudioSegment_from_file,
    open_rb.
  running.
Qed.

Lemma preview_remove_short_audio_files_runs (target : path) :
  runs_on d (remove_short_audio_files soundfile kept_by_pathlib len_ms ratecv
      target true).
Proof.
  unfold remove_short_audio_files.
  apply runs_bind; [apply runs_print|]. intros _.
  eapply runs_bind_returns;
    [pose proof Hwf; running | apply collected_files_flagged|].
  intros audio_files Hflag.
  assert (H : runs_on d
    (for_each audio_files
       (fun args results =>
          r <- process_audio_file soundfile kept_by_pathlib len_ms ratecv args
              ;; ret (results ++ [r])) [])).
  { apply runs_for_each_in. intros [p flag] results Hin.
    apply (proj1 (Forall_forall _ _) Hflag) in Hin. simpl in Hin. subst flag.
    apply runs_bind; [apply preview_process_audio_file_runs | running]. }
  destruct audio_files; running.
Qed.

Lemma preview_run_pass_runs (target : path) (p : pass) :
  runs_on d (run_pass soundfile kept_by_pathlib len_ms ratecv lazy_pinyin
      capitalize target true p).
Proof.
  pose proof preview_remove_short_audio_files_runs.
  pose proof Hwf.
  destruct p; cbn [run_pass];
    unfold remove_specific_folders, rename_folders_to_pinyin,
      remove_specific_folders, rename_speaker_folders, strip_folder_suffix,
      rename_files_underscore_to_dash, safe_remove_folder, convert_to_pinyin;
    running.
Qed.

End PreviewRuns.

(** What comes to an end and raises nothing returns. *)
Lemma runs_returns {A} (d : fs) (m : M A) :
  runs_on d m -> no_raise m ->
  forall o, exists a o', m (mkWorld d o) = (Done a, mkWorld d o').
Proof.
  intros Hrun Hcaught o. destruct (Hrun o) as (r & o' & E & Hr).
  specialize (Hcaught (mkWorld d o)). rewrite E in Hcaught. cbn [fst] in Hcaught.
  destruct r as [a|e|]; [now exists a, o' | | contradiction].
  now specialize (Hcaught e).
Qed.

Section PreviewCompletes.

Variable soundfile : container -> bool.
Variable kept_by_pathlib : path -> bool.
Variable len_ms : Z -> Z -> Z.
Variable ratecv : audio -> Z -> Z.
Variable lazy_pinyin : ustring -> option (list ustring).
Variable capitalize : ustring -> ustring.

(** X19.  On a well-formed disk preview mode comes to its end: the
    program, and any sequence of passes, returns normally with the disk
    as it found it, having only printed.  Every walk reaches the bottom
    of the tree and every error of the audio libraries is caught. *)
Theorem preview_completes (target : path) (passes : list pass) (w : world) :
  well_formed (disk w) = true ->
  (exists o', main soundfile kept_by_pathlib len_ms ratecv lazy_pinyin
      capitalize target true w
              = (Done tt, mkWorld (disk w) o'))
  /\ (exists o', run_passes soundfile kept_by_pathlib len_ms ratecv lazy_pinyin
      capitalize target true passes w
                 = (Done tt, mkWorld (disk w) o')).
Proof.
  intros Hwf. destruct w as [d o]. cbn [disk] in *.
  pose proof (preview_run_pass_runs soundfile kept_by_pathlib len_ms ratecv
                lazy_pinyin capitalize d Hwf target) as Hpass.
  split.
  - assert (Hrun : runs_on d (main soundfile kept_by_pathlib len_ms ratecv
      lazy_pinyin capitalize target true)).
    { pose proof (Hpass RenameFoldersToPinyin) as H1.
      pose proof (Hpass RenameSpeakerFolders) as H2.
      pose proof (Hpass RenameFilesUnderscoreToDash) as H3.
      cbn [run_pass] in H1, H2, H3. unfold main. running. }
    assert (Hcaught : no_raise (main soundfile kept_by_pathlib len_ms ratecv
        lazy_pinyin capitalize target true)).
    { pose proof (remove_short_audio_files_caught soundfile kept_by_pathlib
                    len_ms ratecv).
      unfold main, rename_folders_to_pinyin, rename_speaker_folders,
        rename_files_underscore_to_dash.
      caught. }
    destruct (runs_returns d _ Hrun Hcaught o) as ([] & o' & E). now exists o'.
  - assert (Hrun : runs_on d
      (run_passes soundfile kept_by_pathlib len_ms ratecv lazy_pinyin capitalize
          target true passes)).
    { unfold run_passes. apply runs_for_. exact Hpass. }
    assert (Hcaught : no_raise
      (run_passes soundfile kept_by_pathlib len_ms ratecv lazy_pinyin capitalize
          target true passes)).
    { unfold run_passes. apply no_raise_for_. apply run_pass_caught. }
    destruct (runs_returns d _ Hrun Hcaught o) as ([] & o' & E). now exists o'.
Qed.

End PreviewCompletes.

Lemma preview_completes_witness :
  let w := mkWorld Scenario.upper_case_tree [] in
  (exists o', main soundfile_all spelled_plainly len_ms_nearest ratecv_floor
      pinyin_raises capitalize_ascii Scenario.target true w
              = (Done tt, mkWorld (disk w) o'))
  /\ (exists o', run_passes soundfile_all spelled_plainly len_ms_nearest
      ratecv_floor pinyin_raises capitalize_ascii
                   Scenario.target true [RemoveShortAudioFiles] w
                 = (Done tt, mkWorld (disk w) o')).
Proof.
  intros w.
  exact (preview_completes soundfile_all spelled_plainly len_ms_nearest
           ratecv_floor pinyin_raises capitalize_ascii
           Scenario.target [RemoveShortAudioFiles] w eq_refl).
Defined.

(* ================================================================= *)
(** ** A short clip and its transcript *)

Lemma replace_from_absent (old new s : ustring) :
  has_substring old s = false -> replace_from old new O s = s.
Proof.
  induction s as [|c r IH]; intros H; [reflexivity|].
  cbn [has_substring] in H. apply orb_false_iff in H as [H1 H2].
  cbn [replace_from]. rewrite H1. f_equal. now apply IH.
Qed.

Lemma replace_absent (old new s : ustring) :
  has_substring old s = false -> replace old new s = s.
Proof.
  intros H. unfold replace. destruct old; [reflexivity|].
  now apply replace_from_absent.
Qed.

(** No [.wav] starts inside a stem free of it and ends in the [.wav]
    appended to it. *)
Lemma replace_wav_tail (stem : ustring) :
  has_substring (str ".wav") stem = false ->
  replace (str ".wav") (str ".lab") (stem ++ str ".wav") = stem ++ str ".lab".
Proof.
  change (str ".wav") with [46; 119; 97; 118].
  change (str ".lab") with [46; 108; 97; 98].
  unfold replace. induction stem as [|c r IH]; intros H; [reflexivity|].
  cbn [has_substring] in H. apply orb_false_iff in H as [H1 H2].
  cbn [app replace_from].
  assert (Hs : startswith [46; 119; 97; 118] (c :: r ++ [46; 119; 97; 118])
               = false).
  { cbn [startswith] in *. destruct (46 =? c); [|reflexivity]. cbn [andb] in *.
    destruct r as [|c1 r]; [reflexivity|]. cbn [app startswith] in *.
    destruct (119 =? c1); [|reflexivity]. cbn [andb] in *.
    destruct r as [|c2 r]; [reflexivity|]. cbn [app startswith] in *.
    destruct (97 =? c2); [|reflexivity]. cbn [andb] in *.
    destruct r as [|c3 r]; [reflexivity|]. cbn [app startswith] in *.
    destruct (118 =? c3); [discriminate H1 | reflexivity]. }
  rewrite Hs. f_equal. now apply IH.
Qed.

Lemma rfind_dot_from_app (s t : ustring) (i : nat) (found : option nat) :
  rfind_dot_from i (s ++ t) found
  = rfind_dot_from (i + length s) t (rfind_dot_from i s found).
Proof.
  revert i found. induction s as [|c r IH]; intros i found; cbn [app length].
  - now rewrite Nat.add_0_r.
  - cbn [rfind_dot_from]. rewrite IH. now rewrite Nat.add_succ_r.
Qed.

Lemma suffix_wav (stem : ustring) :
  stem <> [] -> suffix (stem ++ str ".wav") = str ".wav".
Proof.
  intros Hstem. unfold suffix, rfind_dot. rewrite rfind_dot_from_app.
  change (str ".wav") with [46; 119; 97; 118].
  cbn [rfind_dot_from N.eqb Pos.eqb Nat.add]. rewrite length_app. cbn [length].
  assert (Hlen : (0 < length stem)%nat).
  { destruct stem; [congruence | simpl; lia]. }
  assert (H1 : (0 <? length stem)%nat = true) by now apply Nat.ltb_lt.
  assert (H2 : (length stem <? length stem + 4 - 1)%nat = true)
    by (apply Nat.ltb_lt; lia).
  rewrite H1, H2. cbn [andb].
  now rewrite skipn_app, skipn_all, Nat.sub_diag.
Qed.

Lemma path_replace_wav (root : path) (stem : name) :
  Forall (fun n => has_substring (str ".wav") n = false) root ->
  has_substring (str ".wav") stem = false ->
  path_replace (str ".wav") (str ".lab") (root ++ [stem ++ str ".wav"])
  = root ++ [stem ++ str ".lab"].
Proof.
  intros Hroot Hstem. unfold path_replace. rewrite map_app. cbn [map].
  rewrite replace_wav_tail by exact Hstem. f_equal.
  induction Hroot as [|n root Hn _ IH]; [reflexivity|].
  cbn [map]. now rewrite replace_absent, IH.
Qed.

Section ShortClip.

Variable soundfile : container -> bool.
Variable kept_by_pathlib : path -> bool.
Variable len_ms : Z -> Z -> Z.
Variable ratecv : audio -> Z -> Z.

(** X20.  Execute mode on a single-channel 44100 Hz clip [stem.wav]
    shorter than one second, in a path with no other [.wav], that
    soundfile reads or whose path is held as pathlib writes it: the clip
    is removed and counted.  Its transcript [stem.lab] goes with it when
    it is a regular file; when it is missing, or is a directory, the
    clip is removed all the same, and the failure to remove the
    transcript is printed as an error on the clip. *)
Theorem short_clip_goes_with_transcript (w : world) (root : path) (stem : name)
    (k : container) (a : audio) :
  let p := root ++ [stem ++ str ".wav"] in
  let q := root ++ [stem ++ str ".lab"] in
  stem <> [] ->
  Forall (fun n => has_substring (str ".wav") n = false) root ->
  has_substring (str ".wav") stem = false ->
  lookup (disk w) p = Some (File (Sound k a)) ->
  soundfile k = true \/ kept_by_pathlib p = true ->
  channels a = 1%Z -> frame_rate a = 44100%Z -> (millis len_ms a < 1000)%Z ->
  let r :=
    process_audio_file soundfile kept_by_pathlib len_ms ratecv (p, false) w in
  fst r = Done (p, true)
  /\ match lookup (disk w) q with
     | Some (File _) =>
       (forall x, lookup (disk (snd r)) x
                  = if peqb x p || peqb x q then None else lookup (disk w) x)
       /\ In (RemovedShort p (millis len_ms a)) (out (snd r))
     | Some Dir =>
       (forall x, lookup (disk (snd r)) x
                  = if peqb x p then None else lookup (disk w) x)
       /\ In (ErrorRemoving p IsADirectoryError) (out (snd r))
     | None =>
       (forall x, lookup (disk (snd r)) x
                  = if peqb x p then None else lookup (disk w) x)
       /\ In (ErrorRemoving p FileNotFoundError) (out (snd r))
     end.
Proof.
  intros p q Hstem Hroot Hfree Hl Hread Hc Hr Hm r. subst r.
  assert (Hs : suffix (basename p) = str ".wav").
  { unfold p. rewrite basename_snoc. now apply suffix_wav. }
  assert (Hover : passed_over soundfile kept_by_pathlib p k = true).
  { unfold passed_over. rewrite (wav_suffix_endswith p Hs), Hs.
    cbn [andb]. destruct Hread as [-> | ->]; [reflexivity|].
    now rewrite orb_true_r. }
  assert (Hq : path_replace (str ".wav") (str ".lab") p = q)
    by now apply path_replace_wav.
  assert (Hpq : peqb q p = false).
  { apply peqb_neq. unfold p, q. intros E. apply app_inv_head in E.
    injection E as E. apply app_inv_head in E. discriminate E. }
  destruct (convert_passes_over soundfile kept_by_pathlib ratecv
              w p k a false Hl Hc Hr Hover) as [o1 E].
  unfold process_audio_file, bind. rewrite E. cbn [fst disk].
  unfold get_audio_duration, try_except, AudioSegment_from_file, open_rb, bind,
    get_disk, ret. cbn [disk]. rewrite Hl.
  assert (Hshort : (millis len_ms a <? 1000)%Z = true)
    by (apply Z.ltb_lt; exact Hm).
  rewrite Hshort.
  unfold os_remove, bind, get_disk, set_disk, raise, print. cbn [disk out].
  rewrite Hl. cbn [disk out]. rewrite Hq.
  rewrite (lookup_remove_path (disk w) p q), Hpq.
  destruct (lookup (disk w) q) as [[c|]|] eqn:Eq; cbn [fst snd disk out];
    (split; [reflexivity|]); split.
  - intros x. rewrite !lookup_remove_path.
    destruct (peqb x q); [now rewrite orb_true_r|]. now rewrite orb_false_r.
  - rewrite in_app_iff. right. now left.
  - intros x. apply lookup_remove_path.
  - rewrite in_app_iff. right. now left.
  - intros x. apply lookup_remove_path.
  - rewrite in_app_iff. right. now left.
Qed.

End ShortClip.

Lemma short_clip_goes_with_transcript_witness :
  let d := [ ([], Dir); (P ["data"], Dir);
             (P ["data"; "clip.wav"], File (Sound WAV Scenario.short_clip));
             (P ["data"; "clip.lab"], File (Blob [104; 105])) ] in
  let p := P ["data"] ++ [str "clip" ++ str ".wav"] in
  let q := P ["data"] ++ [str "clip" ++ str ".lab"] in
  let r := process_audio_file soundfile_missing spelled_plainly len_ms_nearest
             ratecv_floor (p, false) (mkWorld d []) in
  fst r = Done (p, true)
  /\ (forall x, lookup (disk (snd r)) x
                = if peqb x p || peqb x q then None else lookup d x)
  /\ In (RemovedShort p 500%Z) (out (snd r)).
Proof.
  intros d p q r.
  exact (short_clip_goes_with_transcript soundfile_missing spelled_plainly
           len_ms_nearest ratecv_floor (mkWorld d [])
           (P ["data"]) (str "clip") WAV Scenario.short_clip
           ltac:(discriminate)
           ltac:(repeat constructor) eq_refl eq_refl (or_intror eq_refl)
           eq_refl eq_refl eq_refl).
Defined.

(** Under a target typed [./data], with a soundfile that does not read
    the clip, the same clip is exported onto itself and then removed by
    format normalization; the removal of the short clip then fails, and
    the transcript stays. *)
Lemma short_clip_transcript_left_under_dotted_target :
  disk_after
    (process_audio_file soundfile_missing spelled_with_dot len_ms_nearest
       ratecv_floor (P ["data"; "clip.wav"], false))
    [ ([], Dir); (P ["data"], Dir);
      (P ["data"; "clip.wav"], File (Sound WAV Scenario.short_clip));
      (P ["data"; "clip.lab"], File (Blob [104; 105])) ]
  = [ ([], Dir); (P ["data"], Dir);
      (P ["data"; "clip.lab"], File (Blob [104; 105])) ].
Proof. vm_compute. reflexivity. Qed.

(* ================================================================= *)
(** ** What the deny-list pass may remove *)

Lemma pruned_order :
  (forall d, pruned d d)
  /\ (forall a b c, pruned a b -> pruned b c -> pruned a c).
Proof.
  split; [intros d q; now left|].
  intros a b c H1 H2 q.
  destruct (H2 q) as [E2|E2]; [|now right].
  rewrite E2. apply H1.
Qed.

Lemma denied_names_proper (n : name) :
  mem n FOLDERS_TO_REMOVE = true -> proper_name n = true.
Proof.
  unfold mem. intros H. apply existsb_exists in H as (m & Hm & E).
  apply ueqb_eq in E. subst m.
  assert (Hall : forallb proper_name FOLDERS_TO_REMOVE = true)
    by (vm_compute; reflexivity).
  rewrite forallb_forall in Hall. now apply Hall.
Qed.

Lemma safe_remove_folder_pruned (root : path) (n : name) (dry_run : bool) :
  mem n FOLDERS_TO_REMOVE = true ->
  keeps pruned (safe_remove_folder (os_path_join root n) dry_run).
Proof.
  intros Hn w q. rewrite (os_path_join_proper root n (denied_names_proper n Hn)).
  destruct w as [d o].
  unfold safe_remove_folder, try_except, shutil_rmtree, bind, get_disk,
    set_disk, ret, raise, print. cbn [disk out].
  destruct dry_run; [now left|].
  match goal with
  | |- context [match ?x with Some _ => _ | None => _ end] =>
    destruct x as [[c|]|]
  end; cbn [snd disk out]; try now left.
  rewrite lookup_remove_tree.
  destruct (is_under (root ++ [n]) q) eqn:Eu; [|now left].
  right. split; [reflexivity|].
  apply is_under_true in Eu as [r ->].
  unfold denied. rewrite !existsb_app. cbn [existsb]. rewrite Hn.
  now rewrite orb_true_r.
Qed.

(** X21.  The deny-list pass creates nothing and rewrites nothing, in
    either mode and however it ends: every path is afterwards as it was
    before, or is gone, and a path that is gone has a folder of
    FOLDERS_TO_REMOVE among its components. *)
Theorem deny_list_pass_only_prunes (target : path) (dry_run : bool) (w : world)
    (q : path) :
  let d' := disk (snd (remove_specific_folders target dry_run w)) in
  lookup d' q = lookup (disk w) q
  \/ (lookup d' q = None /\ denied q = true).
Proof.
  cbv zeta. revert w q.
  change (keeps pruned (remove_specific_folders target dry_run)).
  pose proof safe_remove_folder_pruned as Hstep.
  unfold remove_specific_folders.
  apply (keeps_try_except pruned_order); [|keep_going pruned_order].
  apply (keeps_walk pruned_order). intros root dirs files s.
  apply (keeps_for_ pruned_order). intros dir_name.
  destruct (mem dir_name FOLDERS_TO_REMOVE) eqn:E; [|keep_going pruned_order].
  apply (keeps_bind pruned_order); [now apply Hstep | keep_going pruned_order].
Qed.
